(** * Audio preprocessing core of whisper-android

    A shallow embedding of [app/src/main/cpp/audio_processor.cpp]: the five
    JNI entry points [pcm16ToFloat], [resampleAudio], [highPassFilter],
    [normalizeAudio] and [calculateRMS], over an explicit model of the Java
    heap (array objects named by references), of the native element buffers
    that the JNI calls hand out, and of IEEE-754 binary32 / binary64
    arithmetic as the C++ expressions use it. *)

From Stdlib Require Import ZArith Bool List Lia.
From Stdlib Require Import Floats.SpecFloat.
From stdpp Require Import base gmap list.

Local Open Scope Z_scope.

(** ** IEEE-754 arithmetic

    [jfloat] is binary32 and [double] is binary64.  Both are carried by
    [spec_float]; the operations are the round-to-nearest-even ones of the
    standard library's specification of floating-point arithmetic.  Every
    arithmetic operator of the source rounds on its own, in the type the
    usual arithmetic conversions give it (no fused multiply-add, no excess
    precision). *)

Module F32.
Definition prec : Z := 24.
Definition emax : Z := 128.
Definition add := SFadd prec emax.
Definition sub := SFsub prec emax.
Definition mul := SFmul prec emax.
Definition div := SFdiv prec emax.
Definition abs := SFabs.
Definition opp := SFopp.
Definition ltb := SFltb.
Definition eqb := SFeqb.
(** [static_cast<float>(n)] for an integer [n], and float literals with an
    integral value. *)
Definition of_int (n : Z) : spec_float := binary_normalize prec emax n 0 false.
(** Narrowing of a double, as an assignment to a [float] performs it. *)
Definition of_double (x : spec_float) : spec_float :=
  match x with
  | S754_finite s m e => binary_round prec emax s m e
  | _ => x
  end.
Definition zero : spec_float := S754_zero false.
End F32.

Module F64.
Definition prec : Z := 53.
Definition emax : Z := 1024.
Definition add := SFadd prec emax.
Definition sub := SFsub prec emax.
Definition mul := SFmul prec emax.
Definition div := SFdiv prec emax.
Definition sqrt := SFsqrt prec emax.
(** [static_cast<double>(n)] and the implicit int-to-double conversion. *)
Definition of_int (n : Z) : spec_float := binary_normalize prec emax n 0 false.
(** The implicit float-to-double promotion (exact). *)
Definition of_float (x : spec_float) : spec_float :=
  match x with
  | S754_finite s m e => binary_round prec emax s m e
  | _ => x
  end.
Definition zero : spec_float := S754_zero false.
End F64.


(** The [M_PI] macro of <cmath> (3.14159265358979323846), as the binary64
    number nearest to it: 0x400921FB54442D18. *)
Definition M_PI : spec_float := S754_finite false 7074237752028440 (-51).

(** ** Undefined behaviour

    A computation either yields a value or has no defined behaviour (an
    out-of-bounds access to a native buffer, a float-to-integer conversion
    whose value the integer type cannot hold, a JNI call on something that
    is not an array of the expected kind). *)

Inductive result (A : Type) : Type :=
| Val (a : A)
| Undefined.
Arguments Val {A} a.
Arguments Undefined {A}.

Definition bind {A B : Type} (c : result A) (k : A -> result B) : result B :=
  match c with
  | Val a => k a
  | Undefined => Undefined
  end.

Notation "'do' x <- c ;; k" := (bind c (fun x => k))
  (at level 10, x name, c at level 99, k at level 200).
Notation "'do' ' p <- c ;; k" := (bind c (fun x => let 'p := x in k))
  (at level 10, p pattern, c at level 99, k at level 200).

Definition defined {A : Type} (c : result A) : Prop :=
  match c with Val _ => True | Undefined => False end.

(** [jsize] and [jint] are 32-bit signed integers. *)
Definition JSIZE_MIN : Z := - 2 ^ 31.
Definition JSIZE_MAX : Z := 2 ^ 31 - 1.

(** The integral part of a finite double (the fractional part discarded).
    NaN and the infinities have none. *)
Definition trunc (x : spec_float) : option Z :=
  match x with
  | S754_zero _ => Some 0
  | S754_finite s m e =>
      Some (cond_Zopp s (if 0 <=? e then Zpos m * 2 ^ e else Zpos m / 2 ^ (- e)))
  | _ => None
  end.

(** [static_cast<jsize>(x)] for a double [x]: truncation toward zero, and
    undefined when the truncated value is not representable. *)
Definition to_jsize (x : spec_float) : result Z :=
  match trunc x with
  | Some z => if (JSIZE_MIN <=? z) && (z <=? JSIZE_MAX) then Val z else Undefined
  | None => Undefined
  end.

(** ** Native element buffers

    A buffer obtained from [Get<Type>ArrayElements] is a C array: indexing
    it is defined only inside its bounds. *)

Definition load {A : Type} (buf : list A) (i : Z) : result A :=
  if 0 <=? i then
    match buf !! Z.to_nat i with
    | Some v => Val v
    | None => Undefined
    end
  else Undefined.

Definition store {A : Type} (buf : list A) (i : Z) (v : A) : result (list A) :=
  if (0 <=? i) && (i <? Z.of_nat (length buf))
  then Val (<[Z.to_nat i := v]> buf)
  else Undefined.

(** [for (jsize i = lo; i < hi; ++i) body], threading the state the body
    updates. *)
Fixpoint for_loop {S : Type} (body : Z -> S -> result S) (n : nat) (i : Z) (s : S)
  : result S :=
  match n with
  | O => Val s
  | Datatypes.S n' => do s' <- body i s ;; for_loop body n' (i + 1) s'
  end.

Definition for_range {S : Type} (lo hi : Z) (body : Z -> S -> result S) (s : S)
  : result S :=
  for_loop body (Z.to_nat (hi - lo)) lo s.

(** ** The Java heap and the JNI calls *)

Inductive jarray : Type :=
| ShortArray (elems : list Z)
| FloatArray (elems : list spec_float).

Definition jref : Type := positive.
Abbreviation heap := (gmap positive jarray).

Definition array_length (a : jarray) : Z :=
  match a with
  | ShortArray l => Z.of_nat (length l)
  | FloatArray l => Z.of_nat (length l)
  end.

(** Which of the JNI calls of one invocation come back with [nullptr]: the
    element access to the argument array, the allocation of the result
    array, the element access to the result array. *)
Record JNIEnv : Type := {
  input_elements_null : bool;
  new_array_null : bool;
  output_elements_null : bool
}.

Definition no_faults : JNIEnv :=
  {| input_elements_null := false; new_array_null := false;
     output_elements_null := false |}.

(** Release modes. *)
Inductive release_mode : Type := COPY_BACK | JNI_ABORT.

Definition GetArrayLength (h : heap) (a : jref) : result Z :=
  match h !! a with
  | Some arr => Val (array_length arr)
  | None => Undefined
  end.

Definition GetShortArrayElements (null : bool) (h : heap) (a : jref)
  : result (option (list Z)) :=
  match h !! a with
  | Some (ShortArray l) => Val (if null then None else Some l)
  | _ => Undefined
  end.

Definition GetFloatArrayElements (null : bool) (h : heap) (a : jref)
  : result (option (list spec_float)) :=
  match h !! a with
  | Some (FloatArray l) => Val (if null then None else Some l)
  | _ => Undefined
  end.

(** A new array object is zero-filled and has a reference no live object
    has. *)
Definition NewFloatArray (null : bool) (h : heap) (n : Z)
  : result (heap * option jref) :=
  if null then Val (h, None)
  else if n <? 0 then Undefined
  else
    let r := fresh (dom h) in
    Val (<[r := FloatArray (replicate (Z.to_nat n) F32.zero)]> h, Some r).

Definition ReleaseFloatArrayElements (h : heap) (a : jref)
  (buf : list spec_float) (mode : release_mode) : heap :=
  match mode with
  | COPY_BACK => <[a := FloatArray buf]> h
  | JNI_ABORT => h
  end.

Definition ReleaseShortArrayElements (h : heap) (a : jref)
  (buf : list Z) (mode : release_mode) : heap :=
  match mode with
  | COPY_BACK => <[a := ShortArray buf]> h
  | JNI_ABORT => h
  end.

(** ** The five operations

    Each function follows its C++ body statement by statement.  The log
    calls ([LOGE], [LOGD], [LOGI]) touch nothing that is modelled and are
    left out.  The integer expressions [source_length - 1], [index + 1] and
    [i - 1] are evaluated on values between -1 and the largest [jsize], so
    they never wrap and are written over [Z]. *)

(** [const float scale = 1.0f / 32768.0f;] *)
Definition pcm_scale : spec_float := F32.div (F32.of_int 1) (F32.of_int 32768).

Definition pcm16ToFloat (env : JNIEnv) (h : heap) (pcm_data : jref)
  : result (heap * option jref) :=
  do length <- GetArrayLength h pcm_data ;;
  do pcm <- GetShortArrayElements (input_elements_null env) h pcm_data ;;
  match pcm with
  | None => Val (h, None)
  | Some pcm =>
    do ' (h1, float_array) <- NewFloatArray (new_array_null env) h length ;;
    match float_array with
    | None => Val (ReleaseShortArrayElements h1 pcm_data pcm JNI_ABORT, None)
    | Some float_array =>
      do float_data <- GetFloatArrayElements (output_elements_null env) h1 float_array ;;
      match float_data with
      | None => Val (ReleaseShortArrayElements h1 pcm_data pcm JNI_ABORT, None)
      | Some float_data =>
        do float_data <-
          for_range 0 length
            (fun i float_data =>
               do x <- load pcm i ;;
               store float_data i (F32.mul (F32.of_int x) pcm_scale))
            float_data ;;
        let h2 := ReleaseFloatArrayElements h1 float_array float_data COPY_BACK in
        let h3 := ReleaseShortArrayElements h2 pcm_data pcm JNI_ABORT in
        Val (h3, Some float_array)
      end
    end
  end.

(** One output sample of the resampler: the body of the interpolation
    loop, for output index [i]. *)
Definition resample_sample (source_audio : list spec_float) (source_length : Z)
  (ratio : spec_float) (i : Z) : result spec_float :=
  let source_index := F64.div (F64.of_int i) ratio in
  do index <- to_jsize source_index ;;
  let fraction := F64.sub source_index (F64.of_int index) in
  if source_length - 1 <=? index then
    load source_audio (source_length - 1)
  else
    do x0 <- load source_audio index ;;
    do x1 <- load source_audio (index + 1) ;;
    Val (F32.of_double
           (F64.add
              (F64.mul (F64.of_float x0)
                       (F64.sub (F64.of_float (F32.of_int 1)) fraction))
              (F64.mul (F64.of_float x1) fraction))).

Definition resampleAudio (env : JNIEnv) (h : heap) (audio_data : jref)
  (source_rate target_rate : Z) : result (heap * option jref) :=
  if source_rate =? target_rate then Val (h, Some audio_data)
  else
    do source_length <- GetArrayLength h audio_data ;;
    do source_audio <- GetFloatArrayElements (input_elements_null env) h audio_data ;;
    match source_audio with
    | None => Val (h, None)
    | Some source_audio =>
      let ratio := F64.div (F64.of_int target_rate) (F64.of_int source_rate) in
      do target_length <- to_jsize (F64.mul (F64.of_int source_length) ratio) ;;
      do ' (h1, target_array) <- NewFloatArray (new_array_null env) h target_length ;;
      match target_array with
      | None => Val (ReleaseFloatArrayElements h1 audio_data source_audio JNI_ABORT, None)
      | Some target_array =>
        do target_audio <- GetFloatArrayElements (output_elements_null env) h1 target_array ;;
        match target_audio with
        | None => Val (ReleaseFloatArrayElements h1 audio_data source_audio JNI_ABORT, None)
        | Some target_audio =>
          do target_audio <-
            for_range 0 target_length
              (fun i target_audio =>
                 do v <- resample_sample source_audio source_length ratio i ;;
                 store target_audio i v)
              target_audio ;;
          let h2 := ReleaseFloatArrayElements h1 target_array target_audio COPY_BACK in
          let h3 := ReleaseFloatArrayElements h2 audio_data source_audio JNI_ABORT in
          Val (h3, Some target_array)
        end
      end
    end.

(** The filter coefficient:
    [dt = 1.0f / sample_rate], [rc = 1.0f / (2.0f * M_PI * cutoff_freq)]
    (evaluated in double, stored in a float), [alpha = rc / (rc + dt)]. *)
Definition hpf_dt (sample_rate : Z) : spec_float :=
  F32.div (F32.of_int 1) (F32.of_int sample_rate).

Definition hpf_rc (cutoff_freq : spec_float) : spec_float :=
  F32.of_double
    (F64.div (F64.of_float (F32.of_int 1))
       (F64.mul (F64.mul (F64.of_float (F32.of_int 2)) M_PI)
                (F64.of_float cutoff_freq))).

Definition hpf_alpha (cutoff_freq : spec_float) (sample_rate : Z) : spec_float :=
  let dt := hpf_dt sample_rate in
  let rc := hpf_rc cutoff_freq in
  F32.div rc (F32.add rc dt).

(** The body of the filter loop: [filtered[i] = alpha * (filtered[i-1] +
    audio[i] - audio[i-1])], all in single precision, the sum and the
    difference associated to the left. *)
Definition hpf_step (alpha : spec_float) (audio : list spec_float) (i : Z)
  (filtered : list spec_float) : result (list spec_float) :=
  do fprev <- load filtered (i - 1) ;;
  do a <- load audio i ;;
  do aprev <- load audio (i - 1) ;;
  store filtered i (F32.mul alpha (F32.sub (F32.add fprev a) aprev)).

Definition highPassFilter (env : JNIEnv) (h : heap) (audio_data : jref)
  (cutoff_freq : spec_float) (sample_rate : Z) : result (heap * option jref) :=
  do length <- GetArrayLength h audio_data ;;
  do audio <- GetFloatArrayElements (input_elements_null env) h audio_data ;;
  match audio with
  | None => Val (h, None)
  | Some audio =>
    do ' (h1, filtered_array) <- NewFloatArray (new_array_null env) h length ;;
    match filtered_array with
    | None => Val (ReleaseFloatArrayElements h1 audio_data audio JNI_ABORT, None)
    | Some filtered_array =>
      do filtered <- GetFloatArrayElements (output_elements_null env) h1 filtered_array ;;
      match filtered with
      | None => Val (ReleaseFloatArrayElements h1 audio_data audio JNI_ABORT, None)
      | Some filtered =>
        let alpha := hpf_alpha cutoff_freq sample_rate in
        do a0 <- load audio 0 ;;
        do filtered <- store filtered 0 a0 ;;
        do filtered <- for_range 1 length (hpf_step alpha audio) filtered ;;
        let h2 := ReleaseFloatArrayElements h1 filtered_array filtered COPY_BACK in
        let h3 := ReleaseFloatArrayElements h2 audio_data audio JNI_ABORT in
        Val (h3, Some filtered_array)
      end
    end
  end.

(** The body of the peak scan: [if (std::abs(audio[i]) > max_val) max_val =
    std::abs(audio[i])]. *)
Definition peak_step (audio : list spec_float) (i : Z) (max_val : spec_float)
  : result spec_float :=
  do x <- load audio i ;;
  let abs_val := F32.abs x in
  Val (if F32.ltb max_val abs_val then abs_val else max_val).

Definition normalizeAudio (env : JNIEnv) (h : heap) (audio_data : jref)
  (target_level : spec_float) : result (heap * option jref) :=
  do length <- GetArrayLength h audio_data ;;
  do audio <- GetFloatArrayElements (input_elements_null env) h audio_data ;;
  match audio with
  | None => Val (h, None)
  | Some audio =>
    do max_val <- for_range 0 length (peak_step audio) F32.zero ;;
    if F32.eqb max_val F32.zero then
      Val (ReleaseFloatArrayElements h audio_data audio JNI_ABORT, Some audio_data)
    else
      do ' (h1, normalized_array) <- NewFloatArray (new_array_null env) h length ;;
      match normalized_array with
      | None => Val (ReleaseFloatArrayElements h1 audio_data audio JNI_ABORT, None)
      | Some normalized_array =>
        do normalized <-
          GetFloatArrayElements (output_elements_null env) h1 normalized_array ;;
        match normalized with
        | None => Val (ReleaseFloatArrayElements h1 audio_data audio JNI_ABORT, None)
        | Some normalized =>
          let scale := F32.div target_level max_val in
          do normalized <-
            for_range 0 length
              (fun i normalized =>
                 do x <- load audio i ;;
                 store normalized i (F32.mul x scale))
              normalized ;;
          let h2 := ReleaseFloatArrayElements h1 normalized_array normalized COPY_BACK in
          let h3 := ReleaseFloatArrayElements h2 audio_data audio JNI_ABORT in
          Val (h3, Some normalized_array)
        end
      end
  end.

(** The body of the energy loop: [sum_squares += audio[i] * audio[i]]: the
    product of two floats is a float, widened for the addition. *)
Definition rms_step (audio : list spec_float) (i : Z) (sum_squares : spec_float)
  : result spec_float :=
  do x <- load audio i ;;
  Val (F64.add sum_squares (F64.of_float (F32.mul x x))).

Definition calculateRMS (env : JNIEnv) (h : heap) (audio_data : jref)
  : result spec_float :=
  do length <- GetArrayLength h audio_data ;;
  do audio <- GetFloatArrayElements (input_elements_null env) h audio_data ;;
  match audio with
  | None => Val F32.zero
  | Some audio =>
    do sum_squares <- for_range 0 length (rms_step audio) F64.zero ;;
    let rms := F32.of_double (F64.sqrt (F64.div sum_squares (F64.of_int length))) in
    Val rms
  end.

(** * Specification-level definitions

    The closed forms the theorems compare the loops with, and the values
    the examples use. *)

(** ** Values *)

(** [represents x num den] holds when the float [x] is finite and its value
    is exactly the rational [num / den] ([den] positive). *)
Definition represents (x : spec_float) (num den : Z) : bool :=
  match x with
  | S754_zero _ => num =? 0
  | S754_finite s m e =>
      if 0 <=? e then cond_Zopp s (Zpos m) * 2 ^ e * den =? num
      else cond_Zopp s (Zpos m) * den =? num * 2 ^ (- e)
  | _ => false
  end.

Definition is_zero (x : spec_float) : Prop :=
  match x with S754_zero _ => True | _ => False end.

(** A float whose sign bit is clear (NaN, which has no sign here, is let
    through). *)
Definition nonneg (x : spec_float) : Prop :=
  match x with
  | S754_zero s | S754_infinity s | S754_finite s _ _ => s = false
  | S754_nan => True
  end.

(** The single-precision literals [0.5f], [1.0f], [100.0f], [0.1f], [0.2f],
    [0.4f] (mantissa and exponent of the nearest binary32 number), and the
    smallest positive single-precision number, 2^-149. *)
Definition F32_half : spec_float := S754_finite false 8388608 (-24).
Definition F32_one : spec_float := S754_finite false 8388608 (-23).
Definition F32_100 : spec_float := F32.of_int 100.
Definition F32_0_1 : spec_float := S754_finite false 13421773 (-27).
Definition F32_0_2 : spec_float := S754_finite false 13421773 (-26).
Definition F32_0_4 : spec_float := S754_finite false 13421773 (-25).
Definition F32_min_subnormal : spec_float := S754_finite false 1 (-149).

(** A heap that holds one float array, at reference 1. *)
Definition single (audio : list spec_float) : heap :=
  {[ 1%positive := FloatArray audio ]}.

(** The result array of a successful call ([[]] when there is none). *)
Definition result_array (r : result (heap * option jref)) : list spec_float :=
  match r with
  | Val (h, Some a) =>
      match h !! a with
      | Some (FloatArray l) => l
      | _ => []
      end
  | _ => []
  end.

(** Some JNI call of the invocation is set to come back with [nullptr]. *)
Definition any_fault (env : JNIEnv) : bool :=
  input_elements_null env || new_array_null env || output_elements_null env.

(** ** PCM decoder *)

(** [output[i] = input[i] * (1.0 / 32768.0)]: the sample converted to
    float, times the single-precision scale. *)
Definition decode_sample (x : Z) : spec_float := F32.mul (F32.of_int x) pcm_scale.

(** Each of the [n] consecutive samples from [x] on decodes to exactly its
    value over 32768. *)
Fixpoint decode_exact_from (x : Z) (n : nat) : bool :=
  match n with
  | O => true
  | Datatypes.S k =>
      represents (decode_sample x) x 32768 && decode_exact_from (x + 1) k
  end.

(** ** Resampler *)

(** [ratio = static_cast<double>(target_rate) / static_cast<double>(source_rate)] *)
Definition resample_ratio (source_rate target_rate : Z) : spec_float :=
  F64.div (F64.of_int target_rate) (F64.of_int source_rate).

(** [source_index = static_cast<double>(i) / ratio] *)
Definition source_position (ratio : spec_float) (i : Z) : spec_float :=
  F64.div (F64.of_int i) ratio.

(** [input[index] * (1 - fraction) + input[index + 1] * fraction], the
    operations in double precision, the result narrowed to a float. *)
Definition interpolate (x0 x1 fraction : spec_float) : spec_float :=
  F32.of_double
    (F64.add (F64.mul (F64.of_float x0) (F64.sub (F64.of_float (F32.of_int 1)) fraction))
             (F64.mul (F64.of_float x1) fraction)).

(** ** High-pass filter *)

(** The filter recurrence at index [i >= 1] of the output [filtered]:
    [filtered[i] = alpha * (filtered[i-1] + audio[i] - audio[i-1])]. *)
Definition hpf_recurrence (alpha : spec_float) (audio filtered : list spec_float)
  (i : nat) : Prop :=
  exists fprev a aprev,
    filtered !! (i - 1)%nat = Some fprev
    /\ audio !! i = Some a
    /\ audio !! (i - 1)%nat = Some aprev
    /\ filtered !! i = Some (F32.mul alpha (F32.sub (F32.add fprev a) aprev)).

(** ** Normalizer *)

(** [max_val] after the peak scan: the running maximum of the absolute
    values, starting from [0.0f]. *)
Definition peak (audio : list spec_float) : spec_float :=
  fold_left (fun max_val x => if F32.ltb max_val (F32.abs x) then F32.abs x else max_val)
    audio F32.zero.

(** [scale = target_level / max_val] *)
Definition normalize_scale (target_level : spec_float) (audio : list spec_float)
  : spec_float :=
  F32.div target_level (peak audio).

(** ** Energy meter *)

(** [sum_squares]: every square is a single-precision product, the running
    sum is a double. *)
Definition sum_squares (audio : list spec_float) : spec_float :=
  fold_left (fun acc x => F64.add acc (F64.of_float (F32.mul x x))) audio F64.zero.

(** [sqrt(sum_squares / N)], narrowed to the [float] the function returns. *)
Definition rms_value (audio : list spec_float) : spec_float :=
  F32.of_double
    (F64.sqrt (F64.div (sum_squares audio) (F64.of_int (Z.of_nat (length audio))))).

(** ** Further predicates on values *)

(** [P] holds of each of the [n] consecutive integers from [x] on. *)
Fixpoint check_from (P : Z -> bool) (x : Z) (n : nat) : bool :=
  match n with
  | O => true
  | Datatypes.S k => P x && check_from P (x + 1) k
  end.

(** [-1.0 <= y < 1.0] *)
Definition in_unit_range (y : spec_float) : bool :=
  SFleb (F32.opp F32_one) y && SFltb y F32_one.

(** A magnitude: not NaN, sign bit clear. *)
Definition is_magnitude (x : spec_float) : Prop :=
  match x with
  | S754_zero s | S754_infinity s | S754_finite s _ _ => s = false
  | S754_nan => False
  end.

(** A sample the peak scan passes over: a zero of either sign, or NaN. *)
Definition silent_sample (x : spec_float) : Prop :=
  match x with
  | S754_zero _ | S754_nan => True
  | _ => False
  end.

(** The sign bit of a float (NaN carries none here). *)
Definition sign_bit (x : spec_float) : option bool :=
  match x with
  | S754_zero s | S754_infinity s | S754_finite s _ _ => Some s
  | S754_nan => None
  end.

(** Neither NaN nor an infinity. *)
Definition is_finite (x : spec_float) : Prop :=
  match x with
  | S754_zero _ | S754_finite _ _ _ => True
  | _ => False
  end.

(** A magnitude that is not zero. *)
Definition positive_magnitude (x : spec_float) : Prop :=
  match x with
  | S754_infinity false | S754_finite false _ _ => True
  | _ => False
  end.

(** An infinity of either sign. *)
Definition is_infinite (x : spec_float) : Prop :=
  match x with S754_infinity _ => True | _ => False end.

(** Equal, or zeros that differ in sign only. *)
Definition same_value (x y : spec_float) : Prop :=
  x = y \/ (is_zero x /\ is_zero y).

(** A binary32 number with nothing but a representable finite value. *)
Definition finite_sample (x : spec_float) : Prop :=
  valid_binary F32.prec F32.emax x = true /\ is_finite x.

(** ** Rounding to nearest, and the order of magnitudes *)

(** Where the quotient [N / D] lies between the integer below it and the
    next: on the integer, below the middle, at the middle or above it. *)
Definition inbetween (N D : Z) : location :=
  if N mod D =? 0 then loc_Exact else loc_Inexact (2 * (N mod D) ?= D).

(** The quotient [N / D] rounded down, with the round and sticky bits that
    [shr_1] keeps of what it cuts off. *)
Definition located (N D : Z) : shr_record :=
  shr_record_of_loc (N / D) (inbetween N D).

(** [N / D] rounded to the nearest integer, ties to even. *)
Definition rne (N D : Z) : Z := round_nearest_even (N / D) (inbetween N D).

(** The binary32 number of sign [s] and magnitude [m * 2^E], for a rounded
    mantissa [0 <= m <= 2^24]: a zero, a finite number (with the carry
    [m = 2^24] renormalized) or, past the largest exponent, an infinity. *)
Definition rounded (s : bool) (m E : Z) : spec_float :=
  match m with
  | Zpos p =>
      if m =? 16777216
      then (if E + 1 <=? 104 then S754_finite s 8388608 (E + 1) else S754_infinity s)
      else (if E <=? 104 then S754_finite s p E else S754_infinity s)
  | _ => S754_zero s
  end.

(** [|x|] in units of [2^-149], the spacing of the smallest binary32
    numbers; an infinity is given [2^128], above every finite number. *)
Definition magnitude (x : spec_float) : Z :=
  match x with
  | S754_finite _ m e => Zpos m * 2 ^ (e + 149)
  | S754_infinity _ => 2 ^ 277
  | _ => 0
  end.

(** A binary32 number that is not NaN and whose sign bit is clear. *)
Definition valid_magnitude (x : spec_float) : Prop :=
  valid_binary 24 128 x = true /\ is_magnitude x.

(** A normal number: finite, with a full 24-bit mantissa. *)
Definition normal_number (x : spec_float) : Prop :=
  match x with
  | S754_finite _ m _ => 2 ^ 23 <= Zpos m
  | _ => False
  end.

(** ** Heap effects *)

(** The outcome of a call that allocates at most one array and writes to
    nothing else. *)
Definition allocates_only (h : heap) (outcome : result (heap * option jref)) : Prop :=
  match outcome with
  | Undefined => True
  | Val (h', r) =>
      (r = None /\ h ⊆ h')
      \/ (exists out, r = Some (fresh (dom h))
                      /\ h' = <[fresh (dom h) := FloatArray out]> h)
  end.

(** A body that, if it finishes, stores one buffer into the array it was
    given and returns that array. *)
Definition fills_array
  (body : heap -> jref -> list spec_float -> result (heap * option jref)) : Prop :=
  forall h1 arr buf,
    match body h1 arr buf with
    | Undefined => True
    | Val (h', r) => exists out, r = Some arr /\ h' = <[arr := FloatArray out]> h1
    end.

(** * Properties *)

(** ** Literals *)

(** The literals are the correctly rounded quotients of the integers that
    spell them, and [M_PI] lies within 2^-51 of 3.14159265358979323846. *)
Lemma float_literals :
  F32_one = F32.of_int 1
  /\ F32_half = F32.div (F32.of_int 1) (F32.of_int 2)
  /\ F32_0_1 = F32.div (F32.of_int 1) (F32.of_int 10)
  /\ F32_0_2 = F32.div (F32.of_int 2) (F32.of_int 10)
  /\ F32_0_4 = F32.div (F32.of_int 4) (F32.of_int 10)
  /\ represents F32_min_subnormal 1 (2 ^ 149) = true
  /\ pcm_scale = S754_finite false 8388608 (-38)
  /\ (7074237752028440 - 1) * 10 ^ 20 < 314159265358979323846 * 2 ^ 51
      < (7074237752028440 + 1) * 10 ^ 20.
Proof. vm_compute. repeat split. Qed.

(** ** Loops and buffers *)

Lemma load_lookup {A : Type} (buf : list A) (i : nat) (v : A) :
  buf !! i = Some v -> load buf (Z.of_nat i) = Val v.
Proof.
  intros Hv. unfold load.
  destruct (Z.leb_spec 0 (Z.of_nat i)); [|lia].
  by rewrite Nat2Z.id, Hv.
Qed.

Lemma load_defined {A : Type} (buf : list A) (i : Z) :
  defined (load buf i) <-> 0 <= i < Z.of_nat (length buf).
Proof.
  unfold load. destruct (Z.leb_spec 0 i) as [Hi|Hi]; simpl; [|lia].
  destruct (buf !! Z.to_nat i) as [v|] eqn:Hv; simpl.
  - apply lookup_lt_Some in Hv. lia.
  - apply lookup_ge_None in Hv. lia.
Qed.

Lemma store_in_bounds {A : Type} (buf : list A) (i : nat) (v : A) :
  (i < length buf)%nat -> store buf (Z.of_nat i) v = Val (<[i := v]> buf).
Proof.
  intros Hi. unfold store.
  destruct (Z.leb_spec 0 (Z.of_nat i)); [|lia].
  destruct (Z.ltb_spec (Z.of_nat i) (Z.of_nat (length buf))); [|lia].
  simpl. by rewrite Nat2Z.id.
Qed.

(** A loop whose body keeps an invariant runs to completion and
    establishes the invariant at its upper bound. *)
Lemma for_loop_inv {S : Type} (P : Z -> S -> Prop) (body : Z -> S -> result S)
  (n : nat) (lo : Z) (s : S) :
  P lo s ->
  (forall i s0, lo <= i < lo + Z.of_nat n -> P i s0 ->
     exists s1, body i s0 = Val s1 /\ P (i + 1) s1) ->
  exists s', for_loop body n lo s = Val s' /\ P (lo + Z.of_nat n) s'.
Proof.
  revert lo s. induction n as [|n IH]; intros lo s H0 Hstep.
  - exists s. simpl. split; [done|]. by replace (lo + Z.of_nat 0) with lo by lia.
  - destruct (Hstep lo s) as (s1 & Hb & H1); [lia|done|].
    destruct (IH (lo + 1) s1) as (s' & Hl & H'); [done| |].
    + intros i s0 Hi. apply Hstep. lia.
    + exists s'. simpl. rewrite Hb. simpl. split; [done|].
      by replace (lo + Z.of_nat (Datatypes.S n)) with (lo + 1 + Z.of_nat n) by lia.
Qed.

(** A loop whose body stores [g i] at index [i] fills a buffer of length
    [n] with [g 0], ..., [g (n-1)]. *)
Lemma fill_loop {A : Type} (body : Z -> list A -> result (list A)) (g : Z -> A)
  (n : nat) (buf : list A) :
  length buf = n ->
  (forall i b, 0 <= i < Z.of_nat n -> length b = n -> body i b = store b i (g i)) ->
  exists out,
    for_range 0 (Z.of_nat n) body buf = Val out
    /\ length out = n
    /\ forall i, (i < n)%nat -> out !! i = Some (g (Z.of_nat i)).
Proof.
  intros Hlen Hbody. unfold for_range.
  replace (Z.to_nat (Z.of_nat n - 0)) with n by lia.
  destruct (for_loop_inv
    (fun k b => length b = n /\
       forall i, (Z.of_nat i < k) -> (i < n)%nat -> b !! i = Some (g (Z.of_nat i)))
    body n 0 buf) as (out & Hrun & Hl & Hout).
  - split; [done|]. intros i Hi. lia.
  - intros i b Hi [Hb Hpre]. rewrite (Hbody i b) by (done || lia).
    replace (store b i (g i)) with (store b (Z.of_nat (Z.to_nat i)) (g i))
      by (f_equal; lia).
    rewrite store_in_bounds by lia.
    eexists. split; [done|]. split; [by rewrite length_insert|].
    intros j Hj Hjn. destruct (decide (j = Z.to_nat i)) as [->|Hne].
    + rewrite list_lookup_insert_eq by lia. f_equal. f_equal. lia.
    + rewrite list_lookup_insert_ne by done. apply Hpre; lia.
  - exists out. split; [done|]. split; [done|].
    intros i Hi. apply Hout; lia.
Qed.

Lemma load_nth {A : Type} (d : A) (buf : list A) (i : Z) :
  0 <= i < Z.of_nat (length buf) -> load buf i = Val (nth (Z.to_nat i) buf d).
Proof.
  intros Hi. replace i with (Z.of_nat (Z.to_nat i)) at 1 by lia.
  apply load_lookup.
  destruct (nth_lookup_or_length buf (Z.to_nat i) d) as [H|H]; [done|lia].
Qed.

(** A buffer filled with [g] applied to the elements of [src], index by
    index, is [map g src]. *)
Lemma filled_is_map {A B : Type} (d : A) (g : A -> B) (src : list A) (out : list B) :
  length out = length src ->
  (forall i, (i < length src)%nat -> out !! i = Some (g (nth i src d))) ->
  out = map g src.
Proof.
  intros Hlen Hout. apply (list_eq_same_length _ _ (length src)).
  - by rewrite length_map.
  - done.
  - intros i x y Hi Hx Hy. rewrite Hout in Hx by done.
    rewrite list_lookup_fmap in Hy.
    destruct (src !! i) as [v|] eqn:Hv; [|done].
    rewrite (nth_lookup_Some _ _ d _ Hv) in Hx. simpl in Hy. congruence.
Qed.

(** A loop that reads a buffer from its first to its last element and
    accumulates is a left fold over the buffer. *)
Lemma fold_loop {A S : Type} (step : S -> A -> S) (audio : list A) (acc : S) :
  for_range 0 (Z.of_nat (length audio))
    (fun i acc => do x <- load audio i ;; Val (step acc x)) acc
  = Val (fold_left step audio acc).
Proof.
  unfold for_range.
  replace (Z.to_nat (Z.of_nat (length audio) - 0)) with (length audio) by lia.
  enough (forall l2 l1 acc, audio = l1 ++ l2 ->
    for_loop (fun i acc => do x <- load audio i ;; Val (step acc x))
      (length l2) (Z.of_nat (length l1)) acc = Val (fold_left step l2 acc)) as H.
  { apply (H audio [] acc). done. }
  induction l2 as [|x l2 IH]; intros l1 acc0 Heq; [done|].
  simpl. rewrite (load_lookup audio (length l1) x).
  - simpl. replace (Z.of_nat (length l1) + 1) with (Z.of_nat (length (l1 ++ [x]))).
    + apply IH. by rewrite <- app_assoc.
    + rewrite length_app. simpl. lia.
  - subst audio. by rewrite lookup_app_r, Nat.sub_diag by lia.
Qed.

(** ** The heap *)

Lemma fresh_unused (h : heap) : h !! fresh (dom h) = None.
Proof. apply not_elem_of_dom. apply is_fresh. Qed.

Lemma NewFloatArray_ok (h : heap) (n : Z) :
  0 <= n ->
  NewFloatArray false h n
  = Val (<[fresh (dom h) := FloatArray (replicate (Z.to_nat n) F32.zero)]> h,
         Some (fresh (dom h))).
Proof.
  intros Hn. unfold NewFloatArray. destruct (Z.ltb_spec n 0); [lia|done].
Qed.

(** ** PCM decoder *)

Lemma pcm16ToFloat_map (h : heap) (pcm_data : jref) (pcm : list Z) :
  h !! pcm_data = Some (ShortArray pcm) ->
  pcm16ToFloat no_faults h pcm_data
  = Val (<[fresh (dom h) := FloatArray (map decode_sample pcm)]> h,
         Some (fresh (dom h))).
Proof.
  intros Ha. unfold pcm16ToFloat, GetArrayLength, GetShortArrayElements.
  rewrite Ha. cbn [bind array_length no_faults input_elements_null
    new_array_null output_elements_null].
  rewrite NewFloatArray_ok by lia. cbn [bind].
  unfold GetFloatArrayElements. rewrite lookup_insert_eq. cbn [bind].
  rewrite Nat2Z.id.
  destruct (fill_loop
    (fun i float_data =>
       do x <- load pcm i ;; store float_data i (F32.mul (F32.of_int x) pcm_scale))
    (fun i => decode_sample (nth (Z.to_nat i) pcm 0))
    (length pcm) (replicate (length pcm) F32.zero)) as (out & Hrun & Hlen & Hout).
  - apply length_replicate.
  - intros i b Hi Hb. by rewrite (load_nth 0) by lia.
  - rewrite Hrun. cbn [bind ReleaseShortArrayElements ReleaseFloatArrayElements].
    rewrite insert_insert_eq.
    rewrite (filled_is_map 0 decode_sample pcm out); [done|done|].
    intros i Hi. rewrite Hout by done. by rewrite Nat2Z.id.
Qed.

Lemma decode_exact_from_spec (n : nat) (x : Z) :
  decode_exact_from x n = true ->
  forall y, x <= y < x + Z.of_nat n -> represents (decode_sample y) y 32768 = true.
Proof.
  revert x. induction n as [|n IH]; intros x Hn y Hy; [lia|].
  simpl in Hn. apply andb_true_iff in Hn as [Hx Hrest].
  destruct (decide (y = x)) as [->|Hne]; [done|].
  apply (IH (x + 1)); [done|lia].
Qed.

Lemma decode_sample_exact (x : Z) :
  -32768 <= x <= 32767 -> represents (decode_sample x) x 32768 = true.
Proof.
  intros Hx.
  apply (decode_exact_from_spec (Z.to_nat 65536) (-32768)); [vm_compute; reflexivity|lia].
Qed.

(** C4. For every sequence of 16-bit samples of length N >= 0 the decoder
    returns a newly allocated float array of the same length whose element
    [i] is [input[i] * (1.0f / 32768.0f)], computed sample by sample; that
    product is exactly [input[i] / 32768] for every 16-bit sample. An empty
    input gives an empty output, and [16384, -16384, 0] decodes to
    [0.5, -0.5, 0.0]. *)
Theorem pcm16ToFloat_decodes (h : heap) (pcm_data : jref) (pcm : list Z) :
  h !! pcm_data = Some (ShortArray pcm) ->
  exists out,
    pcm16ToFloat no_faults h pcm_data
    = Val (<[fresh (dom h) := FloatArray out]> h, Some (fresh (dom h)))
    /\ length out = length pcm
    /\ (forall i x, pcm !! i = Some x ->
          out !! i = Some (F32.mul (F32.of_int x) pcm_scale))
    /\ (forall i x, pcm !! i = Some x -> -32768 <= x <= 32767 ->
          exists y, out !! i = Some y /\ represents y x 32768 = true)
    /\ (pcm = [] -> out = [])
    /\ (pcm = [16384; -16384; 0] -> out = [F32_half; F32.opp F32_half; F32.zero]).
Proof.
  intros Ha. exists (map decode_sample pcm).
  split; [by apply pcm16ToFloat_map|].
  split; [by rewrite length_map|].
  split; [|split; [|split]].
  - intros i x Hx. by rewrite list_lookup_fmap, Hx.
  - intros i x Hx Hr. exists (decode_sample x).
    split; [by rewrite list_lookup_fmap, Hx|]. by apply decode_sample_exact.
  - by intros ->.
  - by intros ->.
Qed.

Lemma pcm16ToFloat_decodes_witness :
  exists out,
    pcm16ToFloat no_faults {[ 1%positive := ShortArray [16384; -16384; 0] ]} 1%positive
    = Val (<[fresh (dom ({[ 1%positive := ShortArray [16384; -16384; 0] ]} : heap))
             := FloatArray out]> {[ 1%positive := ShortArray [16384; -16384; 0] ]},
           Some (fresh (dom ({[ 1%positive := ShortArray [16384; -16384; 0] ]} : heap))))
    /\ out = [F32_half; F32.opp F32_half; F32.zero].
Proof.
  destruct (pcm16ToFloat_decodes {[ 1%positive := ShortArray [16384; -16384; 0] ]}
              1%positive [16384; -16384; 0]) as (out & Hrun & _ & _ & _ & _ & Hex).
  - reflexivity.
  - exists out. split; [exact Hrun|]. apply Hex. reflexivity.
Defined.

(** ** Floating-point facts *)

Lemma digits2_pos_lower (p : positive) : 2 ^ (Zpos (digits2_pos p) - 1) <= Zpos p.
Proof.
  induction p as [p IH|p IH|]; simpl digits2_pos; [| |simpl; lia].
  - rewrite Pos2Z.inj_succ.
    replace (Z.succ (Zpos (digits2_pos p)) - 1) with (Z.succ (Zpos (digits2_pos p) - 1)) by lia.
    rewrite Z.pow_succ_r by lia. lia.
  - rewrite Pos2Z.inj_succ.
    replace (Z.succ (Zpos (digits2_pos p)) - 1) with (Z.succ (Zpos (digits2_pos p) - 1)) by lia.
    rewrite Z.pow_succ_r by lia. lia.
Qed.

Lemma digits2_pos_jsize (p : positive) :
  Zpos p <= JSIZE_MAX -> Zpos (digits2_pos p) <= 31.
Proof.
  intros Hp. destruct (Z.le_gt_cases (Zpos (digits2_pos p)) 31) as [|Hd]; [done|].
  pose proof (digits2_pos_lower p) as Hl.
  assert (2 ^ 31 <= 2 ^ (Zpos (digits2_pos p) - 1)) by (apply Z.pow_le_mono_r; lia).
  unfold JSIZE_MAX in Hp. lia.
Qed.

Lemma digits2_pos_shift (p k : positive) :
  digits2_pos (Pos.iter xO p k) = (digits2_pos p + k)%positive.
Proof.
  induction k as [|k IH] using Pos.peano_ind.
  - simpl. lia.
  - rewrite Pos.iter_succ. simpl. rewrite IH. lia.
Qed.

(** Rounding a mantissa that is already in canonical position changes
    nothing. *)
Lemma binary_round_aux_canonical (prec emax : Z) (s : bool) (m : positive) (e : Z) :
  fexp prec emax (Zpos (digits2_pos m) + e) = e ->
  e <= emax - prec ->
  binary_round_aux prec emax s (Zpos m) e loc_Exact = S754_finite s m e.
Proof.
  intros Hc He. unfold binary_round_aux, shr_fexp. simpl Zdigits2.
  rewrite Hc, Z.sub_diag. simpl.
  rewrite Hc, Z.sub_diag. simpl.
  destruct (Z.leb_spec e (emax - prec)); [done|lia].
Qed.

(** The double of a positive array length is a positive finite number. *)
Lemma F64_of_int_positive (n : Z) :
  0 < n <= JSIZE_MAX -> exists m e, F64.of_int n = S754_finite false m e.
Proof.
  intros Hn. destruct n as [|p|p]; [lia| |lia].
  pose proof (digits2_pos_jsize p ltac:(lia)) as Hd.
  unfold F64.of_int, binary_normalize, binary_round.
  assert (fexp F64.prec F64.emax (Zpos (digits2_pos p) + 0) = Zpos (digits2_pos p) - 53) as Hf.
  { unfold fexp, emin, F64.prec, F64.emax. lia. }
  rewrite Hf. unfold shl_align.
  destruct (Zpos (digits2_pos p) - 53 - 0) as [|k|k] eqn:Hk; [lia|lia|].
  eexists _, _. apply binary_round_aux_canonical.
  - rewrite digits2_pos_shift. unfold fexp, emin, F64.prec, F64.emax. lia.
  - unfold F64.prec, F64.emax. lia.
Qed.

Lemma F32_mul_opp_opp (x : spec_float) : F32.mul (F32.opp x) (F32.opp x) = F32.mul x x.
Proof. destruct x as [s|s| |s m e]; try destruct s; reflexivity. Qed.

(** ** Energy meter *)

Lemma calculateRMS_value (h : heap) (audio_data : jref) (audio : list spec_float) :
  h !! audio_data = Some (FloatArray audio) ->
  calculateRMS no_faults h audio_data = Val (rms_value audio).
Proof.
  intros Ha. unfold calculateRMS, GetArrayLength, GetFloatArrayElements.
  rewrite Ha. cbn [bind array_length no_faults input_elements_null].
  unfold rms_step.
  rewrite (fold_loop (fun acc x => F64.add acc (F64.of_float (F32.mul x x)))).
  reflexivity.
Qed.

Lemma sum_squares_opp (audio : list spec_float) :
  sum_squares (map F32.opp audio) = sum_squares audio.
Proof.
  unfold sum_squares. generalize F64.zero.
  induction audio as [|x l IH]; intros acc; [done|].
  simpl. rewrite F32_mul_opp_opp. apply IH.
Qed.

Lemma sum_squares_zero (audio : list spec_float) :
  Forall is_zero audio -> sum_squares audio = S754_zero false.
Proof.
  unfold sum_squares, F64.zero. induction 1 as [|x l Hx _ IH]; [done|].
  simpl. destruct x as [s| | |]; try done. by destruct s.
Qed.

Lemma rms_value_zero (audio : list spec_float) :
  audio <> [] -> Z.of_nat (length audio) <= JSIZE_MAX ->
  Forall is_zero audio -> rms_value audio = S754_zero false.
Proof.
  intros Hne Hlen Hz. unfold rms_value. rewrite sum_squares_zero by done.
  destruct (F64_of_int_positive (Z.of_nat (length audio))) as (m & e & ->); [|done].
  destruct audio; [done|]. cbn [length] in *. lia.
Qed.

(** C5. For a non-empty buffer of length N the energy meter returns
    [sqrt(sum_squares / N)], the squares summed in a double accumulator;
    the result is 0 on an all-zero buffer, is the same on the buffer with
    every sample negated, and is 1.0 on [1.0, -1.0, 1.0, -1.0]. *)
Theorem calculateRMS_spec (h : heap) (audio_data : jref) (audio : list spec_float) :
  h !! audio_data = Some (FloatArray audio) ->
  (1 <= length audio)%nat ->
  calculateRMS no_faults h audio_data
  = Val (F32.of_double
           (F64.sqrt (F64.div (sum_squares audio)
                              (F64.of_int (Z.of_nat (length audio))))))
  /\ (Z.of_nat (length audio) <= JSIZE_MAX -> Forall is_zero audio ->
        calculateRMS no_faults h audio_data = Val (S754_zero false))
  /\ (forall h' negated, h' !! negated = Some (FloatArray (map F32.opp audio)) ->
        calculateRMS no_faults h' negated = calculateRMS no_faults h audio_data)
  /\ (audio = [F32_one; F32.opp F32_one; F32_one; F32.opp F32_one] ->
        calculateRMS no_faults h audio_data = Val F32_one).
Proof.
  intros Ha Hn. rewrite (calculateRMS_value h audio_data audio Ha).
  split; [done|]. split; [|split].
  - intros Hlen Hz. rewrite rms_value_zero; [done| |done|done].
    intros ->. simpl in Hn. lia.
  - intros h' negated Hneg. rewrite (calculateRMS_value h' negated _ Hneg).
    unfold rms_value. by rewrite sum_squares_opp, length_map.
  - by intros ->.
Qed.

Lemma calculateRMS_spec_witness :
  calculateRMS no_faults
    {[ 1%positive := FloatArray [F32_one; F32.opp F32_one; F32_one; F32.opp F32_one] ]}
    1%positive
  = Val F32_one.
Proof.
  destruct (calculateRMS_spec
    {[ 1%positive := FloatArray [F32_one; F32.opp F32_one; F32_one; F32.opp F32_one] ]}
    1%positive [F32_one; F32.opp F32_one; F32_one; F32.opp F32_one])
    as (_ & _ & _ & Hex).
  - reflexivity.
  - simpl. lia.
  - apply Hex. reflexivity.
Defined.

(** C8. On the empty buffer the energy meter divides the zero sum by a zero
    length: nothing guards the case, and the result is NaN. *)
Theorem calculateRMS_empty (h : heap) (audio_data : jref) :
  h !! audio_data = Some (FloatArray []) ->
  sum_squares [] = S754_zero false
  /\ F64.of_int (Z.of_nat (length (@nil spec_float))) = S754_zero false
  /\ F64.div (S754_zero false) (S754_zero false) = S754_nan
  /\ calculateRMS no_faults h audio_data = Val S754_nan.
Proof.
  intros Ha. rewrite (calculateRMS_value h audio_data [] Ha). done.
Qed.

Lemma calculateRMS_empty_witness :
  calculateRMS no_faults {[ 1%positive := FloatArray [] ]} 1%positive = Val S754_nan.
Proof.
  apply (calculateRMS_empty {[ 1%positive := FloatArray [] ]} 1%positive).
  reflexivity.
Defined.

(** ** High-pass filter *)

Lemma hpf_loop (alpha : spec_float) (audio : list spec_float) (x0 : spec_float)
  (buf : list spec_float) :
  length buf = length audio ->
  buf !! 0%nat = Some x0 ->
  exists out,
    for_range 1 (Z.of_nat (length audio)) (hpf_step alpha audio) buf = Val out
    /\ length out = length audio
    /\ out !! 0%nat = Some x0
    /\ forall i, (1 <= i < length audio)%nat -> hpf_recurrence alpha audio out i.
Proof.
  intros Hlen H0.
  assert (1 <= length audio)%nat as Hn.
  { apply lookup_lt_Some in H0. lia. }
  unfold for_range.
  destruct (for_loop_inv
    (fun k b => length b = length audio /\ b !! 0%nat = Some x0 /\
       forall i, (1 <= i)%nat -> Z.of_nat i < k -> hpf_recurrence alpha audio b i)
    (hpf_step alpha audio) (Z.to_nat (Z.of_nat (length audio) - 1)) 1 buf)
    as (out & Hrun & Hl & Hz & Hrec).
  - split; [done|]. split; [done|]. intros i Hi Hk. lia.
  - intros i b Hi (Hb & Hb0 & Hpre).
    assert (exists k, i = Z.of_nat k) as [k ->] by (exists (Z.to_nat i); lia).
    destruct (lookup_lt_is_Some_2 b (k - 1)) as [fprev Hf]; [lia|].
    destruct (lookup_lt_is_Some_2 audio k) as [a Ha]; [lia|].
    destruct (lookup_lt_is_Some_2 audio (k - 1)) as [aprev Hp]; [lia|].
    unfold hpf_step.
    replace (Z.of_nat k - 1) with (Z.of_nat (k - 1)) by lia.
    rewrite (load_lookup _ _ _ Hf), (load_lookup _ _ _ Ha), (load_lookup _ _ _ Hp).
    cbn [bind]. rewrite store_in_bounds by lia.
    eexists. split; [done|].
    split; [by rewrite length_insert|].
    split; [by rewrite list_lookup_insert_ne by lia|].
    intros j Hj Hjk. destruct (decide (j = k)) as [->|Hne].
    + exists fprev, a, aprev.
      rewrite list_lookup_insert_ne by lia.
      rewrite list_lookup_insert_eq by lia. done.
    + destruct (Hpre j) as (f' & a' & p' & H1 & H2 & H3 & H4); [done|lia|].
      exists f', a', p'.
      rewrite !list_lookup_insert_ne by lia. done.
  - exists out. split; [done|]. split; [done|]. split; [done|].
    intros i Hi. apply Hrec; lia.
Qed.

Lemma highPassFilter_run (h : heap) (audio_data : jref) (audio : list spec_float)
  (cutoff_freq : spec_float) (sample_rate : Z) :
  h !! audio_data = Some (FloatArray audio) ->
  audio <> [] ->
  exists filtered,
    highPassFilter no_faults h audio_data cutoff_freq sample_rate
    = Val (<[fresh (dom h) := FloatArray filtered]> h, Some (fresh (dom h)))
    /\ length filtered = length audio
    /\ filtered !! 0%nat = audio !! 0%nat
    /\ forall i, (1 <= i < length audio)%nat ->
         hpf_recurrence (hpf_alpha cutoff_freq sample_rate) audio filtered i.
Proof.
  intros Ha Hne. destruct audio as [|x0 rest]; [done|].
  unfold highPassFilter, GetArrayLength, GetFloatArrayElements.
  rewrite Ha. cbn [bind array_length no_faults input_elements_null
    new_array_null output_elements_null].
  rewrite NewFloatArray_ok by lia. cbn [bind].
  rewrite lookup_insert_eq. cbn [bind]. rewrite Nat2Z.id.
  change (load (x0 :: rest) 0) with (Val x0). cbn [bind].
  assert (store (replicate (length (x0 :: rest)) F32.zero) 0 x0
          = Val (<[0%nat := x0]> (replicate (length (x0 :: rest)) F32.zero))) as ->
    by done.
  cbn [bind].
  destruct (hpf_loop (hpf_alpha cutoff_freq sample_rate) (x0 :: rest) x0
              (<[0%nat := x0]> (replicate (length (x0 :: rest)) F32.zero)))
    as (out & Hrun & Hlen & H0 & Hrec).
  - by rewrite length_insert, length_replicate.
  - done.
  - exists out. rewrite Hrun.
    cbn [bind ReleaseFloatArrayElements]. rewrite insert_insert_eq. done.
Qed.

Lemma highPassFilter_empty (h : heap) (audio_data : jref)
  (cutoff_freq : spec_float) (sample_rate : Z) :
  h !! audio_data = Some (FloatArray []) ->
  highPassFilter no_faults h audio_data cutoff_freq sample_rate = Undefined.
Proof.
  intros Ha. unfold highPassFilter, GetArrayLength, GetFloatArrayElements.
  rewrite Ha. cbn [bind array_length no_faults input_elements_null
    new_array_null output_elements_null].
  rewrite NewFloatArray_ok by (simpl; lia). cbn [bind].
  rewrite lookup_insert_eq. done.
Qed.

(** C2. On a buffer of length N >= 1 the filter returns a newly allocated
    buffer of length N with [filtered[0] = input[0]] and, for every
    [i >= 1], [filtered[i] = alpha * (filtered[i-1] + input[i] - input[i-1])],
    where [alpha = rc / (rc + dt)], [dt = 1/fs], [rc = 1/(2 pi fc)]. *)
Theorem highPassFilter_recurrence (h : heap) (audio_data : jref)
  (audio : list spec_float) (cutoff_freq : spec_float) (sample_rate : Z) :
  h !! audio_data = Some (FloatArray audio) ->
  (1 <= length audio)%nat ->
  let dt := F32.div (F32.of_int 1) (F32.of_int sample_rate) in
  let rc := F32.of_double
              (F64.div (F64.of_float (F32.of_int 1))
                 (F64.mul (F64.mul (F64.of_float (F32.of_int 2)) M_PI)
                          (F64.of_float cutoff_freq))) in
  let alpha := F32.div rc (F32.add rc dt) in
  exists filtered,
    highPassFilter no_faults h audio_data cutoff_freq sample_rate
    = Val (<[fresh (dom h) := FloatArray filtered]> h, Some (fresh (dom h)))
    /\ length filtered = length audio
    /\ filtered !! 0%nat = audio !! 0%nat
    /\ forall i, (1 <= i < length audio)%nat ->
         exists fprev a aprev,
           filtered !! (i - 1)%nat = Some fprev
           /\ audio !! i = Some a
           /\ audio !! (i - 1)%nat = Some aprev
           /\ filtered !! i = Some (F32.mul alpha (F32.sub (F32.add fprev a) aprev)).
Proof.
  intros Ha Hn. apply highPassFilter_run; [done|].
  destruct audio; [simpl in Hn; lia|done].
Qed.

Lemma highPassFilter_recurrence_witness :
  exists filtered,
    highPassFilter no_faults {[ 1%positive := FloatArray [F32_one; F32_one] ]}
      1%positive (F32.of_int 100) 16000
    = Val (<[fresh (dom ({[ 1%positive := FloatArray [F32_one; F32_one] ]} : heap))
             := FloatArray filtered]> {[ 1%positive := FloatArray [F32_one; F32_one] ]},
           Some (fresh (dom ({[ 1%positive := FloatArray [F32_one; F32_one] ]} : heap))))
    /\ length filtered = 2%nat.
Proof.
  destruct (highPassFilter_recurrence {[ 1%positive := FloatArray [F32_one; F32_one] ]}
              1%positive [F32_one; F32_one] (F32.of_int 100) 16000)
    as (filtered & Hrun & Hlen & _).
  - reflexivity.
  - simpl. lia.
  - exists filtered. split; [exact Hrun|exact Hlen].
Defined.

(** C10. The filter copies [audio[0]] into [filtered[0]] before its loop,
    whatever the length: all its buffer accesses are in bounds exactly when
    the input holds at least one sample, and on an empty input the access to
    index 0 is out of bounds. *)
Theorem highPassFilter_in_bounds_iff (h : heap) (audio_data : jref)
  (audio : list spec_float) (cutoff_freq : spec_float) (sample_rate : Z) :
  h !! audio_data = Some (FloatArray audio) ->
  (defined (highPassFilter no_faults h audio_data cutoff_freq sample_rate)
   <-> (1 <= length audio)%nat)
  /\ (audio = [] ->
      load audio 0 = Undefined
      /\ highPassFilter no_faults h audio_data cutoff_freq sample_rate = Undefined).
Proof.
  intros Ha. split.
  - destruct audio as [|x0 rest].
    + rewrite (highPassFilter_empty h audio_data _ _ Ha). simpl. split; [done|lia].
    + destruct (highPassFilter_run h audio_data (x0 :: rest) cutoff_freq sample_rate)
        as (out & -> & _); [done|done|]. simpl. split; [lia|done].
  - intros ->. split; [done|]. by apply highPassFilter_empty.
Qed.

Lemma highPassFilter_in_bounds_iff_witness :
  highPassFilter no_faults {[ 1%positive := FloatArray [] ]} 1%positive
    (F32.of_int 100) 16000 = Undefined.
Proof.
  destruct (highPassFilter_in_bounds_iff {[ 1%positive := FloatArray [] ]} 1%positive
              [] (F32.of_int 100) 16000) as [_ Hempty].
  - reflexivity.
  - apply Hempty. reflexivity.
Defined.

(** C9 fails as stated.  On [1,1,1,1] at 100 Hz / 16000 Hz the third output
    sample is not [alpha] times the second (the sum [filtered[1] + 1] is
    rounded before 1 is subtracted again), and on a buffer of 600 ones the
    output stops decaying: the last two samples are the same non-zero
    number. *)
Lemma highPassFilter_constant_not_geometric :
  let alpha := hpf_alpha F32_100 16000 in
  let short := result_array
                 (highPassFilter no_faults (single (replicate 4 F32_one)) 1%positive
                    F32_100 16000) in
  let long := result_array
                (highPassFilter no_faults (single (replicate 600 F32_one)) 1%positive
                   F32_100 16000) in
  short !! 1%nat = Some (S754_finite false 16143271 (-24))
  /\ short !! 2%nat = Some (S754_finite false 15533281 (-24))
  /\ F32.mul alpha (S754_finite false 16143271 (-24)) = S754_finite false 15533280 (-24)
  /\ long !! 598%nat = Some (S754_finite false 13116408 (-43))
  /\ long !! 599%nat = Some (S754_finite false 13116408 (-43))
  /\ F32.mul alpha (S754_finite false 13116408 (-43)) <> S754_finite false 13116408 (-43).
Proof. vm_compute. repeat split; discriminate. Qed.

(** C9, amended. On a constant buffer (every sample [c]) of length N >= 1,
    [filtered[0] = c] and for every [i >= 1]
    [filtered[i] = alpha * ((filtered[i-1] + c) - c)] in single precision;
    this is [alpha * filtered[i-1]] whenever adding and subtracting [c]
    gives [filtered[i-1]] back exactly.  For cutoff 100 Hz at 16000 Hz,
    [alpha] is 16143271 / 2^24, between 0.9622 and 0.9623, and the first
    output sample of [1,1,1,1] is 1.0. *)
Theorem highPassFilter_constant (h : heap) (audio_data : jref) (c : spec_float)
  (n : nat) (cutoff_freq : spec_float) (sample_rate : Z) :
  h !! audio_data = Some (FloatArray (replicate n c)) ->
  (1 <= n)%nat ->
  let alpha := hpf_alpha cutoff_freq sample_rate in
  (exists filtered,
    highPassFilter no_faults h audio_data cutoff_freq sample_rate
    = Val (<[fresh (dom h) := FloatArray filtered]> h, Some (fresh (dom h)))
    /\ length filtered = n
    /\ filtered !! 0%nat = Some c
    /\ forall i, (1 <= i < n)%nat ->
         exists fprev,
           filtered !! (i - 1)%nat = Some fprev
           /\ filtered !! i = Some (F32.mul alpha (F32.sub (F32.add fprev c) c))
           /\ (F32.sub (F32.add fprev c) c = fprev ->
               filtered !! i = Some (F32.mul alpha fprev)))
  /\ hpf_alpha F32_100 16000 = S754_finite false 16143271 (-24)
  /\ 9622 * 2 ^ 24 < 16143271 * 10000 < 9623 * 2 ^ 24
  /\ result_array (highPassFilter no_faults (single (replicate 4 F32_one)) 1%positive
                     F32_100 16000) !! 0%nat = Some F32_one.
Proof.
  intros Ha Hn alpha. split; [|split; [by vm_compute|split; [lia|by vm_compute]]].
  destruct (highPassFilter_run h audio_data (replicate n c) cutoff_freq sample_rate)
    as (filtered & Hrun & Hlen & H0 & Hrec); [done|by destruct n; [lia|]|].
  rewrite length_replicate in Hlen, Hrec.
  exists filtered. split; [done|]. split; [done|].
  split; [by rewrite H0, lookup_replicate_2 by lia|].
  intros i Hi. destruct (Hrec i Hi) as (fprev & a & aprev & Hf & Hx & Hp & Hout).
  apply lookup_replicate_1 in Hx as [-> _]. apply lookup_replicate_1 in Hp as [-> _].
  exists fprev. split; [done|]. split; [done|].
  intros Hexact. by rewrite Hout, Hexact.
Qed.

Lemma highPassFilter_constant_witness :
  exists filtered,
    highPassFilter no_faults (single (replicate 4 F32_one)) 1%positive F32_100 16000
    = Val (<[fresh (dom (single (replicate 4 F32_one))) := FloatArray filtered]>
             (single (replicate 4 F32_one)),
           Some (fresh (dom (single (replicate 4 F32_one)))))
    /\ filtered !! 0%nat = Some F32_one.
Proof.
  destruct (highPassFilter_constant (single (replicate 4 F32_one)) 1%positive F32_one 4
              F32_100 16000) as [(filtered & Hrun & _ & H0 & _) _].
  - reflexivity.
  - lia.
  - exists filtered. split; [exact Hrun|exact H0].
Defined.

(** ** Resampler: equal rates *)

(** C6. With equal source and target rates the resampler returns the very
    array reference it was given, and the heap as it was: no copy is made,
    whatever the buffer and the rate. *)
Theorem resampleAudio_same_rate (env : JNIEnv) (h : heap) (audio_data : jref) (r : Z) :
  resampleAudio env h audio_data r r = Val (h, Some audio_data).
Proof. unfold resampleAudio. by rewrite Z.eqb_refl. Qed.

(** ** Normalizer *)

Lemma binary_round_aux_abs (prec emax : Z) (s s' : bool) (m e : Z) (l : location) :
  SFabs (binary_round_aux prec emax s m e l)
  = SFabs (binary_round_aux prec emax s' m e l).
Proof.
  unfold binary_round_aux.
  destruct (shr_fexp prec emax m e l) as [mrs' e'].
  destruct (shr_fexp prec emax _ e' loc_Exact) as [mrs'' e''].
  destruct (shr_m mrs''); [done| |done].
  by destruct (e'' <=? emax - prec).
Qed.

(** The magnitude of a product depends on the magnitude of the factor
    only. *)
Lemma F32_abs_mul (x y : spec_float) :
  F32.abs (F32.mul x y) = F32.abs (F32.mul (F32.abs x) y).
Proof.
  destruct x as [sx|sx| |sx mx ex], y as [sy|sy| |sy my ey]; try reflexivity.
  apply binary_round_aux_abs.
Qed.

(** The scan ends on 0 or on the magnitude of one of the samples. *)
Lemma peak_attained (audio : list spec_float) :
  F32.eqb (peak audio) F32.zero = false ->
  exists j x, audio !! j = Some x /\ F32.abs x = peak audio.
Proof.
  unfold peak.
  enough (forall l acc,
    acc = F32.zero \/ (exists j x, audio !! j = Some x /\ F32.abs x = acc) ->
    (forall j x, l !! j = Some x -> exists j', audio !! j' = Some x) ->
    let r := fold_left
      (fun max_val x => if F32.ltb max_val (F32.abs x) then F32.abs x else max_val) l acc in
    r = F32.zero \/ (exists j x, audio !! j = Some x /\ F32.abs x = r)) as H.
  { intros Hnz. destruct (H audio F32.zero) as [Hz|Hj]; [by left|by eauto| |done].
    rewrite Hz in Hnz. done. }
  induction l as [|x l IH]; intros acc Hacc Hsub; [done|].
  simpl. apply IH.
  - destruct (F32.ltb acc (F32.abs x)); [|done].
    right. destruct (Hsub 0%nat x) as [j' Hj']; [done|]. by exists j', x.
  - intros j y Hy. apply (Hsub (Datatypes.S j) y). done.
Qed.

Lemma normalizeAudio_scan (env : JNIEnv) (h : heap) (audio_data : jref)
  (audio : list spec_float) (target_level : spec_float) :
  h !! audio_data = Some (FloatArray audio) ->
  input_elements_null env = false ->
  normalizeAudio env h audio_data target_level
  = if F32.eqb (peak audio) F32.zero then Val (h, Some audio_data)
    else
      do ' (h1, normalized_array) <-
         NewFloatArray (new_array_null env) h (Z.of_nat (length audio)) ;;
      match normalized_array with
      | None => Val (h1, None)
      | Some normalized_array =>
        do normalized <-
          GetFloatArrayElements (output_elements_null env) h1 normalized_array ;;
        match normalized with
        | None => Val (h1, None)
        | Some normalized =>
          do normalized <-
            for_range 0 (Z.of_nat (length audio))
              (fun i normalized =>
                 do x <- load audio i ;;
                 store normalized i (F32.mul x (normalize_scale target_level audio)))
              normalized ;;
          Val (<[normalized_array := FloatArray normalized]> h1, Some normalized_array)
        end
      end.
Proof.
  intros Ha Henv. unfold normalizeAudio, GetArrayLength.
  unfold GetFloatArrayElements at 1.
  rewrite Ha, Henv. cbn [bind array_length]. unfold peak_step.
  rewrite (fold_loop
    (fun max_val x => if F32.ltb max_val (F32.abs x) then F32.abs x else max_val)).
  cbn [bind]. fold (peak audio). reflexivity.
Qed.

Lemma normalizeAudio_scaled (h : heap) (audio_data : jref)
  (audio : list spec_float) (target_level : spec_float) :
  h !! audio_data = Some (FloatArray audio) ->
  F32.eqb (peak audio) F32.zero = false ->
  normalizeAudio no_faults h audio_data target_level
  = Val (<[fresh (dom h) :=
             FloatArray (map (fun x => F32.mul x (normalize_scale target_level audio))
                             audio)]> h,
         Some (fresh (dom h))).
Proof.
  intros Ha Hnz. rewrite (normalizeAudio_scan _ _ _ audio) by done.
  rewrite Hnz. cbn [no_faults new_array_null output_elements_null].
  rewrite NewFloatArray_ok by lia. cbn [bind].
  unfold GetFloatArrayElements. rewrite lookup_insert_eq. cbn [bind].
  rewrite Nat2Z.id.
  destruct (fill_loop
    (fun i normalized =>
       do x <- load audio i ;;
       store normalized i (F32.mul x (normalize_scale target_level audio)))
    (fun i => F32.mul (nth (Z.to_nat i) audio F32.zero)
                      (normalize_scale target_level audio))
    (length audio) (replicate (length audio) F32.zero)) as (out & Hrun & Hlen & Hout).
  - apply length_replicate.
  - intros i b Hi Hb. by rewrite (load_nth F32.zero) by lia.
  - rewrite Hrun. cbn [bind]. rewrite insert_insert_eq.
    rewrite (filled_is_map F32.zero
               (fun x => F32.mul x (normalize_scale target_level audio)) audio out);
      [done|done|].
    intros i Hi. rewrite Hout by done. by rewrite Nat2Z.id.
Qed.

(** C3 fails as stated.  The buffer holding the single sample 2^-149 is not
    silent, and for target level 1.0 the scale [1.0f / 2^-149] overflows:
    the output is [+infinity], its peak is infinite, not 1.0. *)
Lemma normalizeAudio_peak_not_target :
  F32.eqb (peak [F32_min_subnormal]) F32.zero = false
  /\ normalize_scale F32_one [F32_min_subnormal] = S754_infinity false
  /\ result_array (normalizeAudio no_faults (single [F32_min_subnormal]) 1%positive F32_one)
     = [S754_infinity false]
  /\ peak [S754_infinity false] = S754_infinity false
  /\ peak [S754_infinity false] <> F32_one.
Proof. vm_compute. repeat split; discriminate. Qed.

(** ** Resampler: different rates *)

Lemma binary_round_aux_nonneg (prec emax : Z) (m e : Z) (l : location) :
  nonneg (binary_round_aux prec emax false m e l).
Proof.
  unfold binary_round_aux.
  destruct (shr_fexp prec emax m e l) as [mrs' e'].
  destruct (shr_fexp prec emax _ e' loc_Exact) as [mrs'' e''].
  destruct (shr_m mrs''); [done| |done].
  by destruct (e'' <=? emax - prec).
Qed.

Lemma F64_of_int_nonneg (n : Z) : 0 <= n -> nonneg (F64.of_int n).
Proof.
  intros Hn. destruct n as [|p|p]; [done| |lia].
  unfold F64.of_int, binary_normalize, binary_round.
  destruct (shl_align p 0 _) as [mz ez]. apply binary_round_aux_nonneg.
Qed.

Lemma F64_div_nonneg (x y : spec_float) : nonneg x -> nonneg y -> nonneg (F64.div x y).
Proof.
  destruct x as [sx|sx| |sx mx ex], y as [sy|sy| |sy my ey]; simpl; try done;
    try (by intros -> ->); try (by intros ->); try (by intros _ ->).
  intros -> ->. unfold F64.div, SFdiv.
  destruct (SFdiv_core_binary _ _ _ _ _ _) as [[mz ez] lz].
  apply binary_round_aux_nonneg.
Qed.

Lemma F64_mul_nonneg (x y : spec_float) : nonneg x -> nonneg y -> nonneg (F64.mul x y).
Proof.
  destruct x as [sx|sx| |sx mx ex], y as [sy|sy| |sy my ey]; simpl; try done;
    try (by intros -> ->); try (by intros ->); try (by intros _ ->).
  intros -> ->. apply binary_round_aux_nonneg.
Qed.

Lemma to_jsize_nonneg (x : spec_float) (z : Z) :
  nonneg x -> to_jsize x = Val z -> 0 <= z.
Proof.
  unfold to_jsize. destruct x as [s|s| |s m e]; simpl; try done.
  - intros _ [= <-]. done.
  - intros ->. simpl.
    destruct (andb _ _); [|done]. intros [= <-].
    destruct (Z.leb_spec 0 e).
    + apply Z.mul_nonneg_nonneg; [lia|]. apply Z.pow_nonneg. lia.
    + apply Z.div_pos; [lia|]. apply Z.pow_pos_nonneg; lia.
Qed.

Lemma resample_ratio_nonneg (source_rate target_rate : Z) :
  0 < source_rate -> 0 < target_rate -> nonneg (resample_ratio source_rate target_rate).
Proof. intros Hs Ht. apply F64_div_nonneg; apply F64_of_int_nonneg; lia. Qed.

(** An empty source gives an empty target. *)
Lemma target_length_of_empty (ratio : spec_float) (len : Z) :
  to_jsize (F64.mul (F64.of_int 0) ratio) = Val len -> len = 0.
Proof.
  destruct ratio as [s|s| |s m e]; simpl; try done; by intros [= <-].
Qed.

(** One pass of the interpolation body, for a source position that fits a
    [jsize]. *)
Lemma resample_sample_value (source_audio : list spec_float) (ratio : spec_float)
  (i index : Z) :
  (1 <= length source_audio)%nat ->
  to_jsize (source_position ratio i) = Val index ->
  0 <= index ->
  let N := Z.of_nat (length source_audio) in
  let fraction := F64.sub (source_position ratio i) (F64.of_int index) in
  exists v,
    resample_sample source_audio N ratio i = Val v
    /\ (N - 1 <= index -> source_audio !! Z.to_nat (N - 1) = Some v)
    /\ (index < N - 1 ->
        exists x0 x1,
          source_audio !! Z.to_nat index = Some x0
          /\ source_audio !! Z.to_nat (index + 1) = Some x1
          /\ v = interpolate x0 x1 fraction).
Proof.
  intros Hn Hidx Hpos N fraction. unfold resample_sample.
  fold (source_position ratio i). rewrite Hidx. cbn [bind].
  destruct (Z.leb_spec (N - 1) index) as [Hclamp|Hinner].
  - destruct (lookup_lt_is_Some_2 source_audio (Z.to_nat (N - 1))) as [v Hv];
      [unfold N; lia|].
    exists v. split; [|split; [done|lia]].
    replace (N - 1) with (Z.of_nat (Z.to_nat (N - 1))) at 1 by (unfold N; lia).
    by apply load_lookup.
  - destruct (lookup_lt_is_Some_2 source_audio (Z.to_nat index)) as [x0 H0];
      [unfold N in Hinner; lia|].
    destruct (lookup_lt_is_Some_2 source_audio (Z.to_nat (index + 1))) as [x1 H1];
      [unfold N in Hinner; lia|].
    exists (interpolate x0 x1 fraction). split; [|split; [lia|]].
    + replace index with (Z.of_nat (Z.to_nat index)) at 1 by lia.
      rewrite (load_lookup _ _ _ H0). cbn [bind].
      replace (index + 1) with (Z.of_nat (Z.to_nat (index + 1))) at 1 by lia.
      rewrite (load_lookup _ _ _ H1). done.
    + intros _. by exists x0, x1.
Qed.

Lemma resampleAudio_run (h : heap) (audio_data : jref) (audio : list spec_float)
  (source_rate target_rate len : Z) :
  h !! audio_data = Some (FloatArray audio) ->
  source_rate <> target_rate ->
  0 < source_rate -> 0 < target_rate ->
  let N := Z.of_nat (length audio) in
  let ratio := resample_ratio source_rate target_rate in
  to_jsize (F64.mul (F64.of_int N) ratio) = Val len ->
  (forall i, 0 <= i < len -> defined (to_jsize (source_position ratio i))) ->
  0 <= len
  /\ exists out,
      resampleAudio no_faults h audio_data source_rate target_rate
      = Val (<[fresh (dom h) := FloatArray out]> h, Some (fresh (dom h)))
      /\ Z.of_nat (length out) = len
      /\ forall i, 0 <= i < len ->
           exists v, resample_sample audio N ratio i = Val v
                     /\ out !! Z.to_nat i = Some v.
Proof.
  intros Ha Hne Hs Ht N ratio Hlen Hidx.
  assert (nonneg ratio) as Hratio by (by apply resample_ratio_nonneg).
  assert (0 <= len) as Hlen0.
  { apply (to_jsize_nonneg _ _ (F64_mul_nonneg _ _
             (F64_of_int_nonneg N ltac:(lia)) Hratio) Hlen). }
  split; [done|].
  assert (forall i, 0 <= i < len ->
            exists v, resample_sample audio N ratio i = Val v) as Hbody.
  { intros i Hi.
    assert (1 <= length audio)%nat as Hn.
    { destruct audio; [|simpl; lia].
      apply target_length_of_empty in Hlen. lia. }
    specialize (Hidx i Hi).
    destruct (to_jsize (source_position ratio i)) as [index|] eqn:Hindex; [|done].
    assert (0 <= index) as Hpos.
    { apply (to_jsize_nonneg _ _ (F64_div_nonneg _ _
               (F64_of_int_nonneg i ltac:(lia)) Hratio) Hindex). }
    destruct (resample_sample_value audio ratio i index Hn Hindex Hpos)
      as (v & Hv & _). by exists v. }
  unfold resampleAudio.
  destruct (Z.eqb_spec source_rate target_rate) as [|_]; [done|].
  unfold GetArrayLength, GetFloatArrayElements at 1.
  rewrite Ha. cbn [bind array_length no_faults input_elements_null
    new_array_null output_elements_null].
  fold N. fold (resample_ratio source_rate target_rate). fold ratio.
  rewrite Hlen. cbn [bind].
  rewrite NewFloatArray_ok by done. cbn [bind].
  unfold GetFloatArrayElements. rewrite lookup_insert_eq. cbn [bind].
  destruct (fill_loop
    (fun i target_audio =>
       do v <- resample_sample audio N ratio i ;; store target_audio i v)
    (fun i => match resample_sample audio N ratio i with
              | Val v => v
              | Undefined => F32.zero
              end)
    (Z.to_nat len) (replicate (Z.to_nat len) F32.zero)) as (out & Hrun & Hl & Hout).
  - apply length_replicate.
  - intros i b Hi Hb. destruct (Hbody i) as [v ->]; [lia|]. done.
  - rewrite Z2Nat.id in Hrun by done.
    exists out. rewrite Hrun.
    cbn [bind ReleaseFloatArrayElements]. rewrite insert_insert_eq.
    split; [done|]. split; [lia|].
    intros i Hi. destruct (Hbody i Hi) as [v Hv]. exists v. split; [done|].
    rewrite Hout by lia. rewrite Z2Nat.id by lia. by rewrite Hv.
Qed.

(** C1 fails as stated.  49 samples taken from 49 Hz to 1 Hz give
    [floor(49 * 1 / 49) = 1], but the double nearest to 1/49, times 49,
    rounds to the double just below 1 (49 * 5882252574524729 is
    2^58 - 23, nearer to 2^58 - 32 than to 2^58), and the resampler
    allocates an array of length 0. *)
Lemma resampleAudio_length_not_floor :
  resample_ratio 49 1 = S754_finite false 5882252574524729 (-58)
  /\ F64.mul (F64.of_int 49) (resample_ratio 49 1)
     = S754_finite false 9007199254740991 (-53)
  /\ to_jsize (F64.mul (F64.of_int 49) (resample_ratio 49 1)) = Val 0
  /\ resampleAudio no_faults (single (replicate 49 F32_one)) 1%positive 49 1
     = Val (<[2%positive := FloatArray []]> (single (replicate 49 F32_one)),
            Some 2%positive)
  /\ 49 * 1 / 49 = 1.
Proof. vm_compute. repeat split. Qed.

(** Why the amended statement asks that the target length fit a [jsize]:
    for 2^30 source samples taken from 1 Hz to 8 Hz the product is 2^33,
    which no [jsize] holds, and the conversion has no defined result. *)
Lemma resampleAudio_length_overflow (h : heap) (audio_data : jref)
  (audio : list spec_float) :
  h !! audio_data = Some (FloatArray audio) ->
  Z.of_nat (length audio) = 2 ^ 30 ->
  resampleAudio no_faults h audio_data 1 8 = Undefined.
Proof.
  intros Ha Hlen. unfold resampleAudio, GetArrayLength, GetFloatArrayElements.
  rewrite Ha. cbn [Z.eqb bind array_length no_faults input_elements_null].
  rewrite Hlen. reflexivity.
Qed.

(** C1, amended. For rates that differ (both positive) the resampler
    returns a newly allocated buffer whose length is the integral part of
    the double-precision product [N * ratio], [ratio] the double-precision
    quotient [target_rate / source_rate], provided that product and every
    source position [i / ratio] fit a [jsize].  Output sample [i], with
    [index] the integral part of [i / ratio] and
    [fraction = i / ratio - index], is [input[N-1]] if [index >= N - 1] and
    otherwise [input[index] * (1 - fraction) + input[index+1] * fraction],
    evaluated in double precision and narrowed to a float.  Every access to
    the source buffer is in bounds.  From 8000 Hz to 16000 Hz, [0.0, 1.0]
    becomes [0.0, 0.5, 1.0, 1.0]. *)
Theorem resampleAudio_interpolates (h : heap) (audio_data : jref)
  (audio : list spec_float) (source_rate target_rate len : Z) :
  h !! audio_data = Some (FloatArray audio) ->
  source_rate <> target_rate ->
  0 < source_rate -> 0 < target_rate ->
  let N := Z.of_nat (length audio) in
  let ratio := F64.div (F64.of_int target_rate) (F64.of_int source_rate) in
  to_jsize (F64.mul (F64.of_int N) ratio) = Val len ->
  (forall i, 0 <= i < len -> defined (to_jsize (F64.div (F64.of_int i) ratio))) ->
  (exists out,
     resampleAudio no_faults h audio_data source_rate target_rate
     = Val (<[fresh (dom h) := FloatArray out]> h, Some (fresh (dom h)))
     /\ Z.of_nat (length out) = len
     /\ forall i, 0 <= i < len ->
          let source_index := F64.div (F64.of_int i) ratio in
          exists index v,
            to_jsize source_index = Val index
            /\ 0 <= index
            /\ out !! Z.to_nat i = Some v
            /\ (N - 1 <= index -> audio !! Z.to_nat (N - 1) = Some v)
            /\ (index < N - 1 ->
                exists x0 x1,
                  audio !! Z.to_nat index = Some x0
                  /\ audio !! Z.to_nat (index + 1) = Some x1
                  /\ v = interpolate x0 x1 (F64.sub source_index (F64.of_int index))))
  /\ result_array (resampleAudio no_faults (single [F32.zero; F32_one]) 1%positive
                     8000 16000)
     = [F32.zero; F32_half; F32_one; F32_one].
Proof.
  intros Ha Hne Hs Ht N ratio Hlen Hidx. split; [|by vm_compute].
  destruct (resampleAudio_run h audio_data audio source_rate target_rate len
              Ha Hne Hs Ht Hlen Hidx) as (Hlen0 & out & Hrun & Hl & Hout).
  exists out. split; [done|]. split; [done|].
  intros i Hi source_index.
  assert (nonneg ratio) as Hratio by (by apply resample_ratio_nonneg).
  assert (1 <= length audio)%nat as Hn.
  { destruct audio; [|simpl; lia]. apply target_length_of_empty in Hlen. lia. }
  specialize (Hidx i Hi).
  destruct (to_jsize (F64.div (F64.of_int i) ratio)) as [index|] eqn:Hindex; [|done].
  assert (0 <= index) as Hpos.
  { apply (to_jsize_nonneg _ _ (F64_div_nonneg _ _
             (F64_of_int_nonneg i ltac:(lia)) Hratio) Hindex). }
  destruct (resample_sample_value audio ratio i index Hn Hindex Hpos)
    as (v & Hv & Hclamp & Hinner).
  destruct (Hout i Hi) as (v' & Hv' & Hget).
  assert (Val v' = Val v) as [= ->] by exact (eq_trans (eq_sym Hv') Hv).
  exists index, v. unfold source_index. rewrite Hindex. done.
Qed.

Lemma resampleAudio_interpolates_witness :
  exists out,
    resampleAudio no_faults (single [F32.zero; F32_one]) 1%positive 8000 16000
    = Val (<[fresh (dom (single [F32.zero; F32_one])) := FloatArray out]>
             (single [F32.zero; F32_one]),
           Some (fresh (dom (single [F32.zero; F32_one]))))
    /\ Z.of_nat (length out) = 4.
Proof.
  destruct (resampleAudio_interpolates (single [F32.zero; F32_one]) 1%positive
              [F32.zero; F32_one] 8000 16000 4) as [(out & Hrun & Hlen & _) _].
  - reflexivity.
  - lia.
  - lia.
  - lia.
  - reflexivity.
  - intros i Hi.
    assert (i = 0 \/ i = 1 \/ i = 2 \/ i = 3) as Hcases by lia.
    destruct Hcases as [Hi0|[Hi1|[Hi2|Hi3]]]; subst i; vm_compute; exact I.
  - exists out. split; [exact Hrun|exact Hlen].
Defined.

(** ** Failures of the JNI calls *)

Lemma alloc_preserves (h : heap) (arr : jarray) : h ⊆ <[fresh (dom h) := arr]> h.
Proof. apply insert_subseteq, fresh_unused. Qed.

(** The steps shared by the failure paths: read the argument array,
    allocate, look the new array up. *)
Ltac run_to_failure Ha :=
  rewrite ?Ha;
  cbn [bind array_length input_elements_null new_array_null output_elements_null];
  rewrite ?NewFloatArray_ok by lia;
  cbn [bind NewFloatArray];
  rewrite ?lookup_insert_eq;
  cbn [bind ReleaseShortArrayElements ReleaseFloatArrayElements];
  first [ by eexists | eexists; split; [reflexivity|apply alloc_preserves] ].

Lemma pcm16ToFloat_failure (env : JNIEnv) (h : heap) (pcm_data : jref) (pcm : list Z) :
  any_fault env = true ->
  h !! pcm_data = Some (ShortArray pcm) ->
  exists h', pcm16ToFloat env h pcm_data = Val (h', None) /\ h ⊆ h'.
Proof.
  intros Hf Ha. unfold pcm16ToFloat, GetArrayLength, GetShortArrayElements,
    GetFloatArrayElements.
  destruct env as [[] [] []]; try discriminate Hf; run_to_failure Ha.
Qed.

Lemma highPassFilter_failure (env : JNIEnv) (h : heap) (audio_data : jref)
  (audio : list spec_float) (cutoff_freq : spec_float) (sample_rate : Z) :
  any_fault env = true ->
  h !! audio_data = Some (FloatArray audio) ->
  exists h',
    highPassFilter env h audio_data cutoff_freq sample_rate = Val (h', None) /\ h ⊆ h'.
Proof.
  intros Hf Ha. unfold highPassFilter, GetArrayLength, GetFloatArrayElements.
  destruct env as [[] [] []]; try discriminate Hf; run_to_failure Ha.
Qed.

Lemma normalizeAudio_failure (env : JNIEnv) (h : heap) (audio_data : jref)
  (audio : list spec_float) (target_level : spec_float) :
  any_fault env = true ->
  h !! audio_data = Some (FloatArray audio) ->
  input_elements_null env = true \/ F32.eqb (peak audio) F32.zero = false ->
  exists h', normalizeAudio env h audio_data target_level = Val (h', None) /\ h ⊆ h'.
Proof.
  intros Hf Ha Hreach.
  destruct (input_elements_null env) eqn:Hin.
  - unfold normalizeAudio, GetArrayLength, GetFloatArrayElements.
    rewrite Ha, Hin. by eexists.
  - destruct Hreach as [|Hnz]; [done|].
    rewrite (normalizeAudio_scan env h audio_data audio) by done. rewrite Hnz.
    unfold GetFloatArrayElements.
    destruct env as [i [] []]; simpl in Hin; subst i; try discriminate Hf;
      run_to_failure Ha.
Qed.

Lemma resampleAudio_failure (env : JNIEnv) (h : heap) (audio_data : jref)
  (audio : list spec_float) (source_rate target_rate : Z) :
  any_fault env = true ->
  h !! audio_data = Some (FloatArray audio) ->
  source_rate <> target_rate ->
  input_elements_null env = true
  \/ (0 < source_rate /\ 0 < target_rate
      /\ defined (to_jsize (F64.mul (F64.of_int (Z.of_nat (length audio)))
                                    (resample_ratio source_rate target_rate)))) ->
  exists h',
    resampleAudio env h audio_data source_rate target_rate = Val (h', None) /\ h ⊆ h'.
Proof.
  intros Hf Ha Hne Hreach. unfold resampleAudio.
  destruct (Z.eqb_spec source_rate target_rate) as [|_]; [done|].
  unfold GetArrayLength. unfold GetFloatArrayElements at 1. rewrite Ha.
  cbn [bind array_length].
  destruct (input_elements_null env) eqn:Hin; [by eexists|].
  destruct Hreach as [|(Hs & Ht & Hdef)]; [done|].
  fold (resample_ratio source_rate target_rate).
  destruct (to_jsize _) as [len|] eqn:Hlen; [|done].
  assert (0 <= len) as Hlen0.
  { apply (to_jsize_nonneg _ _ (F64_mul_nonneg _ _
             (F64_of_int_nonneg (Z.of_nat (length audio)) ltac:(lia))
             (resample_ratio_nonneg _ _ Hs Ht)) Hlen). }
  unfold GetFloatArrayElements.
  destruct env as [i [] []]; simpl in Hin; subst i; try discriminate Hf;
    run_to_failure Ha.
Qed.

Lemma calculateRMS_failure (env : JNIEnv) (h : heap) (audio_data : jref)
  (audio : list spec_float) :
  input_elements_null env = true ->
  h !! audio_data = Some (FloatArray audio) ->
  calculateRMS env h audio_data = Val F32.zero.
Proof.
  intros Hin Ha. unfold calculateRMS, GetArrayLength, GetFloatArrayElements.
  by rewrite Ha, Hin.
Qed.

(** C7. Whenever one of the JNI calls of an operation comes back with
    [nullptr] (the element access to the argument, the allocation of the
    result, the element access to the result), the operation returns
    normally: the four array operations return the null reference, the
    energy meter returns 0.0; every array that was on the heap is still
    there with the same contents, and no reference to a new array is handed
    out.  For the normalizer the allocation is only reached on a non-silent
    buffer, for the resampler on rates that differ and a target length that
    fits a [jsize]. *)
Theorem failure_returns_null (env : JNIEnv) (h : heap) (a : jref) :
  any_fault env = true ->
  (forall pcm, h !! a = Some (ShortArray pcm) ->
     exists h', pcm16ToFloat env h a = Val (h', None) /\ h ⊆ h' /\ h' !! a = h !! a)
  /\ (forall audio, h !! a = Some (FloatArray audio) ->
      (forall cutoff_freq sample_rate,
         exists h', highPassFilter env h a cutoff_freq sample_rate = Val (h', None)
                    /\ h ⊆ h' /\ h' !! a = h !! a)
      /\ (forall target_level,
            input_elements_null env = true \/ F32.eqb (peak audio) F32.zero = false ->
            exists h', normalizeAudio env h a target_level = Val (h', None)
                       /\ h ⊆ h' /\ h' !! a = h !! a)
      /\ (forall source_rate target_rate,
            source_rate <> target_rate ->
            input_elements_null env = true
            \/ (0 < source_rate /\ 0 < target_rate
                /\ defined (to_jsize (F64.mul (F64.of_int (Z.of_nat (length audio)))
                                        (resample_ratio source_rate target_rate)))) ->
            exists h', resampleAudio env h a source_rate target_rate = Val (h', None)
                       /\ h ⊆ h' /\ h' !! a = h !! a)
      /\ (input_elements_null env = true -> calculateRMS env h a = Val F32.zero)).
Proof.
  intros Hf.
  assert (forall (h' : heap) arr, h !! a = Some arr -> h ⊆ h' -> h' !! a = h !! a) as Hkeep.
  { intros h' arr Ha Hsub. rewrite Ha. by apply (lookup_weaken h h'). }
  split.
  - intros pcm Ha. destruct (pcm16ToFloat_failure env h a pcm Hf Ha) as (h' & Hr & Hs).
    exists h'. eauto.
  - intros audio Ha. split; [|split; [|split]].
    + intros fc fs.
      destruct (highPassFilter_failure env h a audio fc fs Hf Ha) as (h' & Hr & Hs).
      exists h'. eauto.
    + intros L Hreach.
      destruct (normalizeAudio_failure env h a audio L Hf Ha Hreach) as (h' & Hr & Hs).
      exists h'. eauto.
    + intros s t Hne Hreach.
      destruct (resampleAudio_failure env h a audio s t Hf Ha Hne Hreach)
        as (h' & Hr & Hs).
      exists h'. eauto.
    + intros Hin. by apply (calculateRMS_failure env h a audio).
Qed.

Lemma failure_returns_null_witness :
  exists h',
    highPassFilter
      {| input_elements_null := false; new_array_null := false;
         output_elements_null := true |}
      (single [F32_one; F32_one]) 1%positive F32_100 16000 = Val (h', None)
    /\ h' !! 1%positive = Some (FloatArray [F32_one; F32_one]).
Proof.
  destruct (failure_returns_null
              {| input_elements_null := false; new_array_null := false;
                 output_elements_null := true |}
              (single [F32_one; F32_one]) 1%positive) as [_ Hfloat].
  - reflexivity.
  - destruct (Hfloat [F32_one; F32_one]) as (Hhpf & _).
    + reflexivity.
    + destruct (Hhpf F32_100 16000) as (h' & Hrun & _ & Hkeep).
      exists h'. split; [exact Hrun|exact Hkeep].
Defined.

(** * Further properties of the five operations *)

(** ** PCM decoder: range and losslessness *)

Lemma check_from_spec (P : Z -> bool) (n : nat) (x : Z) :
  check_from P x n = true -> forall y, x <= y < x + Z.of_nat n -> P y = true.
Proof.
  revert x. induction n as [|n IH]; intros x Hn y Hy; [lia|].
  simpl in Hn. apply andb_true_iff in Hn as [Hx Hrest].
  destruct (decide (y = x)) as [->|Hne]; [done|].
  apply (IH (x + 1)); [done|lia].
Qed.

Lemma decode_sample_in_unit_range (x : Z) :
  -32768 <= x <= 32767 -> in_unit_range (decode_sample x) = true.
Proof.
  intros Hx.
  apply (check_from_spec (fun x => in_unit_range (decode_sample x))
           (Z.to_nat 65536) (-32768)); [vm_compute; reflexivity|lia].
Qed.

(** A finite float has one exact value. *)
Lemma represents_unique (y : spec_float) (x x' den : Z) :
  0 < den -> represents y x den = true -> represents y x' den = true -> x = x'.
Proof.
  intros Hden. destruct y as [s|s| |s m e]; simpl; try done.
  - intros H1 H2. apply Z.eqb_eq in H1, H2. lia.
  - destruct (Z.leb_spec 0 e) as [He|He]; intros H1 H2;
      apply Z.eqb_eq in H1, H2; [lia|].
    assert (0 < 2 ^ (- e)) by (apply Z.pow_pos_nonneg; lia).
    apply (Z.mul_reg_r _ _ (2 ^ (- e))); lia.
Qed.

Lemma decode_sample_injective (x x' : Z) :
  -32768 <= x <= 32767 -> -32768 <= x' <= 32767 ->
  decode_sample x = decode_sample x' -> x = x'.
Proof.
  intros Hx Hx' Heq.
  apply (represents_unique (decode_sample x) x x' 32768); [lia| |].
  - by apply decode_sample_exact.
  - rewrite Heq. by apply decode_sample_exact.
Qed.

Lemma map_decode_injective (pcm1 pcm2 : list Z) :
  Forall (fun x => -32768 <= x <= 32767) pcm1 ->
  Forall (fun x => -32768 <= x <= 32767) pcm2 ->
  map decode_sample pcm1 = map decode_sample pcm2 -> pcm1 = pcm2.
Proof.
  intros Hr1. revert pcm2. induction Hr1 as [|x l Hx Hl IH]; intros pcm2 Hr2 Heq.
  - by destruct pcm2.
  - destruct Hr2 as [|x' l' Hx' Hl']; [done|].
    simpl in Heq. injection Heq as Hhead Htail.
    f_equal; [by apply decode_sample_injective|by apply IH].
Qed.

Lemma result_array_fresh (h : heap) (out : list spec_float) :
  result_array (Val (<[fresh (dom h) := FloatArray out]> h, Some (fresh (dom h)))) = out.
Proof. unfold result_array. by rewrite lookup_insert_eq. Qed.

(** X1. Every 16-bit sample decodes into [-1.0, 1.0): the decoder's output
    is at least -1.0 and strictly below 1.0 at every index, -32768 decodes
    to exactly -1.0, and no sample decodes to +1.0. *)
Theorem pcm16ToFloat_unit_range (h : heap) (pcm_data : jref) (pcm : list Z) :
  h !! pcm_data = Some (ShortArray pcm) ->
  Forall (fun x => -32768 <= x <= 32767) pcm ->
  exists out,
    pcm16ToFloat no_faults h pcm_data
    = Val (<[fresh (dom h) := FloatArray out]> h, Some (fresh (dom h)))
    /\ Forall (fun y => SFleb (F32.opp F32_one) y = true /\ SFltb y F32_one = true) out
    /\ (forall i, pcm !! i = Some (-32768) -> out !! i = Some (F32.opp F32_one))
    /\ F32_one ∉ out.
Proof.
  intros Ha Hpcm. exists (map decode_sample pcm).
  split; [by apply pcm16ToFloat_map|].
  assert (Forall (fun y => SFleb (F32.opp F32_one) y = true /\ SFltb y F32_one = true)
            (map decode_sample pcm)) as Hrange.
  { apply Forall_fmap. apply (Forall_impl _ _ _ Hpcm). intros x Hx. simpl.
    apply andb_true_iff. by apply decode_sample_in_unit_range. }
  split; [done|]. split.
  - intros i Hi. by rewrite list_lookup_fmap, Hi.
  - intros Hin. rewrite Forall_forall in Hrange.
    destruct (Hrange _ Hin) as [_ Hlt]. done.
Qed.

Lemma pcm16ToFloat_unit_range_witness :
  exists out,
    pcm16ToFloat no_faults {[ 1%positive := ShortArray [-32768; 32767] ]} 1%positive
    = Val (<[fresh (dom ({[ 1%positive := ShortArray [-32768; 32767] ]} : heap))
             := FloatArray out]> {[ 1%positive := ShortArray [-32768; 32767] ]},
           Some (fresh (dom ({[ 1%positive := ShortArray [-32768; 32767] ]} : heap))))
    /\ out !! 0%nat = Some (F32.opp F32_one).
Proof.
  destruct (pcm16ToFloat_unit_range {[ 1%positive := ShortArray [-32768; 32767] ]}
              1%positive [-32768; 32767]) as (out & Hrun & _ & Hmin & _).
  - reflexivity.
  - repeat constructor; lia.
  - exists out. split; [exact Hrun|]. apply Hmin. reflexivity.
Defined.

(** X2. Decoding is lossless: two arrays of 16-bit samples whose decoded
    float arrays are equal are equal. *)
Theorem pcm16ToFloat_lossless (h1 h2 : heap) (a1 a2 : jref) (pcm1 pcm2 : list Z) :
  h1 !! a1 = Some (ShortArray pcm1) ->
  h2 !! a2 = Some (ShortArray pcm2) ->
  Forall (fun x => -32768 <= x <= 32767) pcm1 ->
  Forall (fun x => -32768 <= x <= 32767) pcm2 ->
  result_array (pcm16ToFloat no_faults h1 a1) = result_array (pcm16ToFloat no_faults h2 a2) ->
  pcm1 = pcm2.
Proof.
  intros H1 H2 Hr1 Hr2.
  rewrite (pcm16ToFloat_map h1 a1 pcm1 H1), (pcm16ToFloat_map h2 a2 pcm2 H2).
  rewrite !result_array_fresh. by apply map_decode_injective.
Qed.

Lemma pcm16ToFloat_lossless_witness :
  [16384; -1] = [16384; -1].
Proof.
  apply (pcm16ToFloat_lossless
           {[ 1%positive := ShortArray [16384; -1] ]}
           {[ 5%positive := ShortArray [16384; -1] ]} 1%positive 5%positive
           [16384; -1] [16384; -1]).
  - reflexivity.
  - reflexivity.
  - repeat constructor; lia.
  - repeat constructor; lia.
  - vm_compute. reflexivity.
Defined.

(** ** What no operation does to the heap *)

Lemma resample_equal_rates (env : JNIEnv) (h : heap) (audio_data : jref) (r : Z) :
  resampleAudio env h audio_data r r = Val (h, Some audio_data).
Proof. unfold resampleAudio. by rewrite Z.eqb_refl. Qed.

Lemma NewFloatArray_inv (null : bool) (h h1 : heap) (n : Z) (r : option jref) :
  NewFloatArray null h n = Val (h1, r) ->
  (r = None /\ h1 = h)
  \/ (r = Some (fresh (dom h))
      /\ h1 = <[fresh (dom h) := FloatArray (replicate (Z.to_nat n) F32.zero)]> h).
Proof.
  unfold NewFloatArray. destruct null; [intros [= <- <-]; by left|].
  destruct (n <? 0); [done|]. intros [= <- <-]. by right.
Qed.

Lemma allocates_only_null (h : heap) : allocates_only h (Val (h, None)).
Proof. by left. Qed.

Lemma allocates_only_after_alloc (h : heap) (zeros : list spec_float) :
  allocates_only h (Val (<[fresh (dom h) := FloatArray zeros]> h, None)).
Proof. left. split; [done|apply alloc_preserves]. Qed.

(** The part every array operation runs after its input has been read:
    allocate, access the new array, run the body on its elements. *)
Lemma allocate_and_fill (env : JNIEnv) (h : heap) (n : Z)
  (body : heap -> jref -> list spec_float -> result (heap * option jref)) :
  fills_array body ->
  allocates_only h
    (do ' (h1, arr) <- NewFloatArray (new_array_null env) h n ;;
     match arr with
     | None => Val (h1, None)
     | Some arr =>
       do buf <- GetFloatArrayElements (output_elements_null env) h1 arr ;;
       match buf with
       | None => Val (h1, None)
       | Some buf => body h1 arr buf
       end
     end).
Proof.
  intros Hbody.
  destruct (NewFloatArray (new_array_null env) h n) as [[h1 r]|] eqn:Hnew; [|done].
  apply NewFloatArray_inv in Hnew as [[-> ->]|[-> ->]]; cbn [bind].
  { apply allocates_only_null. }
  unfold GetFloatArrayElements. rewrite lookup_insert_eq.
  destruct (output_elements_null env); cbn [bind].
  { apply allocates_only_after_alloc. }
  specialize (Hbody (<[fresh (dom h) := FloatArray (replicate (Z.to_nat n) F32.zero)]> h)
                (fresh (dom h)) (replicate (Z.to_nat n) F32.zero)).
  destruct (body _ _ _) as [[h' r]|]; [|done].
  destruct Hbody as (out & -> & ->).
  right. exists out. by rewrite insert_insert_eq.
Qed.

Lemma pcm16ToFloat_allocates_only (env : JNIEnv) (h : heap) (pcm_data : jref) :
  allocates_only h (pcm16ToFloat env h pcm_data).
Proof.
  unfold pcm16ToFloat, GetArrayLength, GetShortArrayElements.
  destruct (h !! pcm_data) as [[pcm|audio]|]; [|done|done]. cbn [bind array_length].
  destruct (input_elements_null env); [apply allocates_only_null|].
  apply (allocate_and_fill env h _
    (fun h1 float_array float_data =>
       do float_data <-
         for_range 0 (Z.of_nat (length pcm))
           (fun i float_data =>
              do x <- load pcm i ;;
              store float_data i (F32.mul (F32.of_int x) pcm_scale))
           float_data ;;
       Val (<[float_array := FloatArray float_data]> h1, Some float_array))).
  intros h1 arr buf. destruct (for_range _ _ _ _) as [out|]; [|done].
  by exists out.
Qed.

Lemma highPassFilter_allocates_only (env : JNIEnv) (h : heap) (audio_data : jref)
  (cutoff_freq : spec_float) (sample_rate : Z) :
  allocates_only h (highPassFilter env h audio_data cutoff_freq sample_rate).
Proof.
  unfold highPassFilter, GetArrayLength. unfold GetFloatArrayElements at 1.
  destruct (h !! audio_data) as [[pcm|audio]|]; [done| |done]. cbn [bind array_length].
  destruct (input_elements_null env); [apply allocates_only_null|].
  apply (allocate_and_fill env h _
    (fun h1 filtered_array filtered =>
       do a0 <- load audio 0 ;;
       do filtered <- store filtered 0 a0 ;;
       do filtered <-
         for_range 1 (Z.of_nat (length audio))
           (hpf_step (hpf_alpha cutoff_freq sample_rate) audio) filtered ;;
       Val (<[filtered_array := FloatArray filtered]> h1, Some filtered_array))).
  intros h1 arr buf. destruct (load audio 0) as [a0|]; [|done]. cbn [bind].
  destruct (store buf 0 a0) as [b|]; [|done]. cbn [bind].
  destruct (for_range _ _ _ _) as [out|]; [|done].
  by exists out.
Qed.

Lemma normalizeAudio_allocates_only (env : JNIEnv) (h : heap) (audio_data : jref)
  (target_level : spec_float) :
  normalizeAudio env h audio_data target_level = Val (h, Some audio_data)
  \/ allocates_only h (normalizeAudio env h audio_data target_level).
Proof.
  destruct (h !! audio_data) as [[pcm|audio]|] eqn:Ha.
  - right. unfold normalizeAudio, GetArrayLength, GetFloatArrayElements.
    by rewrite Ha.
  - destruct (input_elements_null env) eqn:Hin.
    + right. unfold normalizeAudio, GetArrayLength, GetFloatArrayElements.
      rewrite Ha, Hin. apply allocates_only_null.
    + rewrite (normalizeAudio_scan env h audio_data audio) by done.
      destruct (F32.eqb (peak audio) F32.zero); [by left|right].
      apply (allocate_and_fill env h _
        (fun h1 normalized_array normalized =>
           do normalized <-
             for_range 0 (Z.of_nat (length audio))
               (fun i normalized =>
                  do x <- load audio i ;;
                  store normalized i (F32.mul x (normalize_scale target_level audio)))
               normalized ;;
           Val (<[normalized_array := FloatArray normalized]> h1,
                Some normalized_array))).
      intros h1 arr buf. destruct (for_range _ _ _ _) as [out|]; [|done].
      by exists out.
  - right. unfold normalizeAudio, GetArrayLength. by rewrite Ha.
Qed.

Lemma resampleAudio_allocates_only (env : JNIEnv) (h : heap) (audio_data : jref)
  (source_rate target_rate : Z) :
  source_rate <> target_rate ->
  allocates_only h (resampleAudio env h audio_data source_rate target_rate).
Proof.
  intros Hne. unfold resampleAudio.
  destruct (Z.eqb_spec source_rate target_rate) as [|_]; [done|].
  unfold GetArrayLength. unfold GetFloatArrayElements at 1.
  destruct (h !! audio_data) as [[pcm|audio]|]; [done| |done]. cbn [bind array_length].
  destruct (input_elements_null env); [apply allocates_only_null|].
  destruct (to_jsize _) as [target_length|]; [|done]. cbn [bind].
  apply (allocate_and_fill env h _
    (fun h1 target_array target_audio =>
       do target_audio <-
         for_range 0 target_length
           (fun i target_audio =>
              do v <- resample_sample audio (Z.of_nat (length audio))
                        (F64.div (F64.of_int target_rate) (F64.of_int source_rate)) i ;;
              store target_audio i v)
           target_audio ;;
       Val (<[target_array := FloatArray target_audio]> h1, Some target_array))).
  intros h1 arr buf. destruct (for_range _ _ _ _) as [out|]; [|done].
  by exists out.
Qed.

(** X3. No operation changes or removes an array that is on the heap, in
    any outcome and under any failure of the JNI calls: a call that returns
    leaves every array where it was with the contents it had.  The
    reference it returns is null, or a reference no array had before the
    call, or - only from the normalizer and from the resampler - the
    argument itself, with the heap exactly as it was.  The decoder and the
    filter never return their argument. *)
Theorem operations_preserve_heap (env : JNIEnv) (h h' : heap) (a : jref)
  (r : option jref) :
  (pcm16ToFloat env h a = Val (h', r) ->
     h ⊆ h' /\ forall a', r = Some a' -> h !! a' = None /\ a' <> a)
  /\ (forall cutoff_freq sample_rate,
        highPassFilter env h a cutoff_freq sample_rate = Val (h', r) ->
        h ⊆ h' /\ forall a', r = Some a' -> h !! a' = None /\ a' <> a)
  /\ (forall target_level,
        normalizeAudio env h a target_level = Val (h', r) ->
        h ⊆ h' /\ forall a', r = Some a' ->
                    (a' = a /\ h' = h) \/ (h !! a' = None /\ a' <> a))
  /\ (forall source_rate target_rate,
        resampleAudio env h a source_rate target_rate = Val (h', r) ->
        h ⊆ h' /\ forall a', r = Some a' ->
                    (a' = a /\ h' = h) \/ (h !! a' = None /\ a' <> a)).
Proof.
  assert (forall outcome, allocates_only h outcome -> outcome = Val (h', r) ->
            is_Some (h !! a) ->
            h ⊆ h' /\ forall a', r = Some a' -> h !! a' = None /\ a' <> a) as Hframe.
  { intros outcome Halloc -> [arr Harr]. simpl in Halloc.
    destruct Halloc as [[-> Hsub]|(out & -> & ->)].
    - split; [done|]. by intros a'.
    - split; [apply alloc_preserves|]. intros a' [= <-].
      split; [apply fresh_unused|]. intros Heq.
      assert (h !! a = None) as Hnone by (rewrite <- Heq; exact (fresh_unused h)).
      rewrite Hnone in Harr. done. }
  assert (forall (op : result (heap * option jref)),
            (h !! a = None -> op = Undefined) -> op = Val (h', r) -> is_Some (h !! a))
    as Hlive.
  { intros op Hnone Hrun. destruct (h !! a) as [arr|] eqn:Ha; [by eexists|].
    rewrite Hnone in Hrun; done. }
  split; [|split; [|split]].
  - intros Hrun. apply (Hframe _ (pcm16ToFloat_allocates_only env h a) Hrun).
    apply (Hlive (pcm16ToFloat env h a)); [|done].
    intros Ha. unfold pcm16ToFloat, GetArrayLength. by rewrite Ha.
  - intros fc fs Hrun.
    apply (Hframe _ (highPassFilter_allocates_only env h a fc fs) Hrun).
    apply (Hlive (highPassFilter env h a fc fs)); [|done].
    intros Ha. unfold highPassFilter, GetArrayLength. by rewrite Ha.
  - intros L Hrun.
    destruct (normalizeAudio_allocates_only env h a L) as [Hid|Halloc].
    + rewrite Hid in Hrun. injection Hrun as <- <-.
      split; [done|]. intros a' [= <-]. by left.
    + destruct (Hframe _ Halloc Hrun) as [Hsub Hret].
      * apply (Hlive (normalizeAudio env h a L)); [|done].
        intros Ha. unfold normalizeAudio, GetArrayLength. by rewrite Ha.
      * split; [done|]. intros a' Ha'. right. by apply Hret.
  - intros s t Hrun. destruct (decide (s = t)) as [->|Hne].
    + rewrite resample_equal_rates in Hrun. injection Hrun as <- <-.
      split; [done|]. intros a' [= <-]. by left.
    + destruct (Hframe _ (resampleAudio_allocates_only env h a s t Hne) Hrun)
        as [Hsub Hret].
      * apply (Hlive (resampleAudio env h a s t)); [|done].
        intros Ha. unfold resampleAudio, GetArrayLength.
        destruct (Z.eqb_spec s t); [done|]. by rewrite Ha.
      * split; [done|]. intros a' Ha'. right. by apply Hret.
Qed.

Lemma operations_preserve_heap_witness :
  single [F32.zero] ⊆ single [F32.zero]
  /\ forall a', Some 1%positive = Some a' ->
       (a' = 1%positive /\ single [F32.zero] = single [F32.zero])
       \/ (single [F32.zero] !! a' = None /\ a' <> 1%positive).
Proof.
  destruct (operations_preserve_heap no_faults (single [F32.zero]) (single [F32.zero])
              1%positive (Some 1%positive)) as (_ & _ & Hnorm & _).
  apply (Hnorm F32_one). reflexivity.
Defined.

(** ** Signs *)

Lemma binary_round_nonneg (prec emax : Z) (m : positive) (e : Z) :
  nonneg (binary_round prec emax false m e).
Proof.
  unfold binary_round. destruct (shl_align m e _) as [mz ez].
  apply binary_round_aux_nonneg.
Qed.

Lemma SFadd_nonneg (prec emax : Z) (x y : spec_float) :
  nonneg x -> nonneg y -> nonneg (SFadd prec emax x y).
Proof.
  destruct x as [sx|sx| |sx mx ex], y as [sy|sy| |sy my ey]; simpl; try done;
    try (by intros -> ->).
  intros -> ->. simpl. apply binary_round_nonneg.
Qed.

Lemma SFsqrt_nonneg (prec emax : Z) (x : spec_float) :
  nonneg x -> nonneg (SFsqrt prec emax x).
Proof.
  destruct x as [sx|sx| |sx mx ex]; simpl; try done; intros ->; [done|].
  destruct (SFsqrt_core_binary _ _ _ _) as [[mz ez] lz].
  apply binary_round_aux_nonneg.
Qed.

Lemma SFdiv_nonneg (prec emax : Z) (x y : spec_float) :
  nonneg x -> nonneg y -> nonneg (SFdiv prec emax x y).
Proof.
  destruct x as [sx|sx| |sx mx ex], y as [sy|sy| |sy my ey]; simpl; try done;
    try (by intros -> ->).
  intros -> ->.
  destruct (SFdiv_core_binary _ _ _ _ _ _) as [[mz ez] lz].
  apply binary_round_aux_nonneg.
Qed.

Lemma widen_narrow_nonneg (x : spec_float) :
  nonneg x -> nonneg (F64.of_float x) /\ nonneg (F32.of_double x).
Proof.
  destruct x as [sx|sx| |sx mx ex]; simpl; try done.
  intros ->. split; apply binary_round_nonneg.
Qed.

Lemma F32_square_nonneg (x : spec_float) : nonneg (F32.mul x x).
Proof.
  destruct x as [[]|[]| |sx mx ex]; simpl; try done.
  replace (xorb sx sx) with false by (by destruct sx).
  apply binary_round_aux_nonneg.
Qed.

Lemma F32_square_abs (x : spec_float) : F32.mul x x = F32.mul (F32.abs x) (F32.abs x).
Proof. destruct x as [[]|[]| |[] mx ex]; reflexivity. Qed.

(** ** Energy meter: sign and dependence on magnitudes *)

Lemma sum_squares_nonneg (audio : list spec_float) : nonneg (sum_squares audio).
Proof.
  unfold sum_squares.
  assert (nonneg F64.zero) as Hacc by done. revert Hacc. generalize F64.zero.
  induction audio as [|x l IH]; intros acc Hacc; [done|].
  simpl. apply IH. apply SFadd_nonneg; [done|].
  apply widen_narrow_nonneg, F32_square_nonneg.
Qed.

Lemma rms_value_nonneg (audio : list spec_float) : nonneg (rms_value audio).
Proof.
  unfold rms_value. apply widen_narrow_nonneg, SFsqrt_nonneg, SFdiv_nonneg.
  - apply sum_squares_nonneg.
  - apply F64_of_int_nonneg. lia.
Qed.

Lemma sum_squares_magnitudes (l1 l2 : list spec_float) :
  Forall2 (fun x y => F32.abs x = F32.abs y) l1 l2 -> sum_squares l1 = sum_squares l2.
Proof.
  intros Habs. unfold sum_squares. generalize F64.zero.
  induction Habs as [|x y l1 l2 Hxy _ IH]; intros acc; [done|].
  simpl. rewrite (F32_square_abs x), (F32_square_abs y), Hxy. apply IH.
Qed.

(** X4. The energy meter never returns a negative number: whatever the
    buffer (empty, with infinite or NaN samples) and whether or not the
    element access fails, the call returns, and its result is NaN or has a
    clear sign bit (so it is never -0.0 either). *)
Theorem calculateRMS_nonneg (env : JNIEnv) (h : heap) (audio_data : jref)
  (audio : list spec_float) :
  h !! audio_data = Some (FloatArray audio) ->
  exists rms,
    calculateRMS env h audio_data = Val rms
    /\ (rms = S754_nan \/ sign_bit rms = Some false).
Proof.
  intros Ha.
  assert (forall x, nonneg x -> x = S754_nan \/ sign_bit x = Some false) as Hsign.
  { intros x Hx. destruct x as [s|s| |s m e]; simpl in *;
      [right; by subst|right; by subst|by left|right; by subst]. }
  destruct (input_elements_null env) eqn:Hin.
  - exists F32.zero. split; [by apply (calculateRMS_failure env h audio_data audio)|].
    by right.
  - exists (rms_value audio). split; [|apply Hsign, rms_value_nonneg].
    unfold calculateRMS, GetArrayLength, GetFloatArrayElements.
    rewrite Ha, Hin. cbn [bind array_length]. unfold rms_step.
    by rewrite (fold_loop (fun acc x => F64.add acc (F64.of_float (F32.mul x x)))).
Qed.

Lemma calculateRMS_nonneg_witness :
  exists rms,
    calculateRMS no_faults (single [F32.opp F32_one]) 1%positive = Val rms
    /\ (rms = S754_nan \/ sign_bit rms = Some false).
Proof.
  apply (calculateRMS_nonneg no_faults (single [F32.opp F32_one]) 1%positive
           [F32.opp F32_one]).
  reflexivity.
Defined.

(** X5. The energy meter sees magnitudes only: two buffers whose samples
    have the same absolute values, index by index, have the same RMS,
    whatever the signs. *)
Theorem calculateRMS_magnitudes (h1 h2 : heap) (a1 a2 : jref)
  (audio1 audio2 : list spec_float) :
  h1 !! a1 = Some (FloatArray audio1) ->
  h2 !! a2 = Some (FloatArray audio2) ->
  Forall2 (fun x y => F32.abs x = F32.abs y) audio1 audio2 ->
  calculateRMS no_faults h1 a1 = calculateRMS no_faults h2 a2.
Proof.
  intros H1 H2 Habs.
  rewrite (calculateRMS_value h1 a1 audio1 H1), (calculateRMS_value h2 a2 audio2 H2).
  unfold rms_value.
  by rewrite (sum_squares_magnitudes audio1 audio2 Habs), (Forall2_length _ _ _ Habs).
Qed.

Lemma calculateRMS_magnitudes_witness :
  calculateRMS no_faults (single [F32_half; F32.opp F32_one]) 1%positive
  = calculateRMS no_faults (single [F32.opp F32_half; F32_one]) 1%positive.
Proof.
  apply (calculateRMS_magnitudes _ _ _ _ [F32_half; F32.opp F32_one]
           [F32.opp F32_half; F32_one]).
  - reflexivity.
  - reflexivity.
  - repeat constructor.
Defined.

(** ** Normalizer: when it returns its argument, and what scaling keeps *)

Lemma fresh_not_live (h : heap) (a : jref) (arr : jarray) :
  h !! a = Some arr -> fresh (dom h) <> a.
Proof.
  intros Ha Heq.
  assert (h !! a = None) as Hnone by (rewrite <- Heq; exact (fresh_unused h)).
  rewrite Hnone in Ha. done.
Qed.

(** One step of the peak scan, from zero and from a positive maximum. *)
Lemma peak_step_from_zero (x : spec_float) :
  let m := if F32.ltb F32.zero (F32.abs x) then F32.abs x else F32.zero in
  (silent_sample x /\ m = F32.zero) \/ (~ silent_sample x /\ positive_magnitude m).
Proof. destruct x as [[]|[]| |[] m e]; simpl; auto. Qed.

Lemma peak_step_positive (m x : spec_float) :
  positive_magnitude m ->
  positive_magnitude (if F32.ltb m (F32.abs x) then F32.abs x else m).
Proof.
  destruct m as [[]|[]| |[] mm me]; simpl; try done; intros _;
    destruct x as [[]|[]| |[] mx ex]; simpl; try done;
    unfold F32.ltb, SFltb; simpl;
    repeat (match goal with |- context [match ?c with _ => _ end] => destruct c end);
    done.
Qed.

Lemma peak_fold_positive (audio : list spec_float) (m : spec_float) :
  positive_magnitude m ->
  positive_magnitude
    (fold_left (fun max_val x => if F32.ltb max_val (F32.abs x) then F32.abs x else max_val)
       audio m).
Proof.
  revert m. induction audio as [|x l IH]; intros m Hm; [done|].
  simpl. by apply IH, peak_step_positive.
Qed.

(** The scan ends on 0 exactly when every sample is a zero or NaN, and on a
    positive magnitude otherwise. *)
Lemma peak_cases (audio : list spec_float) :
  (Forall silent_sample audio /\ peak audio = F32.zero)
  \/ (~ Forall silent_sample audio /\ positive_magnitude (peak audio)).
Proof.
  unfold peak. induction audio as [|x l IH]; [by left|].
  simpl. destruct (peak_step_from_zero x) as [[Hx ->]|[Hx Hm]].
  - destruct IH as [[Hl ->]|[Hl Hp]].
    + left. by split; [constructor|].
    + right. split; [|done]. intros Hall. apply Hl. by inversion Hall.
  - right. split; [|by apply peak_fold_positive].
    intros Hall. apply Hx. by inversion Hall.
Qed.

Lemma positive_magnitude_nonzero (m : spec_float) :
  positive_magnitude m -> F32.eqb m F32.zero = false.
Proof. by destruct m as [[]|[]| |[] mm me]. Qed.

(** X6. The normalizer returns its argument (the same reference, the heap
    untouched) exactly when every sample is a zero of either sign or NaN:
    a buffer of NaNs counts as silence.  On any other buffer it returns a
    reference that no array had before, different from its argument. *)
Theorem normalizeAudio_identity_iff (h : heap) (audio_data : jref)
  (audio : list spec_float) (target_level : spec_float) :
  h !! audio_data = Some (FloatArray audio) ->
  (normalizeAudio no_faults h audio_data target_level = Val (h, Some audio_data)
   <-> Forall silent_sample audio)
  /\ (~ Forall silent_sample audio ->
      exists out,
        normalizeAudio no_faults h audio_data target_level
        = Val (<[fresh (dom h) := FloatArray out]> h, Some (fresh (dom h)))
        /\ fresh (dom h) <> audio_data
        /\ length out = length audio).
Proof.
  intros Ha.
  assert (fresh (dom h) <> audio_data) as Hfresh by exact (fresh_not_live _ _ _ Ha).
  assert (~ Forall silent_sample audio ->
          normalizeAudio no_faults h audio_data target_level
          = Val (<[fresh (dom h) :=
                     FloatArray (map (fun x => F32.mul x (normalize_scale target_level audio))
                                     audio)]> h,
                 Some (fresh (dom h)))) as Hloud.
  { intros Hne. destruct (peak_cases audio) as [[Hs _]|[_ Hp]]; [done|].
    apply normalizeAudio_scaled; [done|]. by apply positive_magnitude_nonzero. }
  split; [split|].
  - intros Hrun. destruct (peak_cases audio) as [[Hs _]|[Hne _]]; [done|].
    rewrite (Hloud Hne) in Hrun. injection Hrun as _ Heq. done.
  - intros Hs. destruct (peak_cases audio) as [[_ Hz]|[Hne _]]; [|done].
    rewrite (normalizeAudio_scan _ _ _ audio) by done. by rewrite Hz.
  - intros Hne. eexists. split; [by apply Hloud|]. split; [done|].
    by rewrite length_map.
Qed.

Lemma normalizeAudio_identity_iff_witness :
  normalizeAudio no_faults (single [S754_nan; S754_zero true]) 1%positive F32_one
  = Val (single [S754_nan; S754_zero true], Some 1%positive).
Proof.
  destruct (normalizeAudio_identity_iff (single [S754_nan; S754_zero true]) 1%positive
              [S754_nan; S754_zero true] F32_one) as [[_ Hsilent] _].
  - reflexivity.
  - apply Hsilent. repeat constructor.
Defined.

Lemma F32_mul_keeps_sign (x scale : spec_float) :
  nonneg scale ->
  F32.mul x scale = S754_nan \/ sign_bit (F32.mul x scale) = sign_bit x.
Proof.
  destruct x as [sx|sx| |sx mx ex], scale as [ss|ss| |ss ms es]; simpl;
    try (by left); try (intros ->; rewrite xorb_false_r; by right).
  intros ->. rewrite xorb_false_r. unfold F32.mul, SFmul, binary_round_aux.
  destruct (shr_fexp _ _ _ _ _) as [mrs' e'].
  destruct (shr_fexp _ _ _ e' loc_Exact) as [mrs'' e''].
  destruct (shr_m mrs''); [by right| |by left].
  destruct (e'' <=? _); by right.
Qed.

Lemma normalize_scale_nonneg (target_level : spec_float) (audio : list spec_float) :
  nonneg target_level -> nonneg (normalize_scale target_level audio).
Proof.
  intros HL. apply SFdiv_nonneg; [done|].
  destruct (peak_cases audio) as [[_ ->]|[_ Hp]]; [done|].
  by destruct (peak audio) as [[]|[]| |[] m e].
Qed.

(** X7. The normalizer never flips the polarity of a sample: for a target
    level that is not negative, every output sample is NaN or carries the
    sign bit of the input sample at the same index. *)
Theorem normalizeAudio_keeps_sign (h : heap) (audio_data : jref)
  (audio : list spec_float) (target_level : spec_float) :
  h !! audio_data = Some (FloatArray audio) ->
  nonneg target_level ->
  let out := result_array (normalizeAudio no_faults h audio_data target_level) in
  length out = length audio
  /\ forall i x y, audio !! i = Some x -> out !! i = Some y ->
       y = S754_nan \/ sign_bit y = sign_bit x.
Proof.
  intros Ha HL out. unfold out.
  destruct (peak_cases audio) as [[_ Hz]|[_ Hp]].
  - rewrite (normalizeAudio_scan _ _ _ audio) by done. rewrite Hz.
    simpl. rewrite Ha. split; [done|].
    intros i x y Hx Hy. right. congruence.
  - rewrite (normalizeAudio_scaled h audio_data audio target_level Ha)
      by (by apply positive_magnitude_nonzero).
    rewrite result_array_fresh. split; [by rewrite length_map|].
    intros i x y Hx Hy. rewrite list_lookup_fmap, Hx in Hy.
    injection Hy as <-. by apply F32_mul_keeps_sign, normalize_scale_nonneg.
Qed.

Lemma normalizeAudio_keeps_sign_witness :
  length (result_array (normalizeAudio no_faults
                          (single [F32_0_2; F32.opp F32_half; F32_0_1]) 1%positive F32_one))
  = 3%nat.
Proof.
  destruct (normalizeAudio_keeps_sign (single [F32_0_2; F32.opp F32_half; F32_0_1])
              1%positive [F32_0_2; F32.opp F32_half; F32_0_1] F32_one) as [Hlen _].
  - reflexivity.
  - reflexivity.
  - exact Hlen.
Defined.

(** X8. Target level 0 mutes: on a buffer that is not silent, with target
    level +0.0 the scale is +0.0, every finite sample becomes a zero and
    every infinite or NaN sample becomes NaN. *)
Theorem normalizeAudio_target_zero (h : heap) (audio_data : jref)
  (audio : list spec_float) :
  h !! audio_data = Some (FloatArray audio) ->
  ~ Forall silent_sample audio ->
  exists out,
    normalizeAudio no_faults h audio_data F32.zero
    = Val (<[fresh (dom h) := FloatArray out]> h, Some (fresh (dom h)))
    /\ normalize_scale F32.zero audio = F32.zero
    /\ forall i x y, audio !! i = Some x -> out !! i = Some y ->
         (is_finite x -> is_zero y) /\ (~ is_finite x -> y = S754_nan).
Proof.
  intros Ha Hne. destruct (peak_cases audio) as [[Hs _]|[_ Hp]]; [done|].
  assert (normalize_scale F32.zero audio = F32.zero) as Hscale.
  { unfold normalize_scale. by destruct (peak audio) as [[]|[]| |[] m e]. }
  exists (map (fun x => F32.mul x (normalize_scale F32.zero audio)) audio). split.
  { apply normalizeAudio_scaled; [done|]. by apply positive_magnitude_nonzero. }
  split; [done|].
  intros i x y Hx Hy. rewrite list_lookup_fmap, Hx in Hy.
  change (Some (F32.mul x (normalize_scale F32.zero audio)) = Some y) in Hy.
  rewrite Hscale in Hy. injection Hy as <-.
  by destruct x as [sx|sx| |sx mx ex].
Qed.

Lemma normalizeAudio_target_zero_witness :
  exists out,
    normalizeAudio no_faults (single [F32_half; S754_infinity false]) 1%positive F32.zero
    = Val (<[fresh (dom (single [F32_half; S754_infinity false])) := FloatArray out]>
             (single [F32_half; S754_infinity false]),
           Some (fresh (dom (single [F32_half; S754_infinity false]))))
    /\ normalize_scale F32.zero [F32_half; S754_infinity false] = F32.zero.
Proof.
  destruct (normalizeAudio_target_zero (single [F32_half; S754_infinity false])
              1%positive [F32_half; S754_infinity false]) as (out & Hrun & Hscale & _).
  - reflexivity.
  - intros Hall. inversion Hall as [|x l Hx Hl]. exact Hx.
  - exists out. split; [exact Hrun|exact Hscale].
Defined.

(** ** High-pass filter: degenerate parameters, causality, silence *)

(** With a zero cutoff [rc] is infinite and [alpha = rc / (rc + dt)] is
    [inf / inf]. *)
Lemma hpf_alpha_cutoff_zero (cutoff_freq : spec_float) (sample_rate : Z) :
  is_zero cutoff_freq -> hpf_alpha cutoff_freq sample_rate = S754_nan.
Proof.
  destruct cutoff_freq as [s|s| |s m e]; try done. intros _.
  unfold hpf_alpha.
  assert (hpf_rc (S754_zero s) = S754_infinity s) as -> by (by destruct s).
  by destruct (hpf_dt sample_rate) as [[]|[]| |[] m e], s.
Qed.

(** With a zero sample rate [dt] is infinite and [alpha] is a zero or
    NaN. *)
Lemma hpf_alpha_rate_zero (cutoff_freq : spec_float) :
  silent_sample (hpf_alpha cutoff_freq 0).
Proof.
  unfold hpf_alpha.
  assert (hpf_dt 0 = S754_infinity false) as -> by reflexivity.
  by destruct (hpf_rc cutoff_freq) as [[]|[]| |[] m e].
Qed.

Lemma F32_mul_silent (alpha y : spec_float) :
  silent_sample alpha -> silent_sample (F32.mul alpha y).
Proof. by destruct alpha as [sa|sa| |sa ma ea], y as [sy|sy| |sy my ey]. Qed.

(** X9. A zero cutoff frequency is not guarded against: the coefficient is
    NaN, and on any buffer of length N >= 1 the filter returns the first
    sample followed by N - 1 NaNs, whatever the sample rate. *)
Theorem highPassFilter_cutoff_zero (h : heap) (audio_data : jref)
  (audio : list spec_float) (cutoff_freq : spec_float) (sample_rate : Z) :
  h !! audio_data = Some (FloatArray audio) ->
  (1 <= length audio)%nat ->
  is_zero cutoff_freq ->
  exists filtered,
    highPassFilter no_faults h audio_data cutoff_freq sample_rate
    = Val (<[fresh (dom h) := FloatArray filtered]> h, Some (fresh (dom h)))
    /\ length filtered = length audio
    /\ filtered !! 0%nat = audio !! 0%nat
    /\ forall i, (1 <= i < length audio)%nat -> filtered !! i = Some S754_nan.
Proof.
  intros Ha Hn Hz.
  destruct (highPassFilter_run h audio_data audio cutoff_freq sample_rate Ha)
    as (filtered & Hrun & Hlen & H0 & Hrec); [by destruct audio; [simpl in Hn; lia|]|].
  exists filtered. split; [done|]. split; [done|]. split; [done|].
  intros i Hi. destruct (Hrec i Hi) as (fprev & a & aprev & _ & _ & _ & Hout).
  by rewrite Hout, hpf_alpha_cutoff_zero.
Qed.

Lemma highPassFilter_cutoff_zero_witness :
  exists filtered,
    highPassFilter no_faults (single [F32_one; F32_half]) 1%positive F32.zero 16000
    = Val (<[fresh (dom (single [F32_one; F32_half])) := FloatArray filtered]>
             (single [F32_one; F32_half]),
           Some (fresh (dom (single [F32_one; F32_half]))))
    /\ filtered !! 1%nat = Some S754_nan.
Proof.
  destruct (highPassFilter_cutoff_zero (single [F32_one; F32_half]) 1%positive
              [F32_one; F32_half] F32.zero 16000) as (filtered & Hrun & _ & _ & Hnan).
  - reflexivity.
  - simpl. lia.
  - exact I.
  - exists filtered. split; [exact Hrun|]. apply Hnan. simpl. lia.
Defined.

(** X10. A zero sample rate is not guarded against either: [dt] is
    infinite, the coefficient is a zero or NaN, and whatever the cutoff
    every output sample after the first is a zero or NaN. *)
Theorem highPassFilter_rate_zero (h : heap) (audio_data : jref)
  (audio : list spec_float) (cutoff_freq : spec_float) :
  h !! audio_data = Some (FloatArray audio) ->
  (1 <= length audio)%nat ->
  exists filtered,
    highPassFilter no_faults h audio_data cutoff_freq 0
    = Val (<[fresh (dom h) := FloatArray filtered]> h, Some (fresh (dom h)))
    /\ length filtered = length audio
    /\ filtered !! 0%nat = audio !! 0%nat
    /\ forall i, (1 <= i < length audio)%nat ->
         exists y, filtered !! i = Some y /\ silent_sample y.
Proof.
  intros Ha Hn.
  destruct (highPassFilter_run h audio_data audio cutoff_freq 0 Ha)
    as (filtered & Hrun & Hlen & H0 & Hrec); [by destruct audio; [simpl in Hn; lia|]|].
  exists filtered. split; [done|]. split; [done|]. split; [done|].
  intros i Hi. destruct (Hrec i Hi) as (fprev & a & aprev & _ & _ & _ & Hout).
  eexists. split; [done|]. apply F32_mul_silent, hpf_alpha_rate_zero.
Qed.

Lemma highPassFilter_rate_zero_witness :
  exists filtered,
    highPassFilter no_faults (single [F32_one; F32_half]) 1%positive F32_100 0
    = Val (<[fresh (dom (single [F32_one; F32_half])) := FloatArray filtered]>
             (single [F32_one; F32_half]),
           Some (fresh (dom (single [F32_one; F32_half]))))
    /\ length filtered = 2%nat.
Proof.
  destruct (highPassFilter_rate_zero (single [F32_one; F32_half]) 1%positive
              [F32_one; F32_half] F32_100) as (filtered & Hrun & Hlen & _).
  - reflexivity.
  - simpl. lia.
  - exists filtered. split; [exact Hrun|exact Hlen].
Defined.

(** X11. The filter is causal: the first [k] output samples depend on the
    first [k] input samples only.  Two buffers that agree on their first
    [k] samples, filtered with the same parameters, give outputs that agree
    on their first [k] samples, whatever follows and whatever the lengths. *)
Theorem highPassFilter_causal (h1 h2 : heap) (a1 a2 : jref)
  (audio1 audio2 : list spec_float) (cutoff_freq : spec_float) (sample_rate : Z)
  (k : nat) :
  h1 !! a1 = Some (FloatArray audio1) ->
  h2 !! a2 = Some (FloatArray audio2) ->
  (1 <= k <= length audio1)%nat -> (k <= length audio2)%nat ->
  take k audio1 = take k audio2 ->
  take k (result_array (highPassFilter no_faults h1 a1 cutoff_freq sample_rate))
  = take k (result_array (highPassFilter no_faults h2 a2 cutoff_freq sample_rate)).
Proof.
  intros H1 H2 Hk1 Hk2 Hsame.
  destruct (highPassFilter_run h1 a1 audio1 cutoff_freq sample_rate H1)
    as (out1 & -> & Hlen1 & Hz1 & Hrec1); [by destruct audio1; [simpl in Hk1; lia|]|].
  destruct (highPassFilter_run h2 a2 audio2 cutoff_freq sample_rate H2)
    as (out2 & -> & Hlen2 & Hz2 & Hrec2); [by destruct audio2; [simpl in Hk2; lia|]|].
  rewrite !result_array_fresh.
  assert (forall i, (i < k)%nat -> audio1 !! i = audio2 !! i) as Hin.
  { intros i Hi.
    rewrite <- (lookup_take_lt audio1 k i), <- (lookup_take_lt audio2 k i) by done.
    by rewrite Hsame. }
  assert (forall i, (i < k)%nat -> out1 !! i = out2 !! i) as Hout.
  { induction i as [|i IH]; intros Hi.
    - rewrite Hz1, Hz2. apply Hin. lia.
    - destruct (Hrec1 (Datatypes.S i)) as (f1 & x1 & p1 & Hf1 & Hx1 & Hp1 & Ho1); [lia|].
      destruct (Hrec2 (Datatypes.S i)) as (f2 & x2 & p2 & Hf2 & Hx2 & Hp2 & Ho2); [lia|].
      replace (Datatypes.S i - 1)%nat with i in * by lia.
      rewrite (IH ltac:(lia)), Hf2 in Hf1.
      rewrite (Hin (Datatypes.S i) Hi), Hx2 in Hx1.
      rewrite (Hin i ltac:(lia)), Hp2 in Hp1.
      rewrite Ho1, Ho2. congruence. }
  apply (list_eq_same_length _ _ k).
  - rewrite length_take. lia.
  - rewrite length_take. lia.
  - intros i x y Hi Hx Hy. rewrite lookup_take_lt in Hx, Hy by done.
    rewrite (Hout i Hi) in Hx. congruence.
Qed.

Lemma highPassFilter_causal_witness :
  take 2 (result_array (highPassFilter no_faults (single [F32_one; F32_half; F32_0_1])
                          1%positive F32_100 16000))
  = take 2 (result_array (highPassFilter no_faults (single [F32_one; F32_half])
                            1%positive F32_100 16000)).
Proof.
  apply (highPassFilter_causal _ _ _ _ [F32_one; F32_half; F32_0_1] [F32_one; F32_half]).
  - reflexivity.
  - reflexivity.
  - simpl. lia.
  - simpl. lia.
  - reflexivity.
Defined.

(** ** The stages composed *)

Lemma zeros_filter_step (alpha fprev a aprev : spec_float) :
  is_finite alpha -> is_zero fprev -> is_zero a -> is_zero aprev ->
  is_zero (F32.mul alpha (F32.sub (F32.add fprev a) aprev)).
Proof.
  intros Halpha Hf Ha Hp.
  destruct fprev as [sf| | |]; [|done..]. destruct a as [sa| | |]; [|done..].
  destruct aprev as [sp| | |]; [|done..].
  by destruct alpha as [[]|[]| |[] ma ea], sf, sa, sp.
Qed.

(** Silence in, silence out, for a finite filter coefficient. *)
Lemma highPassFilter_zeros (h : heap) (audio_data : jref) (audio : list spec_float)
  (cutoff_freq : spec_float) (sample_rate : Z) :
  h !! audio_data = Some (FloatArray audio) ->
  audio <> [] ->
  Forall is_zero audio ->
  is_finite (hpf_alpha cutoff_freq sample_rate) ->
  exists filtered,
    highPassFilter no_faults h audio_data cutoff_freq sample_rate
    = Val (<[fresh (dom h) := FloatArray filtered]> h, Some (fresh (dom h)))
    /\ length filtered = length audio
    /\ Forall is_zero filtered.
Proof.
  intros Ha Hne Hz Halpha.
  destruct (highPassFilter_run h audio_data audio cutoff_freq sample_rate Ha Hne)
    as (filtered & Hrun & Hlen & H0 & Hrec).
  exists filtered. split; [done|]. split; [done|].
  rewrite Forall_lookup in Hz.
  assert (forall i, (i < length audio)%nat ->
            exists y, filtered !! i = Some y /\ is_zero y) as Hall.
  { induction i as [|i IH]; intros Hi.
    - destruct (lookup_lt_is_Some_2 audio 0%nat Hi) as [x Hx].
      exists x. split; [by rewrite H0|]. by apply (Hz 0%nat).
    - destruct (Hrec (Datatypes.S i)) as (f & x & p & Hf & Hx & Hp & Ho); [lia|].
      replace (Datatypes.S i - 1)%nat with i in * by lia.
      destruct IH as (f' & Hf' & Hzf); [lia|].
      assert (f' = f) as -> by congruence.
      eexists. split; [exact Ho|].
      apply zeros_filter_step; [done|done|by apply (Hz (Datatypes.S i))|by apply (Hz i)]. }
  apply Forall_lookup. intros i y Hy.
  destruct (Hall i) as (y' & Hy' & Hzy).
  - apply lookup_lt_Some in Hy. lia.
  - congruence.
Qed.

(** X12. A silent capture stays silent through the whole chain: an array
    of N >= 1 zero PCM samples decodes to zeros; for filter parameters with
    a finite coefficient the filter returns zeros; the normalizer takes them
    for silence and returns the filtered array itself; and its RMS is
    +0.0. *)
Theorem silent_capture_pipeline (h : heap) (pcm_data : jref) (pcm : list Z)
  (cutoff_freq : spec_float) (sample_rate : Z) (target_level : spec_float) :
  h !! pcm_data = Some (ShortArray pcm) ->
  1 <= Z.of_nat (length pcm) <= JSIZE_MAX ->
  Forall (fun x => x = 0) pcm ->
  is_finite (hpf_alpha cutoff_freq sample_rate) ->
  exists h1 decoded h2 filtered,
    pcm16ToFloat no_faults h pcm_data = Val (h1, Some decoded)
    /\ highPassFilter no_faults h1 decoded cutoff_freq sample_rate = Val (h2, Some filtered)
    /\ normalizeAudio no_faults h2 filtered target_level = Val (h2, Some filtered)
    /\ calculateRMS no_faults h2 filtered = Val F32.zero
    /\ h2 !! pcm_data = Some (ShortArray pcm).
Proof.
  intros Ha Hn Hzero Halpha.
  assert (Forall is_zero (map decode_sample pcm)) as Hdec.
  { apply Forall_fmap. apply (Forall_impl _ _ _ Hzero). by intros x ->. }
  set (decoded := fresh (dom h) : jref).
  set (h1 := <[decoded := FloatArray (map decode_sample pcm)]> h).
  assert (h1 !! decoded = Some (FloatArray (map decode_sample pcm))) as H1
    by apply lookup_insert_eq.
  destruct (highPassFilter_zeros h1 decoded (map decode_sample pcm)
              cutoff_freq sample_rate H1) as (filtered & Hrun & Hlen & Hz);
    [by destruct pcm; [simpl in Hn; lia|]|done|done|].
  set (out := fresh (dom h1) : jref) in *.
  set (h2 := <[out := FloatArray filtered]> h1) in *.
  assert (h2 !! out = Some (FloatArray filtered)) as H2 by apply lookup_insert_eq.
  exists h1, decoded, h2, out.
  split; [by apply pcm16ToFloat_map|]. split; [done|].
  assert (Forall silent_sample filtered) as Hsilent.
  { apply (Forall_impl _ _ _ Hz). by intros [s|s| |s m e]. }
  split; [|split].
  - rewrite (normalizeAudio_scan _ _ _ filtered) by done.
    destruct (peak_cases filtered) as [[_ ->]|[Hne _]]; done.
  - rewrite (calculateRMS_value h2 _ filtered H2).
    rewrite length_map in Hlen.
    f_equal. apply rms_value_zero; [|rewrite Hlen; lia|done].
    intros ->. simpl in Hlen. lia.
  - apply (lookup_weaken h h2); [done|].
    etrans; apply alloc_preserves.
Qed.

Lemma silent_capture_pipeline_witness :
  exists h1 decoded h2 filtered,
    pcm16ToFloat no_faults {[ 1%positive := ShortArray [0; 0; 0] ]} 1%positive
    = Val (h1, Some decoded)
    /\ highPassFilter no_faults h1 decoded F32_100 16000 = Val (h2, Some filtered)
    /\ calculateRMS no_faults h2 filtered = Val F32.zero.
Proof.
  destruct (silent_capture_pipeline {[ 1%positive := ShortArray [0; 0; 0] ]} 1%positive
              [0; 0; 0] F32_100 16000 F32_one)
    as (h1 & decoded & h2 & filtered & Hdec & Hhpf & _ & Hrms & _).
  - reflexivity.
  - vm_compute. split; discriminate.
  - repeat constructor.
  - vm_compute. exact I.
  - exists h1, decoded, h2, filtered. split; [exact Hdec|]. split; [exact Hhpf|exact Hrms].
Defined.

(** X13. An empty capture: the decoder accepts it and returns a new empty
    float array; on that array the normalizer returns the array itself, the
    energy meter returns NaN, and the filter reads index 0 out of bounds. *)
Theorem empty_capture_pipeline (h : heap) (pcm_data : jref)
  (cutoff_freq : spec_float) (sample_rate : Z) (target_level : spec_float) :
  h !! pcm_data = Some (ShortArray []) ->
  exists h1 decoded,
    pcm16ToFloat no_faults h pcm_data = Val (h1, Some decoded)
    /\ h1 !! decoded = Some (FloatArray [])
    /\ decoded <> pcm_data
    /\ normalizeAudio no_faults h1 decoded target_level = Val (h1, Some decoded)
    /\ calculateRMS no_faults h1 decoded = Val S754_nan
    /\ highPassFilter no_faults h1 decoded cutoff_freq sample_rate = Undefined.
Proof.
  intros Ha.
  set (decoded := fresh (dom h) : jref).
  set (h1 := <[decoded := FloatArray []]> h).
  assert (h1 !! decoded = Some (FloatArray [])) as H1 by apply lookup_insert_eq.
  exists h1, decoded.
  split; [by apply (pcm16ToFloat_map h pcm_data [])|]. split; [done|].
  split; [exact (fresh_not_live _ _ _ Ha)|]. split; [|split].
  - by rewrite (normalizeAudio_scan _ _ _ []) by done.
  - by rewrite (calculateRMS_value h1 _ [] H1).
  - by apply highPassFilter_empty.
Qed.

Lemma empty_capture_pipeline_witness :
  exists h1 decoded,
    pcm16ToFloat no_faults {[ 1%positive := ShortArray [] ]} 1%positive
    = Val (h1, Some decoded)
    /\ highPassFilter no_faults h1 decoded F32_100 16000 = Undefined.
Proof.
  destruct (empty_capture_pipeline {[ 1%positive := ShortArray [] ]} 1%positive
              F32_100 16000 F32_one) as (h1 & decoded & Hdec & _ & _ & _ & _ & Hhpf).
  - reflexivity.
  - exists h1, decoded. split; [exact Hdec|exact Hhpf].
Defined.

(** ** The resampling ratio is a finite positive double *)

Lemma digits2_pos_upper (p : positive) : Zpos p < 2 ^ Zpos (digits2_pos p).
Proof.
  induction p as [p IH|p IH|]; simpl digits2_pos; [| |simpl; lia];
    rewrite Pos2Z.inj_succ, Z.pow_succ_r by lia; lia.
Qed.

Lemma digits2_pos_range (p : positive) (d : Z) :
  2 ^ (d - 1) <= Zpos p < 2 ^ d -> Zpos (digits2_pos p) = d.
Proof.
  intros [Hlo Hhi].
  pose proof (digits2_pos_lower p) as Hl. pose proof (digits2_pos_upper p) as Hu.
  destruct (Z.lt_trichotomy (Zpos (digits2_pos p)) d) as [Hlt|[Heq|Hgt]]; [|done|].
  - assert (2 ^ Zpos (digits2_pos p) <= 2 ^ (d - 1)) by (apply Z.pow_le_mono_r; lia).
    lia.
  - assert (2 ^ d <= 2 ^ (Zpos (digits2_pos p) - 1)) by (apply Z.pow_le_mono_r; lia).
    lia.
Qed.

(** The double of a positive [jint]: a 53-bit mantissa and an exponent
    between -52 and -22. *)
Lemma F64_of_int_normal (n : Z) :
  0 < n <= JSIZE_MAX ->
  exists m e, F64.of_int n = S754_finite false m e
              /\ 2 ^ 52 <= Zpos m < 2 ^ 53 /\ -52 <= e <= -22.
Proof.
  intros Hn. destruct n as [|p|p]; [lia| |lia].
  pose proof (digits2_pos_jsize p ltac:(lia)) as Hd.
  unfold F64.of_int, binary_normalize, binary_round.
  assert (fexp F64.prec F64.emax (Zpos (digits2_pos p) + 0) = Zpos (digits2_pos p) - 53) as Hf.
  { unfold fexp, emin, F64.prec, F64.emax. lia. }
  rewrite Hf. unfold shl_align.
  destruct (Zpos (digits2_pos p) - 53 - 0) as [|k|k] eqn:Hk; [lia|lia|].
  exists (Pos.iter xO p k), (Zpos (digits2_pos p) - 53).
  assert (Zpos (digits2_pos (Pos.iter xO p k)) = 53) as Hdig
    by (rewrite digits2_pos_shift; lia).
  split; [|split; [|lia]].
  - apply binary_round_aux_canonical.
    + rewrite Hdig. unfold fexp, emin, F64.prec, F64.emax. lia.
    + unfold F64.prec, F64.emax. lia.
  - pose proof (digits2_pos_lower (Pos.iter xO p k)) as Hl.
    pose proof (digits2_pos_upper (Pos.iter xO p k)) as Hu.
    rewrite Hdig in Hl, Hu. simpl in Hl. lia.
Qed.

(** Shifting a mantissa of 53 or 54 bits into position leaves 53 bits. *)
Lemma shr_fexp_normal (m : positive) (e : Z) (l : location) :
  2 ^ 52 <= Zpos m < 2 ^ 54 -> -1000 <= e <= 950 ->
  exists m' r s e',
    shr_fexp F64.prec F64.emax (Zpos m) e l
    = ({| shr_m := Zpos m'; shr_r := r; shr_s := s |}, e')
    /\ 2 ^ 52 <= Zpos m' < 2 ^ 53 /\ e <= e' <= e + 1.
Proof.
  intros Hm He. unfold shr_fexp. simpl Zdigits2.
  destruct (Z.lt_ge_cases (Zpos m) (2 ^ 53)) as [Hsmall|Hbig].
  - rewrite (digits2_pos_range m 53) by (simpl; lia).
    replace (fexp F64.prec F64.emax (53 + e) - e) with 0
      by (unfold fexp, emin, F64.prec, F64.emax; lia).
    destruct l as [|[]]; simpl; eexists m, _, _, e; (split; [reflexivity|lia]).
  - rewrite (digits2_pos_range m 54) by (simpl; lia).
    replace (fexp F64.prec F64.emax (54 + e) - e) with 1
      by (unfold fexp, emin, F64.prec, F64.emax; lia).
    destruct m as [m'|m'|]; [| |simpl in Hbig; lia];
      destruct l as [|[]]; simpl; eexists m', _, _, (e + 1);
      (split; [reflexivity|lia]).
Qed.

Lemma round_nearest_even_range (m : Z) (l : location) :
  m <= round_nearest_even m l <= m + 1.
Proof.
  unfold round_nearest_even. destruct l as [|[]]; try lia.
  destruct (Z.even m); lia.
Qed.

(** Rounding a quotient of 53 or 54 bits gives a finite number. *)
Lemma binary_round_aux_normal (mz : Z) (e : Z) (l : location) :
  2 ^ 52 <= mz < 2 ^ 54 -> -900 <= e <= 900 ->
  exists m' e', binary_round_aux F64.prec F64.emax false mz e l = S754_finite false m' e'.
Proof.
  intros Hm He. destruct mz as [|m|m]; [lia| |lia].
  unfold binary_round_aux.
  destruct (shr_fexp_normal m e l Hm ltac:(lia)) as (m1 & r1 & s1 & e1 & -> & Hm1 & He1).
  pose proof (round_nearest_even_range (Zpos m1)
                (loc_of_shr_record {| shr_m := Zpos m1; shr_r := r1; shr_s := s1 |}))
    as Hround.
  simpl shr_m.
  destruct (round_nearest_even (Zpos m1) _) as [|m2|m2]; [lia| |lia].
  destruct (shr_fexp_normal m2 e1 loc_Exact ltac:(lia) ltac:(lia))
    as (m3 & r3 & s3 & e3 & -> & Hm3 & He3).
  simpl shr_m.
  destruct (Z.leb_spec e3 (F64.emax - F64.prec)) as [_|Hbad];
    [by eexists _, _|unfold F64.emax, F64.prec in Hbad; lia].
Qed.

Lemma resample_ratio_finite (source_rate target_rate : Z) :
  0 < source_rate <= JSIZE_MAX -> 0 < target_rate <= JSIZE_MAX ->
  exists m e, resample_ratio source_rate target_rate = S754_finite false m e.
Proof.
  intros Hs Ht. unfold resample_ratio.
  destruct (F64_of_int_normal target_rate Ht) as (mt & et & -> & Hmt & Het).
  destruct (F64_of_int_normal source_rate Hs) as (ms & es & -> & Hms & Hes).
  unfold F64.div, SFdiv, SFdiv_core_binary. simpl Zdigits2.
  rewrite (digits2_pos_range mt 53), (digits2_pos_range ms 53) by (simpl; lia).
  replace (Z.min (fexp F64.prec F64.emax (53 + et - (53 + es))) (et - es))
    with (et - es - 53) by (unfold fexp, emin, F64.prec, F64.emax; lia).
  replace (et - es - (et - es - 53)) with 53 by lia.
  cbv iota beta.
  assert (Z.shiftl (Zpos mt) 53 = Zpos mt * 2 ^ 53) as -> by (by rewrite Z.shiftl_mul_pow2).
  pose proof (Z.div_eucl_eq (Zpos mt * 2 ^ 53) (Zpos ms) ltac:(lia)) as Hdiv.
  pose proof (Z.mod_pos_bound (Zpos mt * 2 ^ 53) (Zpos ms) ltac:(lia)) as Hmod.
  unfold Z.modulo in Hmod.
  destruct (Z.div_eucl (Zpos mt * 2 ^ 53) (Zpos ms)) as [q r].
  simpl xorb. apply binary_round_aux_normal; [|lia].
  assert (2 ^ 53 = 2 * 2 ^ 52) as H53 by reflexivity.
  assert (2 ^ 54 = 4 * 2 ^ 52) as H54 by reflexivity.
  split; nia.
Qed.

(** ** Resampler: empty and one-sample buffers *)

(** X14. Resampling an empty buffer between two different rates (any
    positive [jint]s) is safe: the target length is 0, the loop body, which
    would read [source_audio[source_length - 1]] at index -1, never runs,
    and a new empty array is returned. *)
Theorem resampleAudio_empty (h : heap) (audio_data : jref)
  (source_rate target_rate : Z) :
  h !! audio_data = Some (FloatArray []) ->
  source_rate <> target_rate ->
  0 < source_rate <= JSIZE_MAX -> 0 < target_rate <= JSIZE_MAX ->
  resampleAudio no_faults h audio_data source_rate target_rate
  = Val (<[fresh (dom h) := FloatArray []]> h, Some (fresh (dom h)))
  /\ load (@nil spec_float) (Z.of_nat (length (@nil spec_float)) - 1) = Undefined.
Proof.
  intros Ha Hne Hs Ht. split; [|done].
  destruct (resampleAudio_run h audio_data [] source_rate target_rate 0 Ha Hne)
    as (_ & out & Hrun & Hlen & _); [lia|lia| |intros i Hi; lia|].
  - destruct (resample_ratio_finite source_rate target_rate Hs Ht) as (m & e & ->).
    reflexivity.
  - rewrite Hrun. by destruct out.
Qed.

Lemma resampleAudio_empty_witness :
  resampleAudio no_faults (single []) 1%positive 44100 16000
  = Val (<[fresh (dom (single [])) := FloatArray []]> (single []),
         Some (fresh (dom (single [])))).
Proof.
  apply (resampleAudio_empty (single []) 1%positive 44100 16000).
  - reflexivity.
  - lia.
  - unfold JSIZE_MAX. lia.
  - unfold JSIZE_MAX. lia.
Defined.

(** X15. A one-sample buffer is extended by repetition: when the rates
    differ and the target length and the source positions fit a [jsize],
    every output sample is the one input sample (each index falls in the
    clamp branch, since [index >= 0 = source_length - 1]). *)
Theorem resampleAudio_single_sample (h : heap) (audio_data : jref) (x : spec_float)
  (source_rate target_rate len : Z) :
  h !! audio_data = Some (FloatArray [x]) ->
  source_rate <> target_rate ->
  0 < source_rate -> 0 < target_rate ->
  let ratio := F64.div (F64.of_int target_rate) (F64.of_int source_rate) in
  to_jsize (F64.mul (F64.of_int 1) ratio) = Val len ->
  (forall i, 0 <= i < len -> defined (to_jsize (F64.div (F64.of_int i) ratio))) ->
  resampleAudio no_faults h audio_data source_rate target_rate
  = Val (<[fresh (dom h) := FloatArray (replicate (Z.to_nat len) x)]> h,
         Some (fresh (dom h))).
Proof.
  intros Ha Hne Hs Ht ratio Hlen Hidx.
  destruct (resampleAudio_run h audio_data [x] source_rate target_rate len
              Ha Hne Hs Ht Hlen Hidx) as (Hlen0 & out & Hrun & Hl & Hout).
  rewrite Hrun. enough (out = replicate (Z.to_nat len) x) as -> by done.
  apply (list_eq_same_length _ _ (Z.to_nat len)); [by rewrite length_replicate|lia|].
  intros i y z Hi Hy Hz. apply lookup_replicate_1 in Hz as [-> _].
  destruct (Hout (Z.of_nat i)) as (v & Hv & Hget); [lia|].
  rewrite Nat2Z.id, Hy in Hget. injection Hget as <-.
  specialize (Hidx (Z.of_nat i) ltac:(lia)).
  fold (resample_ratio source_rate target_rate) in ratio.
  destruct (to_jsize (F64.div (F64.of_int (Z.of_nat i)) ratio)) as [index|] eqn:Hindex;
    [|done].
  assert (0 <= index) as Hpos.
  { apply (to_jsize_nonneg _ _ (F64_div_nonneg _ _
             (F64_of_int_nonneg (Z.of_nat i) ltac:(lia))
             (resample_ratio_nonneg _ _ Hs Ht)) Hindex). }
  destruct (resample_sample_value [x] ratio (Z.of_nat i) index ltac:(simpl; lia)
              Hindex Hpos) as (v & Hv' & Hclamp & _).
  assert (Val y = Val v) as [= ->] by exact (eq_trans (eq_sym Hv) Hv').
  specialize (Hclamp ltac:(simpl; lia)). simpl in Hclamp. congruence.
Qed.

Lemma resampleAudio_single_sample_witness :
  resampleAudio no_faults (single [F32_half]) 1%positive 8000 16000
  = Val (<[fresh (dom (single [F32_half])) := FloatArray (replicate (Z.to_nat 2) F32_half)]>
           (single [F32_half]),
         Some (fresh (dom (single [F32_half])))).
Proof.
  apply (resampleAudio_single_sample (single [F32_half]) 1%positive F32_half 8000 16000 2).
  - reflexivity.
  - lia.
  - lia.
  - lia.
  - reflexivity.
  - intros i Hi. assert (i = 0 \/ i = 1) as Hcases by lia.
    destruct Hcases as [Hi0|Hi1]; subst i; vm_compute; exact I.
Defined.

(** ** Infinite and NaN samples *)

Lemma peak_fold_infinite (audio : list spec_float) :
  fold_left (fun max_val x => if F32.ltb max_val (F32.abs x) then F32.abs x else max_val)
    audio (S754_infinity false) = S754_infinity false.
Proof.
  induction audio as [|x l IH]; [done|].
  simpl. by destruct x as [[]|[]| |[] m e].
Qed.

Lemma peak_infinite (audio : list spec_float) :
  Exists is_infinite audio -> peak audio = S754_infinity false.
Proof.
  unfold peak.
  enough (forall m, is_magnitude m -> Exists is_infinite audio ->
    fold_left (fun max_val x => if F32.ltb max_val (F32.abs x) then F32.abs x else max_val)
      audio m = S754_infinity false) as H by (by apply H).
  induction audio as [|x l IH]; intros m Hm Hex; [by inversion Hex|].
  simpl. inversion Hex as [y l' Hx|y l' Hl]; subst.
  - destruct x as [| sx | |]; try done.
    assert ((if F32.ltb m (F32.abs (S754_infinity sx)) then F32.abs (S754_infinity sx)
             else m) = S754_infinity false) as ->
      by (by destruct m as [[]|[]| |[] mm me]).
    apply peak_fold_infinite.
  - apply IH; [|done].
    destruct m as [[]|[]| |[] mm me]; try done;
      destruct x as [[]|[]| |[] mx ex]; simpl; try done;
      unfold F32.ltb, SFltb; simpl;
      repeat (match goal with |- context [match ?c with _ => _ end] => destruct c end);
      done.
Qed.

(** X16. One infinite sample wipes the buffer: if some sample is infinite
    the peak is infinite, so for a finite target level the scale is a zero;
    every finite sample is then mapped to a zero and every infinite or NaN
    sample to NaN. *)
Theorem normalizeAudio_infinite_sample (h : heap) (audio_data : jref)
  (audio : list spec_float) (target_level : spec_float) :
  h !! audio_data = Some (FloatArray audio) ->
  Exists is_infinite audio ->
  is_finite target_level ->
  exists out,
    normalizeAudio no_faults h audio_data target_level
    = Val (<[fresh (dom h) := FloatArray out]> h, Some (fresh (dom h)))
    /\ is_zero (normalize_scale target_level audio)
    /\ forall i x y, audio !! i = Some x -> out !! i = Some y ->
         (is_finite x -> is_zero y) /\ (~ is_finite x -> y = S754_nan).
Proof.
  intros Ha Hinf HL.
  pose proof (peak_infinite audio Hinf) as Hpeak.
  assert (is_zero (normalize_scale target_level audio)) as Hscale.
  { unfold normalize_scale. rewrite Hpeak. by destruct target_level as [[]|[]| |[] m e]. }
  exists (map (fun x => F32.mul x (normalize_scale target_level audio)) audio).
  split; [apply normalizeAudio_scaled; [done|by rewrite Hpeak]|].
  split; [done|].
  intros i x y Hx Hy. rewrite list_lookup_fmap, Hx in Hy.
  change (Some (F32.mul x (normalize_scale target_level audio)) = Some y) in Hy.
  injection Hy as <-.
  destruct (normalize_scale target_level audio) as [ss| | |]; try done.
  by destruct x as [sx|sx| |sx mx ex].
Qed.

Lemma normalizeAudio_infinite_sample_witness :
  exists out,
    normalizeAudio no_faults (single [F32_half; S754_infinity true]) 1%positive F32_one
    = Val (<[fresh (dom (single [F32_half; S754_infinity true])) := FloatArray out]>
             (single [F32_half; S754_infinity true]),
           Some (fresh (dom (single [F32_half; S754_infinity true]))))
    /\ is_zero (normalize_scale F32_one [F32_half; S754_infinity true]).
Proof.
  destruct (normalizeAudio_infinite_sample (single [F32_half; S754_infinity true])
              1%positive [F32_half; S754_infinity true] F32_one)
    as (out & Hrun & Hscale & _).
  - reflexivity.
  - apply Exists_cons_tl, Exists_cons_hd. exact I.
  - exact I.
  - exists out. split; [exact Hrun|exact Hscale].
Defined.

Lemma sum_squares_nan (audio : list spec_float) :
  S754_nan ∈ audio -> sum_squares audio = S754_nan.
Proof.
  unfold sum_squares.
  assert (forall l, fold_left (fun acc x => F64.add acc (F64.of_float (F32.mul x x)))
                      l S754_nan = S754_nan) as Hstuck.
  { induction l as [|x l IH]; [done|]. simpl. apply IH. }
  generalize F64.zero. induction audio as [|x l IH]; intros acc Hin.
  - by apply elem_of_nil in Hin.
  - simpl. apply elem_of_cons in Hin as [<-|Hin]; [|by apply IH].
    assert (F64.add acc (F64.of_float (F32.mul S754_nan S754_nan)) = S754_nan) as ->
      by (by destruct acc).
    apply Hstuck.
Qed.

(** X17. NaN poisons the energy measure: if any sample of the buffer is
    NaN, the RMS is NaN. *)
Theorem calculateRMS_nan_sample (h : heap) (audio_data : jref)
  (audio : list spec_float) :
  h !! audio_data = Some (FloatArray audio) ->
  S754_nan ∈ audio ->
  calculateRMS no_faults h audio_data = Val S754_nan.
Proof.
  intros Ha Hnan. rewrite (calculateRMS_value h audio_data audio Ha).
  unfold rms_value. by rewrite sum_squares_nan.
Qed.

Lemma calculateRMS_nan_sample_witness :
  calculateRMS no_faults (single [F32_one; S754_nan; F32_half]) 1%positive = Val S754_nan.
Proof.
  apply (calculateRMS_nan_sample (single [F32_one; S754_nan; F32_half]) 1%positive
           [F32_one; S754_nan; F32_half]).
  - reflexivity.
  - apply list_elem_of_lookup. exists 1%nat. reflexivity.
Defined.

(** X18. NaN poisons the rest of the filter output: the filter is
    recursive, so if input sample [k] is NaN, every output sample from
    index [k] to the end is NaN, whatever the parameters and the other
    samples. *)
Theorem highPassFilter_nan_sample (h : heap) (audio_data : jref)
  (audio : list spec_float) (cutoff_freq : spec_float) (sample_rate : Z) (k : nat) :
  h !! audio_data = Some (FloatArray audio) ->
  audio !! k = Some S754_nan ->
  exists filtered,
    highPassFilter no_faults h audio_data cutoff_freq sample_rate
    = Val (<[fresh (dom h) := FloatArray filtered]> h, Some (fresh (dom h)))
    /\ length filtered = length audio
    /\ forall i, (k <= i < length audio)%nat -> filtered !! i = Some S754_nan.
Proof.
  intros Ha Hk.
  destruct (highPassFilter_run h audio_data audio cutoff_freq sample_rate Ha)
    as (filtered & Hrun & Hlen & H0 & Hrec); [by destruct audio|].
  exists filtered. split; [done|]. split; [done|].
  assert (forall alpha f a p, a = S754_nan \/ f = S754_nan ->
            F32.mul alpha (F32.sub (F32.add f a) p) = S754_nan) as Hpoison.
  { intros alpha f a p [-> | ->].
    - by destruct alpha, f.
    - by destruct alpha. }
  induction i as [|i IH]; intros Hi.
  - assert (k = 0%nat) as -> by lia. by rewrite H0.
  - destruct (Hrec (Datatypes.S i)) as (f & a & p & Hf & Hx & Hp & Ho); [lia|].
    replace (Datatypes.S i - 1)%nat with i in * by lia.
    rewrite Ho. f_equal. apply Hpoison.
    destruct (decide (k = Datatypes.S i)) as [->|Hne].
    + left. congruence.
    + right. rewrite IH in Hf by lia. congruence.
Qed.

Lemma highPassFilter_nan_sample_witness :
  exists filtered,
    highPassFilter no_faults (single [F32_one; S754_nan; F32_half]) 1%positive
      F32_100 16000
    = Val (<[fresh (dom (single [F32_one; S754_nan; F32_half])) := FloatArray filtered]>
             (single [F32_one; S754_nan; F32_half]),
           Some (fresh (dom (single [F32_one; S754_nan; F32_half]))))
    /\ filtered !! 2%nat = Some S754_nan.
Proof.
  destruct (highPassFilter_nan_sample (single [F32_one; S754_nan; F32_half]) 1%positive
              [F32_one; S754_nan; F32_half] F32_100 16000 1)
    as (filtered & Hrun & _ & Hnan).
  - reflexivity.
  - reflexivity.
  - exists filtered. split; [exact Hrun|]. apply Hnan. simpl. lia.
Defined.

(** ** Exact operations on integer-valued doubles *)

Lemma iter_pos_nat {A : Type} (f : A -> A) (n : positive) (x : A) :
  SpecFloat.iter_pos f n x = Nat.iter (Pos.to_nat n) f x.
Proof.
  revert x. induction n as [n IH|n IH|]; intros x; simpl SpecFloat.iter_pos; [| |done].
  - rewrite !IH, Pos2Nat.inj_xI, Nat.iter_succ_r.
    replace (2 * Pos.to_nat n)%nat with (Pos.to_nat n + Pos.to_nat n)%nat by lia.
    by rewrite Nat.iter_add.
  - rewrite !IH, Pos2Nat.inj_xO.
    replace (2 * Pos.to_nat n)%nat with (Pos.to_nat n + Pos.to_nat n)%nat by lia.
    by rewrite Nat.iter_add.
Qed.

Lemma shr_1_iter_exact (k : nat) (p : positive) :
  Nat.iter k shr_1 {| shr_m := Zpos (Nat.iter k xO p); shr_r := false; shr_s := false |}
  = {| shr_m := Zpos p; shr_r := false; shr_s := false |}.
Proof.
  induction k as [|k IH]; [done|].
  rewrite Nat.iter_succ_r. exact IH.
Qed.

Lemma pos_shift_value (p n : positive) :
  Zpos (Pos.iter xO p n) = Zpos p * 2 ^ Zpos n.
Proof.
  induction n as [|n IH] using Pos.peano_ind.
  - simpl. lia.
  - rewrite Pos.iter_succ, Pos2Z.inj_succ, Z.pow_succ_r by lia.
    rewrite Pos2Z.inj_xO, IH. lia.
Qed.

(** Shifting out [n] zero bits is exact. *)
Lemma shr_exact (m q n : positive) :
  Zpos m = Zpos q * 2 ^ Zpos n ->
  SpecFloat.iter_pos shr_1 n {| shr_m := Zpos m; shr_r := false; shr_s := false |}
  = {| shr_m := Zpos q; shr_r := false; shr_s := false |}.
Proof.
  intros Hm.
  assert (m = Pos.iter xO q n) as ->
    by (apply Pos2Z.inj; by rewrite pos_shift_value).
  rewrite iter_pos_nat, Pos2Nat.inj_iter. apply shr_1_iter_exact.
Qed.

(** Rounding a mantissa whose excess bits are all zero is exact. *)
Lemma binary_round_aux_exact (prec emax : Z) (s : bool) (m q n : positive) (e : Z) :
  fexp prec emax (Zpos (digits2_pos m) + e) - e = Zpos n ->
  Zpos m = Zpos q * 2 ^ Zpos n ->
  e + Zpos n <= emax - prec ->
  binary_round_aux prec emax s (Zpos m) e loc_Exact = S754_finite s q (e + Zpos n).
Proof.
  intros Hn Hm He.
  assert (m = Pos.iter xO q n) as Hshift
    by (apply Pos2Z.inj; by rewrite pos_shift_value).
  unfold binary_round_aux, shr_fexp. simpl Zdigits2. rewrite Hn.
  unfold shr. simpl shr_record_of_loc. rewrite (shr_exact m q n Hm).
  simpl shr_m. simpl loc_of_shr_record. simpl round_nearest_even.
  simpl Zdigits2. simpl shr_record_of_loc.
  assert (fexp prec emax (Zpos (digits2_pos q) + (e + Zpos n)) - (e + Zpos n) = 0) as ->.
  { rewrite Hshift, digits2_pos_shift in Hn.
    replace (Zpos (digits2_pos q) + (e + Zpos n))
      with (Zpos (digits2_pos q + n) + e) by lia. lia. }
  simpl. destruct (Z.leb_spec (e + Zpos n) (emax - prec)); [done|lia].
Qed.

(** The double of a positive [jsize]: the integer shifted up to 53 bits. *)
Lemma F64_of_int_explicit (p : positive) :
  Zpos p <= JSIZE_MAX ->
  F64.of_int (Zpos p)
  = S754_finite false (Pos.iter xO p (Z.to_pos (53 - Zpos (digits2_pos p))))
      (Zpos (digits2_pos p) - 53).
Proof.
  intros Hp. pose proof (digits2_pos_jsize p Hp) as Hd.
  unfold F64.of_int, binary_normalize, binary_round.
  assert (fexp F64.prec F64.emax (Zpos (digits2_pos p) + 0) = Zpos (digits2_pos p) - 53) as Hf.
  { unfold fexp, emin, F64.prec, F64.emax. lia. }
  rewrite Hf. unfold shl_align.
  destruct (Zpos (digits2_pos p) - 53 - 0) as [|k|k] eqn:Hk; [lia|lia|].
  replace (Z.to_pos (53 - Zpos (digits2_pos p))) with k by lia.
  apply binary_round_aux_canonical.
  - rewrite digits2_pos_shift. unfold fexp, emin, F64.prec, F64.emax. lia.
  - unfold F64.prec, F64.emax. lia.
Qed.

(** Converting an array length to double and back gives the length. *)
Lemma to_jsize_of_int (n : Z) :
  0 <= n <= JSIZE_MAX -> to_jsize (F64.of_int n) = Val n.
Proof.
  intros Hn. destruct n as [|p|p]; [done| |lia].
  pose proof (digits2_pos_jsize p ltac:(lia)) as Hd.
  rewrite F64_of_int_explicit by lia. unfold to_jsize, trunc.
  destruct (Z.leb_spec 0 (Zpos (digits2_pos p) - 53)) as [|_]; [lia|].
  rewrite pos_shift_value. rewrite Z2Pos.id by lia.
  replace (- (Zpos (digits2_pos p) - 53)) with (53 - Zpos (digits2_pos p)) by lia.
  rewrite Z.div_mul by (apply Z.pow_nonzero; lia).
  simpl cond_Zopp. unfold JSIZE_MIN, JSIZE_MAX in *.
  destruct (Z.leb_spec (- 2 ^ 31) (Zpos p)); [|lia].
  destruct (Z.leb_spec (Zpos p) (2 ^ 31 - 1)); [done|lia].
Qed.

Lemma digits2_pos_mul (a b : positive) :
  Zpos (digits2_pos a) + Zpos (digits2_pos b) - 1 <= Zpos (digits2_pos (a * b))
  <= Zpos (digits2_pos a) + Zpos (digits2_pos b).
Proof.
  pose proof (digits2_pos_lower a) as Hla. pose proof (digits2_pos_upper a) as Hua.
  pose proof (digits2_pos_lower b) as Hlb. pose proof (digits2_pos_upper b) as Hub.
  pose proof (digits2_pos_lower (a * b)) as Hl.
  pose proof (digits2_pos_upper (a * b)) as Hu.
  rewrite Pos2Z.inj_mul in Hl, Hu.
  set (da := Zpos (digits2_pos a)) in *. set (db := Zpos (digits2_pos b)) in *.
  set (dab := Zpos (digits2_pos (a * b))) in *.
  assert (0 < 2 ^ (da - 1)) by (apply Z.pow_pos_nonneg; lia).
  assert (0 < 2 ^ (db - 1)) by (apply Z.pow_pos_nonneg; lia).
  assert (2 ^ (da - 1) * 2 ^ (db - 1) = 2 ^ (da + db - 2)) as Hlow
    by (rewrite <- Z.pow_add_r by lia; f_equal; lia).
  assert (2 ^ da * 2 ^ db = 2 ^ (da + db)) as Hhigh
    by (rewrite <- Z.pow_add_r by lia; done).
  split.
  - destruct (Z.le_gt_cases (da + db - 1) dab) as [|Hlt]; [done|].
    assert (2 ^ dab <= 2 ^ (da + db - 2)) by (apply Z.pow_le_mono_r; lia). nia.
  - destruct (Z.le_gt_cases dab (da + db)) as [|Hgt]; [done|].
    assert (2 ^ (da + db) <= 2 ^ (dab - 1)) by (apply Z.pow_le_mono_r; lia). nia.
Qed.

Lemma pos_shift_to_pos (p : positive) (k : Z) :
  0 < k -> Zpos (Pos.iter xO p (Z.to_pos k)) = Zpos p * 2 ^ k.
Proof. intros Hk. rewrite pos_shift_value, Z2Pos.id by done. done. Qed.

(** The product of two array-length-sized integers is computed exactly. *)
Lemma F64_mul_ints (a b : positive) :
  Zpos a * Zpos b <= JSIZE_MAX ->
  F64.mul (F64.of_int (Zpos a)) (F64.of_int (Zpos b)) = F64.of_int (Zpos (a * b)).
Proof.
  intros Hab.
  assert (Zpos a <= JSIZE_MAX /\ Zpos b <= JSIZE_MAX) as [Ha Hb] by nia.
  rewrite !F64_of_int_explicit by (rewrite ?Pos2Z.inj_mul; done).
  pose proof (digits2_pos_mul a b) as Hd.
  pose proof (digits2_pos_jsize a Ha) as Hda. pose proof (digits2_pos_jsize b Hb) as Hdb.
  pose proof (digits2_pos_jsize (a * b) ltac:(by rewrite Pos2Z.inj_mul)) as Hdab.
  set (da := Zpos (digits2_pos a)) in *. set (db := Zpos (digits2_pos b)) in *.
  set (dab := Zpos (digits2_pos (a * b))) in *.
  unfold F64.mul, SFmul. simpl xorb.
  set (n := Z.to_pos (dab + 53 - da - db)).
  replace (dab - 53) with (da - 53 + (db - 53) + Zpos n) by lia.
  assert (Zpos (Pos.iter xO a (Z.to_pos (53 - da)) * Pos.iter xO b (Z.to_pos (53 - db)))
          = Zpos (a * b) * 2 ^ (106 - da - db)) as Hval.
  { rewrite Pos2Z.inj_mul, !pos_shift_to_pos by lia.
    replace (106 - da - db) with ((53 - da) + (53 - db)) by lia.
    rewrite Z.pow_add_r by lia. rewrite Pos2Z.inj_mul. lia. }
  apply binary_round_aux_exact.
  - assert (Pos.iter xO a (Z.to_pos (53 - da)) * Pos.iter xO b (Z.to_pos (53 - db))
            = Pos.iter xO (a * b) (Z.to_pos (106 - da - db)))%positive as ->
      by (apply Pos2Z.inj; rewrite Hval, pos_shift_to_pos by lia; done).
    rewrite digits2_pos_shift. fold dab.
    unfold fexp, emin, F64.prec, F64.emax. lia.
  - rewrite Hval, pos_shift_to_pos by lia.
    replace (106 - da - db) with ((53 - dab) + Zpos n) by lia.
    rewrite Z.pow_add_r by lia. lia.
  - unfold F64.prec, F64.emax. lia.
Qed.

Lemma div_eucl_exact (q b : Z) : b <> 0 -> Z.div_eucl (q * b) b = (q, 0).
Proof.
  intros Hb. pose proof (Z.div_mul q b Hb) as Hq. pose proof (Z.mod_mul q b Hb) as Hr.
  unfold Z.div, Z.modulo in *. destruct (Z.div_eucl (q * b) b) as [q' r']. congruence.
Qed.

(** The quotient of an integer by one of its divisors is computed
    exactly. *)
Lemma F64_div_ints (k s : positive) :
  Zpos k * Zpos s <= JSIZE_MAX ->
  F64.div (F64.of_int (Zpos (k * s))) (F64.of_int (Zpos s)) = F64.of_int (Zpos k).
Proof.
  intros Hks.
  assert (Zpos k <= JSIZE_MAX /\ Zpos s <= JSIZE_MAX) as [Hk Hs] by nia.
  rewrite !F64_of_int_explicit by (rewrite ?Pos2Z.inj_mul; done).
  pose proof (digits2_pos_mul k s) as Hd.
  pose proof (digits2_pos_jsize k Hk) as Hdk. pose proof (digits2_pos_jsize s Hs) as Hds.
  pose proof (digits2_pos_jsize (k * s) ltac:(by rewrite Pos2Z.inj_mul)) as Hdt.
  set (dk := Zpos (digits2_pos k)) in *. set (ds := Zpos (digits2_pos s)) in *.
  set (dt := Zpos (digits2_pos (k * s))) in *.
  unfold F64.div, SFdiv, SFdiv_core_binary. simpl Zdigits2.
  rewrite !digits2_pos_shift. fold dt ds.
  replace (Zpos (digits2_pos (k * s) + Z.to_pos (53 - dt))) with 53 by (fold dt; lia).
  replace (Zpos (digits2_pos s + Z.to_pos (53 - ds))) with 53 by (fold ds; lia).
  replace (Z.min (fexp F64.prec F64.emax (53 + (dt - 53) - (53 + (ds - 53))))
             (dt - 53 - (ds - 53)))
    with (dt - ds - 53) by (unfold fexp, emin, F64.prec, F64.emax; lia).
  replace (dt - 53 - (ds - 53) - (dt - ds - 53)) with 53 by lia.
  cbv iota beta.
  rewrite Z.shiftl_mul_pow2 by lia.
  set (J := 53 - dt + ds).
  assert (Zpos (Pos.iter xO (k * s)%positive (Z.to_pos (53 - dt))) * 2 ^ 53
          = Zpos (Pos.iter xO k (Z.to_pos J)) * Zpos (Pos.iter xO s (Z.to_pos (53 - ds))))
    as ->.
  { rewrite !pos_shift_to_pos by (unfold J; lia). rewrite Pos2Z.inj_mul.
    assert (2 ^ (53 - dt) * 2 ^ 53 = 2 ^ J * 2 ^ (53 - ds)) as Hpow.
    { rewrite <- !Z.pow_add_r by (unfold J; lia). f_equal. unfold J. lia. }
    nia. }
  rewrite div_eucl_exact by done.
  assert (new_location (Zpos (Pos.iter xO s (Z.to_pos (53 - ds)))) 0 = loc_Exact) as ->.
  { unfold new_location, new_location_even, new_location_odd.
    by destruct (Z.even _). }
  simpl xorb.
  destruct (decide (dt = dk + ds)) as [Heq|Hne].
  - replace (Z.to_pos J) with (Z.to_pos (53 - dk)) by (unfold J; f_equal; lia).
    replace (dt - ds - 53) with (dk - 53) by lia.
    apply binary_round_aux_canonical.
    + rewrite digits2_pos_shift. fold dk. unfold fexp, emin, F64.prec, F64.emax. lia.
    + unfold F64.prec, F64.emax. lia.
  - replace (dk - 53) with (dt - ds - 53 + Zpos 1) by lia.
    apply binary_round_aux_exact.
    + rewrite digits2_pos_shift. fold dk. unfold fexp, emin, F64.prec, F64.emax, J. lia.
    + rewrite !pos_shift_to_pos by (unfold J; lia).
      replace J with ((53 - dk) + 1) by (unfold J; lia).
      rewrite Z.pow_add_r by lia. lia.
    + unfold F64.prec, F64.emax. lia.
Qed.

Lemma binary_round_aux_normal_bounds (mz : Z) (e : Z) (l : location) :
  2 ^ 52 <= mz < 2 ^ 54 -> -900 <= e <= 900 ->
  exists m' e',
    binary_round_aux F64.prec F64.emax false mz e l = S754_finite false m' e'
    /\ Zpos m' < 2 ^ 53 /\ e <= e' <= e + 2.
Proof.
  intros Hm He. destruct mz as [|m|m]; [lia| |lia].
  unfold binary_round_aux.
  destruct (shr_fexp_normal m e l Hm ltac:(lia)) as (m1 & r1 & s1 & e1 & -> & Hm1 & He1).
  pose proof (round_nearest_even_range (Zpos m1)
                (loc_of_shr_record {| shr_m := Zpos m1; shr_r := r1; shr_s := s1 |}))
    as Hround.
  simpl shr_m.
  destruct (round_nearest_even (Zpos m1) _) as [|m2|m2]; [lia| |lia].
  destruct (shr_fexp_normal m2 e1 loc_Exact ltac:(lia) ltac:(lia))
    as (m3 & r3 & s3 & e3 & -> & Hm3 & He3).
  simpl shr_m.
  destruct (Z.leb_spec e3 (F64.emax - F64.prec)) as [_|Hbad];
    [|unfold F64.emax, F64.prec in Hbad; lia].
  exists m3, e3. split; [done|lia].
Qed.

(** The quotient of two normal doubles of moderate exponent is a finite
    positive double, with an exponent at most two above the difference. *)
Lemma F64_div_normal (m1 m2 : positive) (e1 e2 : Z) :
  2 ^ 52 <= Zpos m1 < 2 ^ 53 -> 2 ^ 52 <= Zpos m2 < 2 ^ 53 ->
  -100 <= e1 <= 100 -> -100 <= e2 <= 100 ->
  exists m' e',
    F64.div (S754_finite false m1 e1) (S754_finite false m2 e2) = S754_finite false m' e'
    /\ Zpos m' < 2 ^ 53 /\ e1 - e2 - 53 <= e' <= e1 - e2 - 51.
Proof.
  intros Hm1 Hm2 He1 He2.
  unfold F64.div, SFdiv, SFdiv_core_binary. simpl Zdigits2.
  rewrite (digits2_pos_range m1 53), (digits2_pos_range m2 53) by (simpl; lia).
  replace (Z.min (fexp F64.prec F64.emax (53 + e1 - (53 + e2))) (e1 - e2))
    with (e1 - e2 - 53) by (unfold fexp, emin, F64.prec, F64.emax; lia).
  replace (e1 - e2 - (e1 - e2 - 53)) with 53 by lia.
  cbv iota beta.
  assert (Z.shiftl (Zpos m1) 53 = Zpos m1 * 2 ^ 53) as -> by (by rewrite Z.shiftl_mul_pow2).
  pose proof (Z.div_eucl_eq (Zpos m1 * 2 ^ 53) (Zpos m2) ltac:(lia)) as Hdiv.
  pose proof (Z.mod_pos_bound (Zpos m1 * 2 ^ 53) (Zpos m2) ltac:(lia)) as Hmod.
  unfold Z.modulo in Hmod.
  destruct (Z.div_eucl (Zpos m1 * 2 ^ 53) (Zpos m2)) as [q r].
  simpl xorb.
  destruct (binary_round_aux_normal_bounds q (e1 - e2 - 53) (new_location (Zpos m2) r))
    as (m' & e' & Hres & Hm' & He'); [|lia|].
  - assert (2 ^ 53 = 2 * 2 ^ 52) as H53 by reflexivity.
    assert (2 ^ 54 = 4 * 2 ^ 52) as H54 by reflexivity.
    split; nia.
  - exists m', e'. split; [done|lia].
Qed.

Lemma F64_of_int_mantissa (p : positive) :
  Zpos p <= JSIZE_MAX ->
  exists m, F64.of_int (Zpos p) = S754_finite false m (Zpos (digits2_pos p) - 53)
            /\ 2 ^ 52 <= Zpos m < 2 ^ 53.
Proof.
  intros Hp. pose proof (digits2_pos_jsize p Hp) as Hd.
  rewrite F64_of_int_explicit by done. eexists. split; [done|].
  pose proof (digits2_pos_lower (Pos.iter xO p (Z.to_pos (53 - Zpos (digits2_pos p)))))
    as Hl.
  pose proof (digits2_pos_upper (Pos.iter xO p (Z.to_pos (53 - Zpos (digits2_pos p)))))
    as Hu.
  rewrite digits2_pos_shift in Hl, Hu.
  replace (Zpos (digits2_pos p + Z.to_pos (53 - Zpos (digits2_pos p)))) with 53
    in Hl, Hu by lia.
  simpl in Hl. lia.
Qed.

(** A positive double below 2^31 converts to a [jsize]. *)
Lemma to_jsize_small (m : positive) (e : Z) :
  Zpos m < 2 ^ 53 -> e <= -22 -> defined (to_jsize (S754_finite false m e)).
Proof.
  intros Hm He. unfold to_jsize, trunc. simpl cond_Zopp.
  destruct (Z.leb_spec 0 e) as [|_]; [lia|].
  assert (0 < 2 ^ (- e)) as Hpos by (apply Z.pow_pos_nonneg; lia).
  assert (0 <= Zpos m / 2 ^ (- e)) as Hlo by (apply Z.div_pos; lia).
  assert (Zpos m / 2 ^ (- e) < 2 ^ 31) as Hhi.
  { apply Z.div_lt_upper_bound; [done|].
    assert (2 ^ 22 <= 2 ^ (- e)) by (apply Z.pow_le_mono_r; lia).
    assert (2 ^ 53 = 2 ^ 22 * 2 ^ 31) as H53 by reflexivity. nia. }
  unfold JSIZE_MIN, JSIZE_MAX.
  destruct (Z.leb_spec (- 2 ^ 31) (Zpos m / 2 ^ (- e))); [|lia].
  destruct (Z.leb_spec (Zpos m / 2 ^ (- e)) (2 ^ 31 - 1)); [done|lia].
Qed.

(** Dividing a [jsize] by an integer factor of at least 2 gives a double
    that converts back to a [jsize]. *)
Lemma source_position_defined (i : Z) (k : positive) :
  0 <= i <= JSIZE_MAX -> 2 <= Zpos k <= JSIZE_MAX ->
  defined (to_jsize (F64.div (F64.of_int i) (F64.of_int (Zpos k)))).
Proof.
  intros Hi Hk.
  destruct (F64_of_int_mantissa k ltac:(lia)) as (mk & -> & Hmk).
  pose proof (digits2_pos_jsize k ltac:(lia)) as Hdk.
  assert (2 <= Zpos (digits2_pos k)) as Hdk2.
  { pose proof (digits2_pos_upper k) as Hu.
    destruct (Z.le_gt_cases 2 (Zpos (digits2_pos k))) as [|Hlt]; [done|].
    replace (Zpos (digits2_pos k)) with 1 in Hu by lia. simpl in Hu. lia. }
  destruct i as [|p|p]; [done| |lia].
  destruct (F64_of_int_mantissa p ltac:(lia)) as (mi & -> & Hmi).
  pose proof (digits2_pos_jsize p ltac:(lia)) as Hdi.
  destruct (F64_div_normal mi mk (Zpos (digits2_pos p) - 53) (Zpos (digits2_pos k) - 53))
    as (m' & e' & -> & Hm' & He'); [done|done|lia|lia|].
  apply to_jsize_small; [done|lia].
Qed.

(** X19. Upsampling by an integer factor gives exactly that many times
    the samples: for [target_rate = k * source_rate] with [k >= 2] (both
    rates and the product [k * N] within [jint]) the ratio is computed
    exactly, every source position fits a [jsize], and the resampler returns
    a new array of length exactly [k * N]. *)
Theorem resampleAudio_integer_factor (h : heap) (audio_data : jref)
  (audio : list spec_float) (source_rate k : Z) :
  h !! audio_data = Some (FloatArray audio) ->
  0 < source_rate -> 2 <= k -> k * source_rate <= JSIZE_MAX ->
  k * Z.of_nat (length audio) <= JSIZE_MAX ->
  F64.div (F64.of_int (k * source_rate)) (F64.of_int source_rate) = F64.of_int k
  /\ exists out,
      resampleAudio no_faults h audio_data source_rate (k * source_rate)
      = Val (<[fresh (dom h) := FloatArray out]> h, Some (fresh (dom h)))
      /\ Z.of_nat (length out) = k * Z.of_nat (length audio).
Proof.
  intros Ha Hs Hk Hrate Hlen.
  destruct source_rate as [|s|s]; [lia| |lia]. destruct k as [|k|k]; [lia| |lia].
  assert (F64.div (F64.of_int (Zpos k * Zpos s)) (F64.of_int (Zpos s))
          = F64.of_int (Zpos k)) as Hratio by (by apply F64_div_ints).
  split; [done|].
  assert (Zpos k <= JSIZE_MAX) as Hkmax by nia.
  destruct (resampleAudio_run h audio_data audio (Zpos s) (Zpos k * Zpos s)
              (Zpos k * Z.of_nat (length audio)) Ha) as (_ & out & Hrun & Hl & _);
    [nia|lia|lia| | |by exists out].
  - unfold resample_ratio. rewrite Hratio.
    destruct (length audio) as [|n].
    + destruct (F64_of_int_mantissa k Hkmax) as (mk & -> & _). done.
    + change (Z.of_nat (Datatypes.S n)) with (Zpos (Pos.of_succ_nat n)) in *.
      rewrite F64_mul_ints by lia.
      rewrite to_jsize_of_int by (rewrite Pos2Z.inj_mul; lia).
      f_equal. lia.
  - intros i Hi. unfold resample_ratio, source_position. rewrite Hratio.
    apply source_position_defined; lia.
Qed.

Lemma resampleAudio_integer_factor_witness :
  exists out,
    resampleAudio no_faults (single [F32.zero; F32_one; F32_half]) 1%positive 8000
      (2 * 8000)
    = Val (<[fresh (dom (single [F32.zero; F32_one; F32_half])) := FloatArray out]>
             (single [F32.zero; F32_one; F32_half]),
           Some (fresh (dom (single [F32.zero; F32_one; F32_half]))))
    /\ Z.of_nat (length out) = 2 * 3.
Proof.
  destruct (resampleAudio_integer_factor (single [F32.zero; F32_one; F32_half])
              1%positive [F32.zero; F32_one; F32_half] 8000 2) as (_ & out & Hrun & Hlen).
  - reflexivity.
  - lia.
  - lia.
  - unfold JSIZE_MAX. lia.
  - unfold JSIZE_MAX. simpl. lia.
  - exists out. split; [exact Hrun|exact Hlen].
Defined.

(** ** Widening, narrowing and the weights 1 and 0 *)

Lemma F32_bounded_digits (m : positive) (e : Z) :
  bounded F32.prec F32.emax m e = true ->
  Zpos (digits2_pos m) <= 24 /\ -149 <= e <= 104
  /\ fexp F32.prec F32.emax (Zpos (digits2_pos m) + e) = e.
Proof.
  unfold bounded, canonical_mantissa. intros Hb.
  apply andb_true_iff in Hb as [Hc He].
  apply Z.eqb_eq in Hc. apply Z.leb_le in He.
  split; [|split; [|done]];
    unfold fexp, emin, F32.prec, F32.emax in *; lia.
Qed.

(** Widening a float shifts its mantissa up to 53 bits. *)
Lemma F64_of_float_explicit (s : bool) (m : positive) (e : Z) :
  bounded F32.prec F32.emax m e = true ->
  F64.of_float (S754_finite s m e)
  = S754_finite s (Pos.iter xO m (Z.to_pos (53 - Zpos (digits2_pos m))))
      (Zpos (digits2_pos m) + e - 53).
Proof.
  intros Hb. destruct (F32_bounded_digits m e Hb) as (Hd & He & _).
  unfold F64.of_float, binary_round.
  assert (fexp F64.prec F64.emax (Zpos (digits2_pos m) + e)
          = Zpos (digits2_pos m) + e - 53) as ->
    by (unfold fexp, emin, F64.prec, F64.emax; lia).
  unfold shl_align.
  destruct (Zpos (digits2_pos m) + e - 53 - e) as [|k|k] eqn:Hk; [lia|lia|].
  replace (Z.to_pos (53 - Zpos (digits2_pos m))) with k by lia.
  apply binary_round_aux_canonical.
  - rewrite digits2_pos_shift. unfold fexp, emin, F64.prec, F64.emax. lia.
  - unfold F64.prec, F64.emax. lia.
Qed.

(** Widening then narrowing a float gives the float back. *)
Lemma F32_of_double_of_float (x : spec_float) :
  valid_binary F32.prec F32.emax x = true -> F32.of_double (F64.of_float x) = x.
Proof.
  destruct x as [s|s| |s m e]; try done. simpl valid_binary. intros Hb.
  destruct (F32_bounded_digits m e Hb) as (Hd & He & Hc).
  rewrite F64_of_float_explicit by done.
  set (d := Zpos (digits2_pos m)) in *.
  unfold F32.of_double, binary_round.
  rewrite digits2_pos_shift. fold d.
  replace (Zpos (digits2_pos m + Z.to_pos (53 - d))) with 53 by (fold d; lia).
  replace (53 + (d + e - 53)) with (d + e) by lia. rewrite Hc.
  unfold shl_align.
  destruct (e - (d + e - 53)) as [|k|k] eqn:Hk; [lia|clear Hk|lia].
  assert (S754_finite s m e
          = S754_finite s m (d + e - 53 + Zpos (Z.to_pos (53 - d)))) as ->
    by (f_equal; lia).
  apply binary_round_aux_exact.
  - rewrite digits2_pos_shift. fold d.
    replace (Zpos (digits2_pos m + Z.to_pos (53 - d)) + (d + e - 53)) with (d + e)
      by (fold d; lia).
    rewrite Hc. lia.
  - by rewrite pos_shift_value.
  - unfold F32.prec, F32.emax. lia.
Qed.

(** The weight [1.0f - fraction] for a zero fraction, as a double. *)
Lemma weight_one :
  F64.sub (F64.of_float (F32.of_int 1)) (S754_zero false)
  = S754_finite false 4503599627370496 (-52).
Proof. reflexivity. Qed.

(** Multiplying a widened float by 1.0 changes nothing. *)
Lemma F64_mul_one (x : spec_float) :
  valid_binary F32.prec F32.emax x = true ->
  F64.mul (F64.of_float x) (S754_finite false 4503599627370496 (-52)) = F64.of_float x.
Proof.
  destruct x as [[]|[]| |s m e]; try done. simpl valid_binary. intros Hb.
  destruct (F32_bounded_digits m e Hb) as (Hd & He & Hc).
  rewrite F64_of_float_explicit by done.
  set (d := Zpos (digits2_pos m)) in *.
  unfold F64.mul, SFmul. rewrite xorb_false_r.
  assert (S754_finite s (Pos.iter xO m (Z.to_pos (53 - d))) (d + e - 53)
          = S754_finite s (Pos.iter xO m (Z.to_pos (53 - d)))
              (d + e - 53 + -52 + Zpos 52)) as -> by (f_equal; lia).
  apply binary_round_aux_exact.
  - assert (Pos.iter xO m (Z.to_pos (53 - d)) * 4503599627370496
            = Pos.iter xO (Pos.iter xO m (Z.to_pos (53 - d))) 52)%positive as ->
      by (apply Pos2Z.inj; rewrite pos_shift_value, Pos2Z.inj_mul; done).
    rewrite !digits2_pos_shift. fold d.
    unfold fexp, emin, F64.prec, F64.emax. lia.
  - rewrite Pos2Z.inj_mul. done.
  - unfold F64.prec, F64.emax. lia.
Qed.

(** With a zero fraction the interpolation returns its first sample. *)
Lemma interpolate_at_zero (x0 x1 : spec_float) :
  finite_sample x0 -> finite_sample x1 ->
  same_value (interpolate x0 x1 (S754_zero false)) x0.
Proof.
  intros [Hvalid Hfin] [Hvalid1 Hfin1]. unfold interpolate.
  rewrite weight_one, F64_mul_one by done.
  assert (is_zero (F64.mul (F64.of_float x1) (S754_zero false))) as Hzero.
  { destruct x1 as [s1| | |s1 m1 e1]; try done.
    simpl valid_binary in Hvalid1. by rewrite F64_of_float_explicit by done. }
  destruct (F64.mul (F64.of_float x1) (S754_zero false)) as [s1| | |]; try done.
  destruct x0 as [s0| | |s0 m0 e0]; try done.
  - right. by destruct s0, s1.
  - left. rewrite <- (F32_of_double_of_float (S754_finite s0 m0 e0) Hvalid) at 2.
    f_equal. simpl valid_binary in Hvalid.
    by rewrite F64_of_float_explicit by done.
Qed.

Lemma F64_sub_self (n : Z) :
  0 <= n <= JSIZE_MAX -> F64.sub (F64.of_int n) (F64.of_int n) = S754_zero false.
Proof.
  intros Hn. destruct n as [|p|p]; [done| |lia].
  rewrite F64_of_int_explicit by lia.
  unfold F64.sub, SFsub. rewrite Z.min_id. unfold shl_align. rewrite Z.sub_diag.
  cbn [fst cond_Zopp]. reflexivity.
Qed.

(** The source position of output index [k * j] is exactly [j]. *)
Lemma source_position_multiple (k : positive) (j : Z) :
  0 <= j -> Zpos k <= JSIZE_MAX -> Zpos k * j <= JSIZE_MAX ->
  source_position (F64.of_int (Zpos k)) (Zpos k * j) = F64.of_int j.
Proof.
  intros Hj Hk Hkj. unfold source_position.
  destruct j as [|j|j]; [|clear Hj|lia].
  - rewrite Z.mul_0_r.
    destruct (F64_of_int_mantissa k ltac:(lia)) as (mk & -> & _). done.
  - replace (Zpos k * Zpos j) with (Zpos (j * k)) by lia.
    apply F64_div_ints. lia.
Qed.

(** X20. Upsampling by an integer factor keeps the original samples: for
    [target_rate = k * source_rate] with [k >= 2] and a buffer of finite
    samples, output sample [k * j] is input sample [j], for every [j] (up to
    the sign of a zero): the source position is exactly [j], the fraction
    exactly 0, and the interpolation weights exactly 1 and 0. *)
Theorem resampleAudio_keeps_samples (h : heap) (audio_data : jref)
  (audio : list spec_float) (source_rate k : Z) :
  h !! audio_data = Some (FloatArray audio) ->
  0 < source_rate -> 2 <= k -> k * source_rate <= JSIZE_MAX ->
  k * Z.of_nat (length audio) <= JSIZE_MAX ->
  Forall finite_sample audio ->
  exists out,
    resampleAudio no_faults h audio_data source_rate (k * source_rate)
    = Val (<[fresh (dom h) := FloatArray out]> h, Some (fresh (dom h)))
    /\ Z.of_nat (length out) = k * Z.of_nat (length audio)
    /\ forall j x, audio !! j = Some x ->
         exists y, out !! (Z.to_nat k * j)%nat = Some y /\ same_value y x.
Proof.
  intros Ha Hs Hk Hrate Hlen Hfinite.
  destruct source_rate as [|s|s]; [lia| |lia]. destruct k as [|k|k]; [lia| |lia].
  assert (resample_ratio (Zpos s) (Zpos k * Zpos s) = F64.of_int (Zpos k)) as Hratio
    by (by apply F64_div_ints).
  assert (Zpos k <= JSIZE_MAX) as Hkmax by nia.
  destruct (resampleAudio_run h audio_data audio (Zpos s) (Zpos k * Zpos s)
              (Zpos k * Z.of_nat (length audio)) Ha) as (_ & out & Hrun & Hl & Hout);
    [nia|lia|lia| | |].
  - rewrite Hratio. destruct (length audio) as [|n].
    + destruct (F64_of_int_mantissa k Hkmax) as (mk & -> & _). done.
    + change (Z.of_nat (Datatypes.S n)) with (Zpos (Pos.of_succ_nat n)) in *.
      rewrite F64_mul_ints by lia.
      rewrite to_jsize_of_int by (rewrite Pos2Z.inj_mul; lia).
      f_equal. lia.
  - intros i Hi. rewrite Hratio. apply source_position_defined; lia.
  - exists out. split; [done|]. split; [done|].
    intros j x Hx. pose proof (lookup_lt_Some _ _ _ Hx) as Hj.
    destruct (Hout (Zpos k * Z.of_nat j)) as (v & Hv & Hget); [nia|].
    replace (Z.to_nat (Zpos k * Z.of_nat j)) with (Z.to_nat (Zpos k) * j)%nat in Hget
      by lia.
    exists v. split; [done|]. rewrite Hratio in Hv.
    assert (source_position (F64.of_int (Zpos k)) (Zpos k * Z.of_nat j)
            = F64.of_int (Z.of_nat j)) as Hpos
      by (apply source_position_multiple; [lia|done|nia]).
    destruct (resample_sample_value audio (F64.of_int (Zpos k)) (Zpos k * Z.of_nat j)
                (Z.of_nat j)) as (v' & Hv' & Hclamp & Hinner); [lia| |lia|].
    { rewrite Hpos. apply to_jsize_of_int. nia. }
    assert (Val v = Val v') as [= <-] by exact (eq_trans (eq_sym Hv) Hv').
    destruct (decide (j = length audio - 1)%nat) as [Hlast|Hnot].
    + left. specialize (Hclamp ltac:(lia)).
      replace (Z.to_nat (Z.of_nat (length audio) - 1)) with j in Hclamp by lia.
      congruence.
    + destruct Hinner as (x0 & x1 & H0 & H1 & ->); [lia|].
      rewrite Nat2Z.id in H0. assert (x0 = x) as -> by congruence.
      rewrite Hpos, F64_sub_self by nia.
      rewrite Forall_lookup in Hfinite.
      apply interpolate_at_zero; [by apply (Hfinite j)|].
      by apply (Hfinite (Z.to_nat (Z.of_nat j + 1))).
Qed.

Lemma resampleAudio_keeps_samples_witness :
  exists out,
    resampleAudio no_faults (single [F32_0_1; F32_one; F32_half]) 1%positive 8000
      (2 * 8000)
    = Val (<[fresh (dom (single [F32_0_1; F32_one; F32_half])) := FloatArray out]>
             (single [F32_0_1; F32_one; F32_half]),
           Some (fresh (dom (single [F32_0_1; F32_one; F32_half]))))
    /\ Z.of_nat (length out) = 2 * 3.
Proof.
  destruct (resampleAudio_keeps_samples (single [F32_0_1; F32_one; F32_half])
              1%positive [F32_0_1; F32_one; F32_half] 8000 2)
    as (out & Hrun & Hlen & _).
  - reflexivity.
  - lia.
  - lia.
  - unfold JSIZE_MAX. lia.
  - unfold JSIZE_MAX. simpl. lia.
  - repeat constructor.
  - exists out. split; [exact Hrun|exact Hlen].
Defined.

(** * The peak of the normalized buffer *)

(** ** Shifting and rounding to nearest *)

Lemma shr_1_located (N D : Z) :
  0 <= N -> 0 < D -> shr_1 (located N D) = located N (D * 2).
Proof.
  intros HN HD. unfold located, inbetween.
  rewrite <- (Z.div_div N D 2) by lia. rewrite (Z.rem_mul_r N D 2) by lia.
  pose proof (Z.mod_pos_bound N D HD) as Hr.
  pose proof (Z.div_pos N D HN HD) as Hq.
  pose proof (Z.div_mod (N / D) 2 ltac:(lia)) as Hq2.
  pose proof (Z.mod_pos_bound (N / D) 2 ltac:(lia)) as Hr2.
  remember (N / D) as q eqn:Eq. remember (N mod D) as r eqn:Er.
  remember (q / 2) as h eqn:Eh. remember (q mod 2) as b eqn:Eb.
  clear Eq Er Eh Eb.
  assert (b = 0 \/ b = 1) as [-> | ->] by lia.
  - destruct q as [|[p|p|]|]; try lia.
    + assert (h = 0) as -> by lia.
      destruct (Z.eqb_spec r 0) as [->|Hnz].
      * simpl. rewrite Z.mul_0_r. simpl. reflexivity.
      * destruct (Z.eqb_spec (r + D * 0) 0) as [|_]; [lia|].
        destruct (Z.compare_spec (2 * (r + D * 0)) (D * 2)) as [| |]; try lia.
        by destruct (2 * r ?= D).
    + assert (h = Zpos p) as -> by lia.
      destruct (Z.eqb_spec r 0) as [->|Hnz].
      * simpl. rewrite Z.mul_0_r. simpl. reflexivity.
      * destruct (Z.eqb_spec (r + D * 0) 0) as [|_]; [lia|].
        destruct (Z.compare_spec (2 * (r + D * 0)) (D * 2)) as [| |]; try lia.
        by destruct (2 * r ?= D).
  - destruct q as [|[p|p|]|]; try lia.
    + assert (h = Zpos p) as -> by lia.
      destruct (Z.eqb_spec (r + D * 1) 0) as [|_]; [lia|].
      destruct (Z.eqb_spec r 0) as [->|Hnz].
      * destruct (Z.compare_spec (2 * (0 + D * 1)) (D * 2)) as [| |]; try lia. done.
      * destruct (Z.compare_spec (2 * (r + D * 1)) (D * 2)) as [| |]; try lia.
        by destruct (2 * r ?= D).
    + assert (h = 0) as -> by lia.
      destruct (Z.eqb_spec (r + D * 1) 0) as [|_]; [lia|].
      destruct (Z.eqb_spec r 0) as [->|Hnz].
      * destruct (Z.compare_spec (2 * (0 + D * 1)) (D * 2)) as [| |]; try lia. done.
      * destruct (Z.compare_spec (2 * (r + D * 1)) (D * 2)) as [| |]; try lia.
        by destruct (2 * r ?= D).
Qed.

Lemma shr_iter_located (k : nat) (N D : Z) :
  0 <= N -> 0 < D ->
  Nat.iter k shr_1 (located N D) = located N (D * 2 ^ Z.of_nat k).
Proof.
  intros HN HD. induction k as [|k IH].
  - simpl. by rewrite Z.mul_1_r.
  - rewrite Nat.iter_succ, IH, shr_1_located by lia.
    f_equal. rewrite Nat2Z.inj_succ, Z.pow_succ_r by lia. lia.
Qed.

Lemma loc_of_located (N D : Z) : loc_of_shr_record (located N D) = inbetween N D.
Proof. unfold located. by destruct (inbetween N D) as [|[]]. Qed.

Lemma shr_m_located (N D : Z) : shr_m (located N D) = N / D.
Proof. unfold located. by destruct (inbetween N D) as [|[]]. Qed.

Lemma rne_cases (N D : Z) :
  0 < D ->
  let q := N / D in let r := N mod D in
  (2 * r < D /\ rne N D = q)
  \/ (2 * r = D /\ rne N D = (if Z.even q then q else q + 1))
  \/ (D < 2 * r /\ rne N D = q + 1).
Proof.
  intros HD q r. unfold rne, inbetween. fold r. fold q.
  pose proof (Z.mod_pos_bound N D HD) as Hr. fold r in Hr.
  destruct (Z.eqb_spec r 0) as [Hz|Hnz]; [left; simpl; lia|].
  destruct (Z.compare_spec (2 * r) D) as [Heq|Hlt|Hgt]; simpl.
  - right. left. done.
  - left. done.
  - right. right. done.
Qed.

Lemma rne_range (N D : Z) : N / D <= rne N D <= N / D + 1.
Proof.
  unfold rne, round_nearest_even. destruct (inbetween N D) as [|[]]; try lia.
  destruct (Z.even (N / D)); lia.
Qed.

(** Rounding to nearest is off by at most half a unit. *)
Lemma rne_error (N D : Z) : 0 < D -> 2 * Z.abs (rne N D * D - N) <= D.
Proof.
  intros HD. pose proof (Z.div_mod N D ltac:(lia)) as HN.
  destruct (rne_cases N D HD) as [[Hr ->]|[[Hr ->]|[Hr ->]]];
    pose proof (Z.mod_pos_bound N D HD) as Hb.
  - nia.
  - destruct (Z.even (N / D)); nia.
  - nia.
Qed.

Lemma rne_mono (N1 N2 D : Z) : 0 < D -> N1 <= N2 -> rne N1 D <= rne N2 D.
Proof.
  intros HD HN.
  pose proof (Z.div_le_mono N1 N2 D HD HN) as Hq.
  pose proof (rne_range N1 D) as H1. pose proof (rne_range N2 D) as H2.
  destruct (Z.eq_dec (N1 / D) (N2 / D)) as [Heq|Hne]; [|lia].
  pose proof (Z.div_mod N1 D ltac:(lia)) as E1.
  pose proof (Z.div_mod N2 D ltac:(lia)) as E2.
  assert (N1 mod D <= N2 mod D) as Hr by (rewrite Heq in E1; lia).
  destruct (rne_cases N1 D HD) as [[Hr1 ->]|[[Hr1 ->]|[Hr1 ->]]];
  destruct (rne_cases N2 D HD) as [[Hr2 ->]|[[Hr2 ->]|[Hr2 ->]]];
    rewrite ?Heq; try lia; destruct (Z.even (N2 / D)); lia.
Qed.

Lemma rne_scale (N D c : Z) : 0 < D -> 0 < c -> rne (N * c) (D * c) = rne N D.
Proof.
  intros HD Hc. unfold rne, inbetween.
  rewrite Z.div_mul_cancel_r, Z.mul_mod_distr_r by lia.
  destruct (Z.eqb_spec (N mod D * c) 0) as [Hz|Hnz];
    destruct (Z.eqb_spec (N mod D) 0) as [Hz'|Hnz']; [done|nia|nia|].
  destruct (Z.compare_spec (2 * (N mod D * c)) (D * c));
    destruct (Z.compare_spec (2 * (N mod D)) D); done || nia.
Qed.

Lemma Zdigits2_upper (q : Z) : 0 <= q -> q < 2 ^ Zdigits2 q.
Proof.
  intros Hq. destruct q as [|p|p]; [done| |lia]. apply digits2_pos_upper.
Qed.

Lemma Zdigits2_lower (q : Z) : 0 < q -> 2 ^ (Zdigits2 q - 1) <= q.
Proof.
  intros Hq. destruct q as [|p|p]; [lia| |lia]. apply digits2_pos_lower.
Qed.

Lemma Zdigits2_nonneg (q : Z) : 0 <= Zdigits2 q.
Proof. destruct q; simpl; lia. Qed.

(** The mantissa left by shifting into position and rounding. *)
Lemma rne_in_position (N D e : Z) :
  0 <= N -> 0 < D ->
  let E := fexp 24 128 (Zdigits2 (N / D) + e) in
  e <= E ->
  0 <= rne N (D * 2 ^ (E - e)) <= 2 ^ 24
  /\ (-149 < E -> 2 ^ 23 <= rne N (D * 2 ^ (E - e))).
Proof.
  intros HN HD E He.
  pose proof (Z.div_pos N D HN HD) as Hq.
  pose proof (Zdigits2_upper (N / D) Hq) as Hu.
  pose proof (Zdigits2_nonneg (N / D)) as Hd.
  pose proof (rne_range N (D * 2 ^ (E - e))) as Hr.
  rewrite <- Z.div_div in Hr by lia.
  assert (0 < 2 ^ (E - e)) as Hp by (apply Z.pow_pos_nonneg; lia).
  assert (E = Z.max (Zdigits2 (N / D) + e - 24) (-149)) as HE by reflexivity.
  split.
  - split.
    + pose proof (Z.div_pos (N / D) (2 ^ (E - e)) Hq Hp). lia.
    + assert (N / D / 2 ^ (E - e) < 2 ^ 24); [|lia].
      apply Z.div_lt_upper_bound; [done|].
      rewrite <- Z.pow_add_r by lia.
      assert (2 ^ Zdigits2 (N / D) <= 2 ^ (E - e + 24))
        by (apply Z.pow_le_mono_r; lia).
      lia.
  - intros Hnorm.
    assert (E - e = Zdigits2 (N / D) - 24) as Hk by lia.
    assert (0 < N / D) as Hq'.
    { destruct (N / D) as [|p|p]; [simpl in Hk; lia|lia|lia]. }
    pose proof (Zdigits2_lower (N / D) Hq') as Hl.
    assert (2 ^ 23 <= N / D / 2 ^ (E - e)); [|lia].
    apply Z.div_le_lower_bound; [done|].
    rewrite <- Z.pow_add_r by lia.
    replace (E - e + 23) with (Zdigits2 (N / D) - 1) by lia. done.
Qed.

Lemma F32_round_located (s : bool) (N D e : Z) :
  0 <= N -> 0 < D ->
  let E := fexp 24 128 (Zdigits2 (N / D) + e) in
  e <= E ->
  binary_round_aux 24 128 s (N / D) e (inbetween N D)
  = rounded s (rne N (D * 2 ^ (E - e))) E.
Proof.
  intros HN HD E He.
  destruct (rne_in_position N D e HN HD He) as [Hm _]. fold E in Hm.
  assert (-149 <= E) as HE by (unfold E, fexp, emin; lia).
  unfold binary_round_aux.
  assert (shr_fexp 24 128 (N / D) e (inbetween N D)
          = (located N (D * 2 ^ (E - e)), E)) as ->.
  { unfold shr_fexp. fold E. change (shr_record_of_loc (N / D) (inbetween N D))
      with (located N D).
    destruct (E - e) as [|k|k] eqn:Hk; [| |lia]; unfold shr.
    - rewrite Z.mul_1_r. f_equal. lia.
    - rewrite iter_pos_nat, shr_iter_located, positive_nat_Z by done.
      f_equal. lia. }
  rewrite shr_m_located, loc_of_located. fold (rne N (D * 2 ^ (E - e))).
  set (m1 := rne N (D * 2 ^ (E - e))) in *.
  unfold shr_fexp, rounded.
  destruct m1 as [|p|p] eqn:Hm1; [| |lia].
  - simpl Zdigits2.
    destruct (fexp 24 128 (0 + E) - E) as [|k|k] eqn:Hk; simpl; try done.
    unfold fexp, emin in Hk. lia.
  - destruct (Z.eqb_spec (Zpos p) 16777216) as [Hc|Hc].
    + assert (p = 16777216%positive) as -> by lia.
      change (Zdigits2 16777216) with 25.
      assert (fexp 24 128 (25 + E) - E = 1) as -> by (unfold fexp, emin; lia).
      reflexivity.
    + simpl Zdigits2.
      pose proof (digits2_pos_lower p) as Hl.
      assert (Zpos (digits2_pos p) <= 24) as Hd.
      { destruct (Z.le_gt_cases (Zpos (digits2_pos p)) 24) as [|Hgt]; [done|].
        assert (2 ^ 24 <= 2 ^ (Zpos (digits2_pos p) - 1))
          by (apply Z.pow_le_mono_r; lia). lia. }
      destruct (fexp 24 128 (Zpos (digits2_pos p) + E) - E) as [|k|k] eqn:Hk;
        simpl; try done.
      unfold fexp, emin in Hk. lia.
Qed.

(** ** Magnitudes and their order *)

Lemma bounded_range (m : positive) (e : Z) :
  bounded 24 128 m e = true ->
  -149 <= e <= 104 /\ Zpos m < 2 ^ 24 /\ (-149 < e -> 2 ^ 23 <= Zpos m).
Proof.
  unfold bounded, canonical_mantissa, fexp, emin. intros H.
  apply andb_true_iff in H as [Hc He].
  apply Z.eqb_eq in Hc. apply Z.leb_le in He.
  pose proof (digits2_pos_lower m) as Hl. pose proof (digits2_pos_upper m) as Hu.
  assert (Zpos (digits2_pos m) <= 24) as Hd by lia.
  assert (2 ^ Zpos (digits2_pos m) <= 2 ^ 24) by (apply Z.pow_le_mono_r; lia).
  split; [lia|]. split; [lia|]. intros Hn.
  assert (Zpos (digits2_pos m) = 24) as Heq by lia.
  rewrite Heq in Hl. exact Hl.
Qed.

Lemma magnitude_finite_range (m : positive) (e : Z) :
  bounded 24 128 m e = true ->
  0 < Zpos m * 2 ^ (e + 149) < 2 ^ 277.
Proof.
  intros H. destruct (bounded_range m e H) as (He & Hm & _).
  assert (0 < 2 ^ (e + 149)) by (apply Z.pow_pos_nonneg; lia).
  assert (2 ^ (e + 149) <= 2 ^ 253) by (apply Z.pow_le_mono_r; lia).
  assert (2 ^ 277 = 2 ^ 24 * 2 ^ 253) as -> by reflexivity.
  split; [apply Z.mul_pos_pos; lia|].
  apply Z.le_lt_trans with (Zpos m * 2 ^ 253).
  - apply Z.mul_le_mono_nonneg_l; lia.
  - apply Z.mul_lt_mono_pos_r; [done|lia].
Qed.

Lemma magnitude_nonneg (x : spec_float) : 0 <= magnitude x.
Proof.
  destruct x as [s|s| |s m e]; unfold magnitude; [lia|lia|lia|].
  apply Z.mul_nonneg_nonneg; [lia|]. apply Z.pow_nonneg. lia.
Qed.

(** On binary32 magnitudes the comparison of floats is the comparison of
    their values. *)
Lemma SFcompare_magnitude (a b : spec_float) :
  valid_magnitude a -> valid_magnitude b ->
  SFcompare a b = Some (magnitude a ?= magnitude b).
Proof.
  intros [Va Ma] [Vb Mb].
  destruct a as [sa|sa| |sa ma ea], b as [sb|sb| |sb mb eb];
    simpl in Ma, Mb; try done; subst; simpl valid_binary in *; try reflexivity.
  - unfold SFcompare, magnitude. pose proof (magnitude_finite_range mb eb Vb).
    destruct (Z.compare_spec 0 (Zpos mb * 2 ^ (eb + 149))); try lia. done.
  - unfold SFcompare, magnitude. pose proof (magnitude_finite_range mb eb Vb).
    destruct (Z.compare_spec (2 ^ 277) (Zpos mb * 2 ^ (eb + 149))); try lia. done.
  - unfold SFcompare, magnitude. pose proof (magnitude_finite_range ma ea Va).
    destruct (Z.compare_spec (Zpos ma * 2 ^ (ea + 149)) 0); try lia. done.
  - unfold SFcompare, magnitude. pose proof (magnitude_finite_range ma ea Va).
    destruct (Z.compare_spec (Zpos ma * 2 ^ (ea + 149)) (2 ^ 277)); try lia. done.
  - destruct (bounded_range ma ea Va) as (Hea & Hma & Hna).
    destruct (bounded_range mb eb Vb) as (Heb & Hmb & Hnb).
    unfold SFcompare, magnitude. f_equal.
    assert (0 < 2 ^ (ea + 149)) as Pa by (apply Z.pow_pos_nonneg; lia).
    assert (0 < 2 ^ (eb + 149)) as Pb by (apply Z.pow_pos_nonneg; lia).
    destruct (Z.compare_spec ea eb) as [->|Hlt|Hgt].
    + change (Pos.compare_cont Eq ma mb) with (Zpos ma ?= Zpos mb).
      destruct (Z.compare_spec (Zpos ma) (Zpos mb)) as [->|Hm|Hm];
        symmetry; [apply Z.compare_refl|apply Z.compare_lt_iff|apply Z.compare_gt_iff];
        nia.
    + symmetry. apply Z.compare_lt_iff.
      assert (2 ^ (eb + 149) = 2 ^ (ea + 149) * 2 ^ (eb - ea)) as ->
        by (rewrite <- Z.pow_add_r by lia; f_equal; lia).
      assert (2 ^ 1 <= 2 ^ (eb - ea)) as Hq by (apply Z.pow_le_mono_r; lia).
      specialize (Hnb ltac:(lia)).
      change (2 ^ 1) with 2 in Hq. change (2 ^ 24) with (2 * 2 ^ 23) in Hma.
      assert (Zpos ma < Zpos mb * 2 ^ (eb - ea)) by nia. nia.
    + symmetry. apply Z.compare_gt_iff.
      assert (2 ^ (ea + 149) = 2 ^ (eb + 149) * 2 ^ (ea - eb)) as ->
        by (rewrite <- Z.pow_add_r by lia; f_equal; lia).
      assert (2 ^ 1 <= 2 ^ (ea - eb)) as Hq by (apply Z.pow_le_mono_r; lia).
      specialize (Hna ltac:(lia)).
      change (2 ^ 1) with 2 in Hq. change (2 ^ 24) with (2 * 2 ^ 23) in Hmb.
      assert (Zpos mb < Zpos ma * 2 ^ (ea - eb)) by nia. nia.
Qed.

Lemma SFltb_magnitude (a b : spec_float) :
  valid_magnitude a -> valid_magnitude b ->
  SFltb a b = (magnitude a <? magnitude b).
Proof.
  intros Ha Hb. unfold SFltb, Z.ltb. rewrite SFcompare_magnitude by done.
  reflexivity.
Qed.

Lemma SFleb_magnitude (a b : spec_float) :
  valid_magnitude a -> valid_magnitude b ->
  SFleb a b = (magnitude a <=? magnitude b).
Proof.
  intros Ha Hb. unfold SFleb, Z.leb. rewrite SFcompare_magnitude by done.
  by destruct (magnitude a ?= magnitude b).
Qed.

(** Two binary32 magnitudes of the same value are the same number. *)
Lemma magnitude_inj (a b : spec_float) :
  valid_magnitude a -> valid_magnitude b ->
  magnitude a = magnitude b -> a = b.
Proof.
  intros Ha Hb Heq.
  pose proof (SFcompare_magnitude a b Ha Hb) as Hc.
  rewrite Heq, Z.compare_refl in Hc.
  destruct Ha as [_ Ma], Hb as [_ Mb].
  destruct a as [sa|sa| |sa ma ea], b as [sb|sb| |sb mb eb];
    simpl in Ma, Mb; try done; subst; try done.
  simpl in Hc. injection Hc as Hc.
  destruct (Z.compare_spec ea eb) as [->|Hlt|Hgt]; try done.
  change (Pos.compare_cont Eq ma mb) with (Pos.compare ma mb) in Hc.
  apply Pos.compare_eq in Hc. by subst.
Qed.

(** ** Rounded results *)

Lemma rounded_valid (s : bool) (m E : Z) :
  0 <= m <= 2 ^ 24 -> -149 <= E -> (-149 < E -> 2 ^ 23 <= m) ->
  valid_binary 24 128 (rounded s m E) = true.
Proof.
  intros Hm HE Hn. unfold rounded. destruct m as [|p|p]; [done| |done].
  destruct (Z.eqb_spec (Zpos p) 16777216) as [Hc|Hc].
  - destruct (Z.leb_spec (E + 1) 104) as [Hle|Hgt]; [|done].
    unfold valid_binary, bounded, canonical_mantissa.
    change (Zpos (digits2_pos 8388608)) with 24.
    apply andb_true_iff. split; [apply Z.eqb_eq|apply Z.leb_le]; unfold fexp, emin; lia.
  - destruct (Z.leb_spec E 104) as [Hle|Hgt]; [|done].
    unfold valid_binary, bounded, canonical_mantissa.
    apply andb_true_iff. split; [apply Z.eqb_eq|apply Z.leb_le; lia].
    change (2 ^ 24) with 16777216 in Hm.
    destruct (Z.le_gt_cases (2 ^ 23) (Zpos p)) as [Hbig|Hsmall].
    + rewrite (digits2_pos_range p 24) by (simpl; lia). unfold fexp, emin. lia.
    + assert (E = -149) as -> by lia.
      pose proof (digits2_pos_lower p) as Hl.
      assert (Zpos (digits2_pos p) <= 23).
      { destruct (Z.le_gt_cases (Zpos (digits2_pos p)) 23) as [|Hgt]; [done|].
        assert (2 ^ 23 <= 2 ^ (Zpos (digits2_pos p) - 1))
          by (apply Z.pow_le_mono_r; lia). lia. }
      unfold fexp, emin. lia.
Qed.

Lemma magnitude_rounded (s : bool) (m E : Z) :
  0 <= m <= 2 ^ 24 -> -149 <= E -> (-149 < E -> 2 ^ 23 <= m) ->
  magnitude (rounded s m E) = Z.min (m * 2 ^ (E + 149)) (2 ^ 277).
Proof.
  intros Hm HE Hn. unfold rounded. destruct m as [|p|p]; [done| |lia].
  assert (0 < 2 ^ (E + 149)) as HP by (apply Z.pow_pos_nonneg; lia).
  destruct (Z.eqb_spec (Zpos p) 16777216) as [Hc|Hc].
  - rewrite Hc. destruct (Z.leb_spec (E + 1) 104) as [Hle|Hgt]; unfold magnitude.
    + replace (E + 1 + 149) with (Z.succ (E + 149)) by lia.
      rewrite Z.pow_succ_r by lia.
      assert (2 ^ (E + 149) <= 2 ^ 252) by (apply Z.pow_le_mono_r; lia).
      change (2 ^ 277) with (16777216 * 2 * 2 ^ 252). lia.
    + assert (2 ^ 253 <= 2 ^ (E + 149)) by (apply Z.pow_le_mono_r; lia).
      change (2 ^ 277) with (16777216 * 2 ^ 253). lia.
  - change (2 ^ 24) with 16777216 in Hm.
    destruct (Z.leb_spec E 104) as [Hle|Hgt]; unfold magnitude.
    + assert (2 ^ (E + 149) <= 2 ^ 253) by (apply Z.pow_le_mono_r; lia).
      change (2 ^ 277) with (16777216 * 2 ^ 253).
      assert (Zpos p * 2 ^ (E + 149) <= 16777215 * 2 ^ 253)
        by (apply Z.mul_le_mono_nonneg; lia).
      lia.
    + assert (2 ^ 254 <= 2 ^ (E + 149)) by (apply Z.pow_le_mono_r; lia).
      specialize (Hn ltac:(lia)). change (2 ^ 23) with 8388608 in Hn.
      change (2 ^ 277) with (8388608 * 2 ^ 254).
      assert (8388608 * 2 ^ 254 <= Zpos p * 2 ^ (E + 149))
        by (apply Z.mul_le_mono_nonneg; lia).
      lia.
Qed.

Lemma inbetween_unit (N : Z) : inbetween N 1 = loc_Exact.
Proof. unfold inbetween. by rewrite Z.mod_1_r. Qed.

(** Rounding an integer mantissa at exponent [e]. *)
Lemma F32_round_exact (s : bool) (N e : Z) :
  0 <= N ->
  let E := fexp 24 128 (Zdigits2 N + e) in
  e <= E ->
  binary_round_aux 24 128 s N e loc_Exact = rounded s (rne N (2 ^ (E - e))) E
  /\ 0 <= rne N (2 ^ (E - e)) <= 2 ^ 24
  /\ (-149 < E -> 2 ^ 23 <= rne N (2 ^ (E - e))).
Proof.
  intros HN E He.
  pose proof (F32_round_located s N 1 e HN ltac:(lia)) as Hround.
  pose proof (rne_in_position N 1 e HN ltac:(lia)) as Hpos.
  cbv zeta in Hround, Hpos.
  rewrite Z.div_1_r in Hround, Hpos. fold E in Hround, Hpos.
  rewrite inbetween_unit, !Z.mul_1_l in Hround. rewrite !Z.mul_1_l in Hpos.
  split; [by apply Hround|by apply Hpos].
Qed.

(** ** Products *)

Lemma digits2_pos_normal (p : positive) :
  2 ^ 23 <= Zpos p -> 24 <= Zpos (digits2_pos p).
Proof.
  intros Hp. pose proof (digits2_pos_upper p) as Hu.
  destruct (Z.le_gt_cases 24 (Zpos (digits2_pos p))) as [|Hlt]; [done|].
  assert (2 ^ Zpos (digits2_pos p) <= 2 ^ 23) by (apply Z.pow_le_mono_r; lia).
  lia.
Qed.

(** The product of the mantissas of two binary32 numbers never has to be
    shifted left. *)
Lemma mul_in_position (mx ms : positive) (ex es : Z) :
  bounded 24 128 mx ex = true -> bounded 24 128 ms es = true ->
  ex + es <= fexp 24 128 (Zdigits2 (Zpos mx * Zpos ms) + (ex + es)).
Proof.
  intros Hx Hs.
  destruct (bounded_range mx ex Hx) as (Hex & Hmx & Hnx).
  destruct (bounded_range ms es Hs) as (Hes & Hms & Hns).
  change (Zpos mx * Zpos ms) with (Zpos (mx * ms)). simpl Zdigits2.
  unfold fexp, emin.
  destruct (Z.eq_dec ex (-149)) as [->|Hx'];
    [destruct (Z.eq_dec es (-149)) as [->|Hs']; [lia|]|].
  - specialize (Hns ltac:(lia)).
    pose proof (digits2_pos_normal (mx * ms) ltac:(nia)). lia.
  - specialize (Hnx ltac:(lia)).
    pose proof (digits2_pos_normal (mx * ms) ltac:(nia)). lia.
Qed.

(** The product of two finite binary32 numbers. *)
Lemma F32_mul_rounded (sx ss : bool) (mx ms : positive) (ex es : Z) :
  bounded 24 128 mx ex = true -> bounded 24 128 ms es = true ->
  let N := Zpos mx * Zpos ms in
  let E := fexp 24 128 (Zdigits2 N + (ex + es)) in
  SFmul 24 128 (S754_finite sx mx ex) (S754_finite ss ms es)
  = rounded (xorb sx ss) (rne N (2 ^ (E - (ex + es)))) E
  /\ 0 <= rne N (2 ^ (E - (ex + es))) <= 2 ^ 24
  /\ (-149 < E -> 2 ^ 23 <= rne N (2 ^ (E - (ex + es)))).
Proof.
  intros Hx Hs N E. unfold SFmul.
  change (Zpos (mx * ms)) with N.
  apply F32_round_exact; [unfold N; lia|].
  by apply mul_in_position.
Qed.

(** Rounding is monotone: of two positive numbers [N1 * 2^e1 <= N2 * 2^e2]
    the first is not rounded above the second. *)
Lemma round_position_mono (N1 e1 N2 e2 c : Z) :
  0 < N1 -> 0 < N2 -> 0 <= e1 + c -> 0 <= e2 + c ->
  N1 * 2 ^ (e1 + c) <= N2 * 2 ^ (e2 + c) ->
  let E1 := fexp 24 128 (Zdigits2 N1 + e1) in
  let E2 := fexp 24 128 (Zdigits2 N2 + e2) in
  e1 <= E1 -> e2 <= E2 ->
  rne N1 (2 ^ (E1 - e1)) * 2 ^ (E1 + 149) <= rne N2 (2 ^ (E2 - e2)) * 2 ^ (E2 + 149).
Proof.
  intros HN1 HN2 Hc1 Hc2 Hle E1 E2 He1 He2.
  destruct (F32_round_exact false N1 e1 ltac:(lia) He1) as (_ & Hm1 & _).
  destruct (F32_round_exact false N2 e2 ltac:(lia) He2) as (_ & Hm2 & Hn2).
  fold E1 in Hm1. fold E2 in Hm2, Hn2.
  assert (-149 <= E1) as HE1 by (unfold E1, fexp, emin; lia).
  assert (Zdigits2 N1 + e1 <= Zdigits2 N2 + e2) as Hd.
  { pose proof (Zdigits2_lower N1 HN1) as Hl. pose proof (Zdigits2_upper N2 ltac:(lia)) as Hu.
    assert (0 < Zdigits2 N1) by (destruct N1; simpl; lia).
    pose proof (Zdigits2_nonneg N2).
    assert (0 < 2 ^ (e1 + c)) by (apply Z.pow_pos_nonneg; lia).
    assert (0 < 2 ^ (e2 + c)) by (apply Z.pow_pos_nonneg; lia).
    assert (2 ^ (Zdigits2 N1 - 1 + (e1 + c)) < 2 ^ (Zdigits2 N2 + (e2 + c))) as Hp.
    { rewrite (Z.pow_add_r 2 (Zdigits2 N1 - 1) (e1 + c)),
        (Z.pow_add_r 2 (Zdigits2 N2) (e2 + c)) by lia.
      apply Z.le_lt_trans with (N1 * 2 ^ (e1 + c));
        [apply Z.mul_le_mono_nonneg_r; lia|].
      apply Z.le_lt_trans with (N2 * 2 ^ (e2 + c)); [done|].
      apply Z.mul_lt_mono_pos_r; lia. }
    apply Z.pow_lt_mono_r_iff in Hp; lia. }
  assert (E1 <= E2) as HE by (unfold E1, E2, fexp; lia).
  destruct (Z.eq_dec E1 E2) as [Heq|Hne].
  - rewrite <- Heq in *.
    assert (0 < 2 ^ (E1 + 149)) by (apply Z.pow_pos_nonneg; lia).
    apply Z.mul_le_mono_nonneg_r; [lia|].
    assert (0 < 2 ^ (E1 - e1)) as K1 by (apply Z.pow_pos_nonneg; lia).
    assert (0 < 2 ^ (E1 - e2)) as K2 by (apply Z.pow_pos_nonneg; lia).
    rewrite <- (rne_scale N1 (2 ^ (E1 - e1)) (2 ^ (E1 - e2))) by done.
    rewrite <- (rne_scale N2 (2 ^ (E1 - e2)) (2 ^ (E1 - e1))) by done.
    rewrite (Z.mul_comm (2 ^ (E1 - e2)) (2 ^ (E1 - e1))).
    apply rne_mono; [lia|].
    assert (0 < 2 ^ (E1 + c)) as G by (apply Z.pow_pos_nonneg; lia).
    apply (Z.mul_le_mono_pos_r _ _ (2 ^ (E1 + c)) G).
    assert (2 ^ (E1 + c) = 2 ^ (e1 + c) * 2 ^ (E1 - e1)) as G1
      by (rewrite <- Z.pow_add_r by lia; f_equal; lia).
    assert (2 ^ (E1 + c) = 2 ^ (e2 + c) * 2 ^ (E1 - e2)) as G2
      by (rewrite <- Z.pow_add_r by lia; f_equal; lia).
    rewrite G1 at 1. rewrite G2.
    replace (N1 * 2 ^ (E1 - e2) * (2 ^ (e1 + c) * 2 ^ (E1 - e1)))
      with (N1 * 2 ^ (e1 + c) * (2 ^ (E1 - e1) * 2 ^ (E1 - e2))) by lia.
    replace (N2 * 2 ^ (E1 - e1) * (2 ^ (e2 + c) * 2 ^ (E1 - e2)))
      with (N2 * 2 ^ (e2 + c) * (2 ^ (E1 - e1) * 2 ^ (E1 - e2))) by lia.
    apply Z.mul_le_mono_nonneg_r; [lia|done].
  - specialize (Hn2 ltac:(lia)).
    assert (0 < 2 ^ (E1 + 149)) as P1 by (apply Z.pow_pos_nonneg; lia).
    assert (2 ^ (E2 + 149) = 2 ^ (E1 + 149) * 2 ^ (E2 - E1)) as ->
      by (rewrite <- Z.pow_add_r by lia; f_equal; lia).
    assert (2 ^ 1 <= 2 ^ (E2 - E1)) as Hq by (apply Z.pow_le_mono_r; lia).
    change (2 ^ 1) with 2 in Hq. change (2 ^ 24) with (2 * 2 ^ 23) in Hm1.
    assert (rne N1 (2 ^ (E1 - e1)) <= rne N2 (2 ^ (E2 - e2)) * 2 ^ (E2 - E1)) by nia.
    nia.
Qed.

Lemma magnitude_abs (x : spec_float) : magnitude (F32.abs x) = magnitude x.
Proof. by destruct x. Qed.

Lemma rounded_not_nan (s : bool) (m E : Z) : rounded s m E <> S754_nan.
Proof.
  unfold rounded. destruct m as [|p|p]; [done| |done].
  destruct (Z.pos p =? 16777216), (E + 1 <=? 104), (E <=? 104); done.
Qed.

Lemma valid_magnitude_abs (x : spec_float) :
  valid_binary 24 128 x = true -> x <> S754_nan -> valid_magnitude (F32.abs x).
Proof. intros Hv Hn. by destruct x. Qed.

(** The product of two finite binary32 numbers is a binary32 number or an
    infinity, never NaN. *)
Lemma F32_mul_valid (x scale : spec_float) :
  finite_sample x -> finite_sample scale ->
  valid_magnitude (F32.abs (F32.mul x scale)).
Proof.
  intros [Vx Fx] [Vs Fs].
  destruct x as [sx|sx| |sx mx ex], scale as [ss|ss| |ss ms es]; try done.
  destruct (F32_mul_rounded sx ss mx ms ex es Vx Vs) as (Hmul & Hm & Hn).
  unfold F32.mul, F32.prec, F32.emax. rewrite Hmul.
  apply valid_magnitude_abs; [|apply rounded_not_nan].
  apply rounded_valid; [done| |done]. unfold fexp, emin. lia.
Qed.

(** Scaling keeps the order of magnitudes: a sample no larger than another
    is, scaled and rounded, still no larger. *)
Lemma F32_mul_magnitude_mono (x y scale : spec_float) :
  finite_sample x -> finite_sample y -> finite_sample scale ->
  magnitude x <= magnitude y ->
  magnitude (F32.mul x scale) <= magnitude (F32.mul y scale).
Proof.
  intros [Vx Fx] [Vy Fy] [Vs Fs] Hle.
  destruct scale as [ss|ss| |ss ms es]; try done.
  { destruct x, y; try done. }
  destruct x as [sx|sx| |sx mx ex]; try done.
  { apply magnitude_nonneg. }
  destruct y as [sy|sy| |sy my ey]; try done.
  { pose proof (magnitude_finite_range mx ex Vx). simpl in Hle. lia. }
  destruct (F32_mul_rounded sx ss mx ms ex es Vx Vs) as (Hx & Hmx & Hnx).
  destruct (F32_mul_rounded sy ss my ms ey es Vy Vs) as (Hy & Hmy & Hny).
  unfold F32.mul, F32.prec, F32.emax. rewrite Hx, Hy.
  rewrite !magnitude_rounded by (done || unfold fexp, emin; lia).
  apply Z.min_le_compat_r.
  destruct (bounded_range mx ex Vx) as (Hex & _).
  destruct (bounded_range my ey Vy) as (Hey & _).
  destruct (bounded_range ms es Vs) as (Hes & _).
  apply (round_position_mono _ _ _ _ 298); try lia.
  - replace (ex + es + 298) with ((ex + 149) + (es + 149)) by lia.
    replace (ey + es + 298) with ((ey + 149) + (es + 149)) by lia.
    rewrite (Z.pow_add_r 2 (ex + 149) (es + 149)),
      (Z.pow_add_r 2 (ey + 149) (es + 149)) by lia.
    simpl in Hle.
    assert (0 < Zpos ms * 2 ^ (es + 149))
      by (apply Z.mul_pos_pos; [lia|apply Z.pow_pos_nonneg; lia]).
    replace (Zpos mx * Zpos ms * (2 ^ (ex + 149) * 2 ^ (es + 149)))
      with (Zpos mx * 2 ^ (ex + 149) * (Zpos ms * 2 ^ (es + 149))) by lia.
    replace (Zpos my * Zpos ms * (2 ^ (ey + 149) * 2 ^ (es + 149)))
      with (Zpos my * 2 ^ (ey + 149) * (Zpos ms * 2 ^ (es + 149))) by lia.
    apply Z.mul_le_mono_nonneg_r; lia.
  - by apply mul_in_position.
  - by apply mul_in_position.
Qed.

(** The peak scan of a buffer of binary32 numbers without NaN: an upper
    bound of the magnitudes, and one of them (or the initial 0). *)
Lemma peak_fold_magnitude (audio : list spec_float) (acc : spec_float) :
  valid_magnitude acc ->
  Forall (fun x => valid_magnitude (F32.abs x)) audio ->
  let r := fold_left
    (fun max_val x => if F32.ltb max_val (F32.abs x) then F32.abs x else max_val)
    audio acc in
  valid_magnitude r
  /\ magnitude acc <= magnitude r
  /\ (forall x, x ∈ audio -> magnitude x <= magnitude r)
  /\ (r = acc \/ exists x, x ∈ audio /\ r = F32.abs x).
Proof.
  intros Hacc Hall. revert acc Hacc.
  induction Hall as [|x audio Hx Hall IH]; intros acc Hacc; cbn [fold_left].
  - split; [done|]. split; [lia|]. split; [|by left].
    intros x Hx. by apply elem_of_nil in Hx.
  - assert (F32.ltb acc (F32.abs x) = (magnitude acc <? magnitude x)) as ->
      by (unfold F32.ltb; by rewrite SFltb_magnitude, magnitude_abs).
    destruct (Z.ltb_spec (magnitude acc) (magnitude x)) as [Hlt|Hge].
    + destruct (IH (F32.abs x) Hx) as (Hv & Hle & Hub & Hr).
      rewrite magnitude_abs in Hle.
      split; [done|]. split; [lia|]. split.
      * intros z Hz. apply elem_of_cons in Hz as [->|Hz]; [done|by apply Hub].
      * right. destruct Hr as [->|(z & Hz & ->)].
        -- exists x. split; [by left|done].
        -- exists z. split; [by right|done].
    + destruct (IH acc Hacc) as (Hv & Hle & Hub & Hr).
      split; [done|]. split; [done|]. split.
      * intros z Hz. apply elem_of_cons in Hz as [->|Hz]; [lia|by apply Hub].
      * destruct Hr as [->|(z & Hz & ->)]; [by left|].
        right. exists z. split; [by right|done].
Qed.

(** ** Quotients, and the error of one rounding *)

Lemma new_location_inbetween (N D : Z) :
  0 < D -> new_location D (N mod D) = inbetween N D.
Proof.
  intros HD. pose proof (Z.mod_pos_bound N D HD) as Hr.
  unfold new_location, new_location_even, new_location_odd, inbetween.
  destruct (Z.even D) eqn:Hev; [done|].
  destruct (Z.eqb_spec (N mod D) 0) as [|Hnz]; [done|]. f_equal.
  assert (Z.odd D = true) as Hodd by (by rewrite <- Z.negb_even, Hev).
  apply Z.odd_spec in Hodd as [k Hk].
  destruct (Z.compare_spec (2 * (N mod D) + 1) D);
    destruct (Z.compare_spec (2 * (N mod D)) D); done || lia.
Qed.

Lemma div_eucl_div_mod (N D : Z) : Z.div_eucl N D = (N / D, N mod D).
Proof. unfold Z.div, Z.modulo. by destruct (Z.div_eucl N D). Qed.

Lemma abs_scale (a b d G : Z) :
  0 <= G -> 2 * Z.abs (a - b) <= d -> 2 * Z.abs (a * G - b * G) <= d * G.
Proof.
  intros HG H. rewrite <- Z.mul_sub_distr_r, Z.abs_mul, (Z.abs_eq G) by done.
  rewrite Z.mul_assoc. by apply Z.mul_le_mono_nonneg_r.
Qed.

(** The quotient of two finite binary32 numbers: a rounded mantissa [m] at
    an exponent [E], within half a unit [2^E] of the exact quotient (the
    bound is stated multiplied by the divisor, in units of [2^-298]). *)
Lemma F32_div_rounded (sL sM : bool) (mL mM : positive) (eL eM : Z) :
  bounded 24 128 mL eL = true -> bounded 24 128 mM eM = true ->
  exists m E,
    SFdiv 24 128 (S754_finite sL mL eL) (S754_finite sM mM eM)
    = rounded (xorb sL sM) m E
    /\ 0 <= m <= 2 ^ 24 /\ -149 <= E /\ (-149 < E -> 2 ^ 23 <= m)
    /\ 2 * Z.abs (m * 2 ^ (E + 149) * (Zpos mM * 2 ^ (eM + 149))
                  - Zpos mL * 2 ^ (eL + 149) * 2 ^ 149)
       <= 2 ^ (E + 149) * (Zpos mM * 2 ^ (eM + 149)).
Proof.
  intros HL HM.
  destruct (bounded_range mL eL HL) as (HeL & HmL & _).
  destruct (bounded_range mM eM HM) as (HeM & HmM & _).
  unfold SFdiv, SFdiv_core_binary. simpl Zdigits2.
  set (e' := Z.min (fexp 24 128 (Zpos (digits2_pos mL) + eL - (Zpos (digits2_pos mM) + eM)))
                   (eL - eM)).
  set (s := eL - eM - e').
  assert (0 <= s) as Hs by (unfold s, e'; lia).
  assert (match s with
          | 0 => Zpos mL
          | Zpos _ => Z.shiftl (Zpos mL) s
          | Zneg _ => 0
          end = Zpos mL * 2 ^ s) as ->.
  { destruct s as [|p|p] eqn:Hp; [lia| |lia]. by rewrite Z.shiftl_mul_pow2. }
  set (N := Zpos mL * 2 ^ s).
  assert (0 < 2 ^ s) as Hps by (apply Z.pow_pos_nonneg; lia).
  assert (0 < N) as HN by (unfold N; lia).
  rewrite div_eucl_div_mod, new_location_inbetween by done.
  set (E := fexp 24 128 (Zdigits2 (N / Zpos mM) + e')).
  assert (-149 <= E) as HE by (unfold E, fexp, emin; lia).
  assert (e' <= E) as He'.
  { destruct (Z.le_gt_cases e' (-149)) as [|Hbig]; [lia|].
    assert (Zpos (digits2_pos mM) - Zpos (digits2_pos mL) + 24 <= s) as Hs'
      by (unfold s, e', fexp, emin in *; lia).
    pose proof (digits2_pos_lower mL) as Hl. pose proof (digits2_pos_upper mM) as Hu.
    assert (2 ^ 23 <= N / Zpos mM) as Hq.
    { apply Z.div_le_lower_bound; [done|].
      apply Z.le_trans with (2 ^ (Zpos (digits2_pos mL) - 1) * 2 ^ s);
        [|apply Z.mul_le_mono_nonneg_r; lia].
      rewrite <- Z.pow_add_r by lia.
      apply Z.le_trans with (2 ^ Zpos (digits2_pos mM) * 2 ^ 23);
        [apply Z.mul_le_mono_nonneg; lia|].
      rewrite <- Z.pow_add_r by lia. apply Z.pow_le_mono_r; lia. }
    pose proof (Zdigits2_upper (N / Zpos mM) ltac:(lia)) as Hdq.
    assert (24 <= Zdigits2 (N / Zpos mM)).
    { destruct (Z.le_gt_cases 24 (Zdigits2 (N / Zpos mM))) as [|Hlt]; [done|].
      pose proof (Zdigits2_nonneg (N / Zpos mM)).
      assert (2 ^ Zdigits2 (N / Zpos mM) <= 2 ^ 23) by (apply Z.pow_le_mono_r; lia).
      lia. }
    unfold E, fexp. lia. }
  exists (rne N (Zpos mM * 2 ^ (E - e'))), E.
  destruct (rne_in_position N (Zpos mM) e' ltac:(lia) ltac:(lia) He') as [Hm Hn].
  fold E in Hm, Hn.
  split; [by apply F32_round_located; [lia|lia|]|].
  split; [done|]. split; [done|]. split; [done|].
  assert (0 < 2 ^ (E - e')) as Hk by (apply Z.pow_pos_nonneg; lia).
  pose proof (rne_error N (Zpos mM * 2 ^ (E - e')) ltac:(lia)) as Herr.
  set (m := rne N (Zpos mM * 2 ^ (E - e'))) in *.
  assert (0 <= e' + eM + 298) as Hg by (unfold e', fexp, emin; lia).
  apply (abs_scale _ _ _ (2 ^ (e' + eM + 298))) in Herr;
    [|apply Z.pow_nonneg; lia].
  assert (2 ^ (E + 149) * 2 ^ (eM + 149) = 2 ^ (E - e') * 2 ^ (e' + eM + 298)) as HG1
    by (rewrite <- !Z.pow_add_r by lia; f_equal; lia).
  assert (2 ^ (eL + 149) * 2 ^ 149 = 2 ^ s * 2 ^ (e' + eM + 298)) as HG2
    by (rewrite <- !Z.pow_add_r by lia; f_equal; unfold s; lia).
  replace (m * 2 ^ (E + 149) * (Zpos mM * 2 ^ (eM + 149)))
    with (m * Zpos mM * (2 ^ (E + 149) * 2 ^ (eM + 149))) by lia.
  replace (Zpos mL * 2 ^ (eL + 149) * 2 ^ 149)
    with (Zpos mL * (2 ^ (eL + 149) * 2 ^ 149)) by lia.
  replace (2 ^ (E + 149) * (Zpos mM * 2 ^ (eM + 149)))
    with (Zpos mM * (2 ^ (E + 149) * 2 ^ (eM + 149))) by lia.
  rewrite HG1, HG2.
  replace (m * Zpos mM * (2 ^ (E - e') * 2 ^ (e' + eM + 298)))
    with (m * (Zpos mM * 2 ^ (E - e')) * 2 ^ (e' + eM + 298)) by lia.
  replace (Zpos mL * (2 ^ s * 2 ^ (e' + eM + 298)))
    with (N * 2 ^ (e' + eM + 298)) by (unfold N; lia).
  replace (Zpos mM * (2 ^ (E - e') * 2 ^ (e' + eM + 298)))
    with (Zpos mM * 2 ^ (E - e') * 2 ^ (e' + eM + 298)) by lia.
  exact Herr.
Qed.

(** The product of two finite binary32 numbers, with its rounding error
    (in units of [2^-298]). *)
Lemma F32_mul_error (sx ss : bool) (mx ms : positive) (ex es : Z) :
  bounded 24 128 mx ex = true -> bounded 24 128 ms es = true ->
  exists m E,
    SFmul 24 128 (S754_finite sx mx ex) (S754_finite ss ms es)
    = rounded (xorb sx ss) m E
    /\ 0 <= m <= 2 ^ 24 /\ -149 <= E /\ (-149 < E -> 2 ^ 23 <= m)
    /\ 2 * Z.abs (m * 2 ^ (E + 149) * 2 ^ 149
                  - Zpos mx * 2 ^ (ex + 149) * (Zpos ms * 2 ^ (es + 149)))
       <= 2 ^ (E + 149) * 2 ^ 149.
Proof.
  intros Hx Hs.
  destruct (bounded_range mx ex Hx) as (Hex & _).
  destruct (bounded_range ms es Hs) as (Hes & _).
  destruct (F32_mul_rounded sx ss mx ms ex es Hx Hs) as (Hmul & Hm & Hn).
  pose proof (mul_in_position mx ms ex es Hx Hs) as Hpos.
  set (N := Zpos mx * Zpos ms) in *.
  set (E := fexp 24 128 (Zdigits2 N + (ex + es))) in *.
  assert (-149 <= E) as HE by (unfold E, fexp, emin; lia).
  exists (rne N (2 ^ (E - (ex + es)))), E.
  split; [done|]. split; [done|]. split; [done|]. split; [done|].
  assert (0 < 2 ^ (E - (ex + es))) as Hk by (apply Z.pow_pos_nonneg; lia).
  pose proof (rne_error N (2 ^ (E - (ex + es))) Hk) as Herr.
  set (m := rne N (2 ^ (E - (ex + es)))) in *.
  apply (abs_scale _ _ _ (2 ^ (ex + es + 298))) in Herr;
    [|apply Z.pow_nonneg; lia].
  assert (2 ^ (E + 149) * 2 ^ 149 = 2 ^ (E - (ex + es)) * 2 ^ (ex + es + 298)) as HG1
    by (rewrite <- !Z.pow_add_r by lia; f_equal; lia).
  assert (2 ^ (ex + 149) * 2 ^ (es + 149) = 2 ^ (ex + es + 298)) as HG2
    by (rewrite <- !Z.pow_add_r by lia; f_equal; lia).
  replace (m * 2 ^ (E + 149) * 2 ^ 149)
    with (m * (2 ^ (E + 149) * 2 ^ 149)) by lia.
  replace (Zpos mx * 2 ^ (ex + 149) * (Zpos ms * 2 ^ (es + 149)))
    with (N * (2 ^ (ex + 149) * 2 ^ (es + 149))) by (unfold N; lia).
  rewrite HG1, HG2.
  replace (m * (2 ^ (E - (ex + es)) * 2 ^ (ex + es + 298)))
    with (m * 2 ^ (E - (ex + es)) * 2 ^ (ex + es + 298)) by lia.
  exact Herr.
Qed.

Lemma rounded_normal (s : bool) (m E : Z) :
  0 <= m <= 2 ^ 24 -> -149 <= E -> (-149 < E -> 2 ^ 23 <= m) ->
  normal_number (rounded s m E) ->
  2 ^ 23 <= m /\ magnitude (rounded s m E) = m * 2 ^ (E + 149)
  /\ exists ms es, rounded s m E = S754_finite s ms es /\ bounded 24 128 ms es = true.
Proof.
  intros Hm HE Hn Hnorm.
  pose proof (rounded_valid s m E Hm HE Hn) as Hv.
  pose proof (magnitude_rounded s m E Hm HE Hn) as Hmag.
  unfold rounded in *. destruct m as [|p|p]; [done| |done].
  destruct (Z.eqb_spec (Zpos p) 16777216) as [Hc|Hc].
  - destruct (Z.leb_spec (E + 1) 104) as [Hle|Hgt]; [|done].
    pose proof (magnitude_finite_range _ _ Hv) as Hr. unfold magnitude in Hmag.
    split; [lia|]. split; [unfold magnitude; lia|]. by eexists _, _.
  - destruct (Z.leb_spec E 104) as [Hle|Hgt]; [|done].
    pose proof (magnitude_finite_range _ _ Hv) as Hr. unfold magnitude in Hmag.
    split; [exact Hnorm|]. split; [unfold magnitude; lia|]. by eexists _, _.
Qed.

(** A rounded result is finite exactly when its value is below [2^128]. *)
Lemma rounded_finite (s : bool) (m E : Z) :
  0 <= m <= 2 ^ 24 -> -149 <= E -> (-149 < E -> 2 ^ 23 <= m) ->
  is_finite (rounded s m E) <-> m * 2 ^ (E + 149) < 2 ^ 277.
Proof.
  intros Hm HE Hn.
  pose proof (rounded_valid s m E Hm HE Hn) as Hv.
  pose proof (magnitude_rounded s m E Hm HE Hn) as Hmag.
  destruct (rounded s m E) as [s'|s'| |s' m' e'] eqn:Hr.
  - simpl in Hmag. split; [lia|done].
  - unfold magnitude in Hmag. split; [done|lia].
  - by apply rounded_not_nan in Hr.
  - pose proof (magnitude_finite_range m' e' Hv). unfold magnitude in Hmag.
    split; [lia|done].
Qed.

(** Scaling the peak [M] by the rounded quotient [L / M], a normal number:
    the product is finite when [L <= 2^127], and whenever it is finite it is
    within [2^-22 * L] of [L]. *)
Lemma scaled_peak_tolerance (mL mM : positive) (eL eM : Z) :
  bounded 24 128 mL eL = true -> bounded 24 128 mM eM = true ->
  let L := S754_finite false mL eL in
  let M := S754_finite false mM eM in
  normal_number (F32.div L M) ->
  (magnitude L <= 2 ^ 276 -> is_finite (F32.mul M (F32.div L M)))
  /\ (is_finite (F32.mul M (F32.div L M)) ->
      Z.abs (magnitude (F32.mul M (F32.div L M)) - magnitude L) * 2 ^ 22
      <= magnitude L).
Proof.
  intros HL HM L M Hnorm.
  destruct (F32_div_rounded false false mL mM eL eM HL HM)
    as (m1 & E1 & Hdiv & Hm1 & HE1 & Hn1 & Herr1).
  unfold F32.div, F32.mul, F32.prec, F32.emax, L, M in *.
  rewrite Hdiv in *. simpl xorb in *.
  destruct (rounded_normal false m1 E1 Hm1 HE1 Hn1 Hnorm)
    as (Hbig1 & HmagS & mS & eS & HS & HbS).
  rewrite HS in *.
  destruct (F32_mul_error false false mM mS eM eS HM HbS)
    as (mP & EP & Hmul & HmP & HEP & HnP & Herr2).
  rewrite Hmul. simpl xorb.
  rewrite rounded_finite, magnitude_rounded by done.
  unfold magnitude in HmagS |- *.
  pose proof (magnitude_finite_range mM eM HM) as HMpos.
  pose proof (magnitude_finite_range mL eL HL) as HLpos.
  rewrite HmagS in Herr2.
  set (muM := Zpos mM * 2 ^ (eM + 149)) in *.
  set (muL := Zpos mL * 2 ^ (eL + 149)) in *.
  assert (0 < 2 ^ (E1 + 149)) as HX by (apply Z.pow_pos_nonneg; lia).
  assert (0 < 2 ^ (EP + 149)) as HY by (apply Z.pow_pos_nonneg; lia).
  assert (0 < 2 ^ 149) as HT by done.
  set (X := 2 ^ (E1 + 149)) in *. set (Y := 2 ^ (EP + 149)) in *.
  set (T := 2 ^ 149) in *.
  change (2 ^ 24) with 16777216 in *. change (2 ^ 23) with 8388608 in *.
  change (2 ^ 22) with 4194304.
  (* A = scale * peak, B = level, C = the scaled peak, all in units of 2^-298 *)
  set (A := m1 * X * muM) in *. set (B := muL * T) in *.
  assert (16777216 * Z.abs (A - B) <= A) as HAB.
  { assert (8388608 * (X * muM) <= A)
      by (unfold A; rewrite <- Z.mul_assoc; apply Z.mul_le_mono_nonneg_r; nia).
    lia. }
  replace (muM * (m1 * X)) with A in Herr2 by (unfold A; lia).
  assert (Z.abs (mP * Y - muL) * 4194304 <= muL) as Hfin.
  { destruct (Z.le_gt_cases 8388608 mP) as [HbigP|Hsmall].
    - set (C := mP * Y * T) in *.
      assert (16777216 * Z.abs (C - A) <= C) as HCA.
      { assert (8388608 * (Y * T) <= C)
          by (unfold C; rewrite <- Z.mul_assoc; apply Z.mul_le_mono_nonneg_r; nia).
        lia. }
      assert (Z.abs (C - B) * 4194304 <= B) as HCB by lia.
      apply (Z.mul_le_mono_pos_r _ _ T HT).
      replace (Z.abs (mP * Y - muL) * 4194304 * T)
        with (Z.abs (mP * Y - muL) * T * 4194304) by lia.
      rewrite <- (Z.abs_eq T) at 1 by lia. rewrite <- Z.abs_mul.
      replace ((mP * Y - muL) * T) with (C - B) by (unfold C, B; lia).
      exact HCB.
    - assert (EP = -149) as HEP' by lia.
      assert (Y = 1) as HY1 by (unfold Y; by rewrite HEP').
      rewrite HY1 in *. rewrite !Z.mul_1_r in *.
      assert (mP * T <= 8388607 * T) by (apply Z.mul_le_mono_nonneg_r; lia).
      assert (mP = muL) as ->; [|lia].
      destruct (Z.lt_trichotomy mP muL) as [Hlt|[Heq|Hgt]]; [exfalso|done|exfalso].
      + assert ((mP + 1) * T <= B) by (unfold B; apply Z.mul_le_mono_nonneg_r; lia).
        lia.
      + assert ((muL + 1) * T <= mP * T) by (apply Z.mul_le_mono_nonneg_r; lia).
        unfold B in *. lia. }
  assert (2 ^ 277 = 2 * 2 ^ 276) as H277 by reflexivity.
  split.
  - intros Hrange. lia.
  - intros Hfinite. rewrite Z.min_l by lia. exact Hfin.
Qed.

(** ** Normalizer: the peak of the output *)

(** The peak of a buffer of finite samples that is not silent: a finite
    positive binary32 number, the magnitude of one of the samples and an
    upper bound of all of them. *)
Lemma peak_finite (audio : list spec_float) :
  Forall finite_sample audio ->
  F32.eqb (peak audio) F32.zero = false ->
  (exists m e, peak audio = S754_finite false m e /\ bounded 24 128 m e = true)
  /\ (forall x, x ∈ audio -> magnitude x <= magnitude (peak audio))
  /\ (exists x, x ∈ audio /\ F32.abs x = peak audio).
Proof.
  intros Hall Hnz.
  assert (Forall (fun x => valid_magnitude (F32.abs x)) audio) as Hvalid.
  { eapply Forall_impl; [exact Hall|]. intros x [Vx Fx]. by destruct x. }
  destruct (peak_fold_magnitude audio F32.zero ltac:(done) Hvalid)
    as (Hv & _ & Hub & Hr).
  fold (peak audio) in Hv, Hub, Hr.
  destruct Hr as [Hz|(x & Hx & Hpk)]; [by rewrite Hz in Hnz|].
  split; [|split; [done|by exists x]].
  rewrite Forall_forall in Hall. destruct (Hall x Hx) as [Vx Fx].
  rewrite Hpk in Hnz |- *.
  destruct x as [sx|sx| |sx mx ex]; try done. by exists mx, ex.
Qed.

Lemma F32_div_valid (sL sM : bool) (mL mM : positive) (eL eM : Z) :
  bounded 24 128 mL eL = true -> bounded 24 128 mM eM = true ->
  valid_binary 24 128 (F32.div (S754_finite sL mL eL) (S754_finite sM mM eM)) = true.
Proof.
  intros HL HM.
  destruct (F32_div_rounded sL sM mL mM eL eM HL HM) as (m & E & Hdiv & Hm & HE & Hn & _).
  unfold F32.div, F32.prec, F32.emax. rewrite Hdiv. by apply rounded_valid.
Qed.

(** The peak of the scaled buffer. *)
Lemma scaled_peak (audio : list spec_float) (target_level : spec_float) :
  Forall finite_sample audio -> F32.eqb (peak audio) F32.zero = false ->
  finite_sample target_level -> nonneg target_level ->
  let scale := F32.div target_level (peak audio) in
  let out := map (fun x => F32.mul x scale) audio in
  is_finite scale ->
  peak out = F32.abs (F32.mul (peak audio) scale)
  /\ (forall y, y ∈ out -> SFleb (F32.abs y) (peak out) = true)
  /\ (normal_number scale ->
      (magnitude target_level <= 2 ^ 276 -> is_finite (peak out))
      /\ (is_finite (peak out) ->
          Z.abs (magnitude (peak out) - magnitude target_level) * 2 ^ 22
          <= magnitude target_level)).
Proof.
  intros Hall Hnz [VL FL] HL scale out Hfin.
  destruct (peak_finite audio Hall Hnz) as ((mM & eM & Hpk & HM) & Hub & (xj & Hxj & Habs)).
  assert (finite_sample (peak audio)) as HMfin by (by rewrite Hpk).
  assert (finite_sample scale) as Hscale.
  { split; [|done]. unfold scale. rewrite Hpk.
    destruct target_level as [sL|sL| |sL mL eL]; try done.
    by apply F32_div_valid. }
  set (P := F32.abs (F32.mul (peak audio) scale)).
  assert (valid_magnitude P) as HP by (by apply F32_mul_valid).
  assert (Forall (fun y => valid_magnitude (F32.abs y)) out) as Hout.
  { apply Forall_fmap. eapply Forall_impl; [exact Hall|].
    intros x Hx. by apply F32_mul_valid. }
  assert (forall y, y ∈ out -> magnitude y <= magnitude P) as Hbelow.
  { intros y Hy. apply list_elem_of_fmap in Hy as (x & -> & Hx).
    unfold P. rewrite magnitude_abs.
    rewrite Forall_forall in Hall.
    apply F32_mul_magnitude_mono; [by apply Hall|done|done|by apply Hub]. }
  destruct (peak_fold_magnitude out F32.zero ltac:(done) Hout) as (Hv & _ & Hub' & Hr).
  fold (peak out) in Hv, Hub', Hr.
  assert (peak out = P) as Hpeak.
  { apply magnitude_inj; [done|done|].
    apply Z.le_antisymm.
    - destruct Hr as [->|(y & Hy & ->)]; [apply magnitude_nonneg|].
      rewrite magnitude_abs. by apply Hbelow.
    - assert (F32.mul xj scale ∈ out) as Hyj
        by (apply list_elem_of_fmap; by exists xj).
      apply Hub' in Hyj.
      rewrite <- (magnitude_abs (F32.mul xj scale)), F32_abs_mul, Habs in Hyj.
      exact Hyj. }
  split; [done|]. split.
  - intros y Hy. rewrite SFleb_magnitude; [|by rewrite Forall_forall in Hout; apply Hout|done].
    rewrite magnitude_abs. apply Z.leb_le. by apply Hub'.
  - intros Hnorm. rewrite Hpeak. unfold P. rewrite magnitude_abs.
    assert (forall y, is_finite (F32.abs y) <-> is_finite y) as ->
      by (by intros []).
    unfold scale in *. rewrite Hpk in *.
    destruct target_level as [sL|sL| |sL mL eL]; try done.
    simpl in HL. subst sL.
    by apply scaled_peak_tolerance.
Qed.

(** With a scale that is not a normal number the peak need not be near the
    level: for the one-sample buffer [1.5 * 2^24] and level [2^-125] the
    scale rounds up to the smallest subnormal [2^-149], and the output is
    [1.5 * 2^-125], half as much again as the level. *)
Lemma normalizeAudio_subnormal_scale :
  normalize_scale (S754_finite false 8388608 (-148)) [S754_finite false 12582912 1]
  = F32_min_subnormal
  /\ result_array (normalizeAudio no_faults (single [S754_finite false 12582912 1])
                     1%positive (S754_finite false 8388608 (-148)))
     = [S754_finite false 12582912 (-148)].
Proof. by vm_compute. Qed.

(** C3, amended. When the peak scan ends on 0 the normalizer returns the
    reference it was given, heap untouched; otherwise it returns a newly
    allocated buffer with [output[i] = input[i] * (L / max_val)] in single
    precision for all [i]; some sample has magnitude [max_val], and every
    such sample is mapped to magnitude [|max_val * (L / max_val)|].  If all
    samples are finite, [L] is finite and not negative, and the scale
    [L / max_val] does not overflow, the peak of the output is exactly
    [|max_val * (L / max_val)|] and no output sample has a larger magnitude.
    If moreover the scale is a normal number, the peak of the output is
    finite when [L <= 2^127], and whenever it is finite it is within
    [2^-22 * L] of [L].  For [0.2, -0.5, 0.1] at level 1.0 the output is
    [0.4, -1.0, 0.2]. *)
Theorem normalizeAudio_spec (h : heap) (audio_data : jref)
  (audio : list spec_float) (target_level : spec_float) :
  h !! audio_data = Some (FloatArray audio) ->
  let max_val := peak audio in
  let scale := F32.div target_level max_val in
  (F32.eqb max_val F32.zero = true ->
     normalizeAudio no_faults h audio_data target_level = Val (h, Some audio_data))
  /\ (F32.eqb max_val F32.zero = false ->
      exists out,
        normalizeAudio no_faults h audio_data target_level
        = Val (<[fresh (dom h) := FloatArray out]> h, Some (fresh (dom h)))
        /\ length out = length audio
        /\ (forall i x, audio !! i = Some x -> out !! i = Some (F32.mul x scale))
        /\ (exists j x, audio !! j = Some x /\ F32.abs x = max_val)
        /\ (forall j x, audio !! j = Some x -> F32.abs x = max_val ->
              exists y, out !! j = Some y
                /\ F32.abs y = F32.abs (F32.mul max_val scale))
        /\ (Forall finite_sample audio ->
            finite_sample target_level -> nonneg target_level ->
            is_finite scale ->
            peak out = F32.abs (F32.mul max_val scale)
            /\ (forall i y, out !! i = Some y ->
                  SFleb (F32.abs y) (peak out) = true)
            /\ (normal_number scale ->
                (magnitude target_level <= 2 ^ 276 -> is_finite (peak out))
                /\ (is_finite (peak out) ->
                    Z.abs (magnitude (peak out) - magnitude target_level) * 2 ^ 22
                    <= magnitude target_level))))
  /\ result_array (normalizeAudio no_faults
                     (single [F32_0_2; F32.opp F32_half; F32_0_1]) 1%positive F32_one)
     = [F32_0_4; F32.opp F32_one; F32_0_2].
Proof.
  intros Ha max_val scale. split; [|split; [|by vm_compute]].
  - intros Hz. rewrite (normalizeAudio_scan _ _ _ audio) by done.
    fold max_val. by rewrite Hz.
  - intros Hnz. eexists. split; [by apply normalizeAudio_scaled|].
    unfold normalize_scale. fold max_val. fold scale.
    split; [by rewrite length_map|]. split; [|split; [|split]].
    + intros i x Hx. by rewrite list_lookup_fmap, Hx.
    + by apply peak_attained.
    + intros j x Hx Habs. eexists. split; [by rewrite list_lookup_fmap, Hx|].
      by rewrite F32_abs_mul, Habs.
    + intros Hall HL Hnonneg Hfin.
      destruct (scaled_peak audio target_level Hall Hnz HL Hnonneg Hfin)
        as (Hpeak & Hbelow & Htol).
      split; [exact Hpeak|]. split; [|exact Htol].
      intros i y Hy. apply Hbelow. by apply list_elem_of_lookup_2 in Hy.
Qed.

Lemma normalizeAudio_spec_witness :
  exists out,
    normalizeAudio no_faults (single [F32_0_2; F32.opp F32_half; F32_0_1]) 1%positive
      F32_one
    = Val (<[fresh (dom (single [F32_0_2; F32.opp F32_half; F32_0_1])) := FloatArray out]>
             (single [F32_0_2; F32.opp F32_half; F32_0_1]),
           Some (fresh (dom (single [F32_0_2; F32.opp F32_half; F32_0_1]))))
    /\ length out = 3%nat
    /\ peak out = F32_one
    /\ Z.abs (magnitude (peak out) - magnitude F32_one) * 2 ^ 22 <= magnitude F32_one.
Proof.
  destruct (normalizeAudio_spec (single [F32_0_2; F32.opp F32_half; F32_0_1]) 1%positive
              [F32_0_2; F32.opp F32_half; F32_0_1] F32_one) as (_ & Hscaled & _).
  - reflexivity.
  - destruct Hscaled as (out & Hrun & Hlen & _ & _ & _ & Hpeak).
    + reflexivity.
    + destruct Hpeak as (Hpeak & _ & Htol).
      * repeat constructor.
      * by split.
      * reflexivity.
      * exact I.
      * destruct Htol as [Hfinite Htol]; [by vm_compute|].
        exists out. split; [exact Hrun|]. split; [exact Hlen|].
        split; [exact Hpeak|]. apply Htol, Hfinite. by vm_compute.
Defined.
